(** * Attio MCP server: the data-shaping helpers and the tool handlers

    A shallow embedding of the six pure helpers of [helpers.ts] that the
    server's tools call ([extractRecordName], [flattenValues],
    [shapeSearchResults], [computePipelineSummary], [enrichTasks],
    [buildActivityTimeline]), with the properties the specification states
    about them, and of the data path of the tool handlers of [index.ts] that
    call them, with further properties of both.

    The helpers are written against [any]: they probe JSON data with property
    reads, truthiness tests, [||], [??], [?.], template literals and the
    coercions [String] and [Number].  The embedding therefore starts with the
    fragment of JavaScript those helpers use, over JSON trees:

    - numbers are IEEE-754 binary64 values ([spec_float] at precision 53);
    - strings are sequences of code units below 256 (Rocq's [string]);
    - an object is the list of its own properties in enumeration order, with
      distinct names, as [JSON.parse] builds it: every property is data, and
      a property may bear a name that [Object.prototype] defines too, such
      as [toString] or [__proto__];
    - the data is a tree: no object or array sits at two places;
    - a property read on [null] or [undefined], a call of something that is
      not a function, and the conversion to a string or a number of an
      object whose own [toString] is data raise a [TypeError]: fallible code
      lives in [result].

    The file has five parts: the JavaScript fragment; the helpers and the
    handlers; the vocabulary of the properties, with sample data; the facts
    the proofs share; and the properties, those of the specification first.
*)

From Stdlib Require Import ZArith NArith List String Ascii Bool Lia.
From Stdlib Require Import Permutation Sorted DecimalString OrderedTypeEx.
From Stdlib Require Import SpecFloat.
Import ListNotations.

Set Warnings "-register-all".

Local Open Scope string_scope.
Local Open Scope list_scope.

(* ================================================================== *)
(** ** Strings: code units, whitespace, [trim], comparison *)

Module JsString.

Definition codeUnit (c : ascii) : N := N_of_ascii c.

(** WhiteSpace and LineTerminator code points below 256: TAB, LF, VT, FF, CR,
    SP and NBSP. *)
Definition isWhiteSpace (c : ascii) : bool :=
  let n := codeUnit c in
  ((9 <=? n) && (n <=? 13) || (n =? 32) || (n =? 160))%N.

Fixpoint trimStart (s : string) : string :=
  match s with
  | String c rest => if isWhiteSpace c then trimStart rest else s
  | EmptyString => EmptyString
  end.

(** [trimEnd] keeps a character when it is not blank or when something
    non-blank follows it. *)
Fixpoint trimEnd (s : string) : string :=
  match s with
  | EmptyString => EmptyString
  | String c rest =>
      match trimEnd rest with
      | EmptyString => if isWhiteSpace c then EmptyString else String c EmptyString
      | kept => String c kept
      end
  end.

(** [String.prototype.trim] *)
Definition trim (s : string) : string := trimEnd (trimStart s).

Definition isEmpty (s : string) : bool :=
  match s with EmptyString => true | _ => false end.

(** [s.length] *)
Definition len (s : string) : nat := String.length s.

(** [s[i]]: the one-unit string at index [i], when there is one. *)
Definition charAt (i : nat) (s : string) : option string :=
  match String.get i s with
  | Some c => Some (String c EmptyString)
  | None => None
  end.

(** The relational [<] on two strings: lexicographic on code units. *)
Definition ltb (a b : string) : bool := String.ltb a b.

(** Decimal numeral of a natural number, as array indices are spelled. *)
Definition ofNat (n : nat) : string := NilZero.string_of_uint (Nat.to_uint n).

Definition isDigit (c : ascii) : bool :=
  let n := codeUnit c in ((48 <=? n) && (n <=? 57))%N.

Definition digitValue (c : ascii) : N := (codeUnit c - 48)%N.

(** A canonical array index: ["0"], or digits without a leading zero. *)
Fixpoint allDigits (s : string) : bool :=
  match s with
  | EmptyString => true
  | String c rest => isDigit c && allDigits rest
  end.

Fixpoint digitsValue (acc : N) (s : string) : N :=
  match s with
  | EmptyString => acc
  | String c rest => digitsValue (acc * 10 + digitValue c)%N rest
  end.

Definition asIndex (s : string) : option nat :=
  match s with
  | EmptyString => None
  | String c rest =>
      if allDigits s && (isEmpty rest || negb (codeUnit c =? 48)%N)
      then Some (N.to_nat (digitsValue 0%N s))
      else None
  end.

End JsString.

(* ================================================================== *)
(** ** Numbers: binary64, [Number::toString], [StringToNumber] *)

Module JsNumber.

Definition prec : Z := 53.
Definition emax : Z := 1024.

Definition number : Type := spec_float.

Definition NaN : number := S754_nan.
Definition posZero : number := S754_zero false.
Definition infinity (neg : bool) : number := S754_infinity neg.

Definition ofZ (z : Z) : number := binary_normalize prec emax z 0 false.
Definition ofNat (n : nat) : number := ofZ (Z.of_nat n).

Definition add (x y : number) : number := SFadd prec emax x y.

Definition isNaN (x : number) : bool :=
  match x with S754_nan => true | _ => false end.

Definition isZero (x : number) : bool :=
  match x with S754_zero _ => true | _ => false end.

(** IEEE comparison: [NaN] is unordered, the two zeros are equal. *)
Definition eqb (x y : number) : bool := SFeqb x y.
Definition ltb (x y : number) : bool := SFltb x y.

(** The binary64 value nearest to [m * 10^e] (ties to even). *)
Definition ofDecimal (neg : bool) (m : N) (e : Z) : number :=
  match m with
  | N0 => S754_zero neg
  | Npos p =>
      match e with
      | Zneg k =>
          let '(q, e', l) :=
            SFdiv_core_binary prec emax (Zpos p) 0 (Z.pow_pos 10 k) 0 in
          binary_round_aux prec emax neg q e' l
      | _ => binary_round prec emax neg (p * Z.to_pos (10 ^ e)) 0
      end
  end.

(** *** Number to string *)

(** A positive finite value as an exact fraction [num / den]. *)
Definition fraction (m : positive) (e : Z) : Z * Z :=
  match e with
  | Zneg k => (Zpos m, Z.pow_pos 2 k)
  | _ => (Zpos m * 2 ^ e, 1)%Z
  end.

(** [num / den >= 10^n] *)
Definition geq10 (num den n : Z) : bool :=
  match n with
  | Zneg k => (den <=? num * Z.pow_pos 10 k)%Z
  | _ => (den * 10 ^ n <=? num)%Z
  end.

Fixpoint raiseExp (fuel : nat) (num den n : Z) : Z :=
  match fuel with
  | O => n
  | S fuel' => if geq10 num den n then raiseExp fuel' num den (n + 1)%Z else n
  end.

Fixpoint lowerExp (fuel : nat) (num den n : Z) : Z :=
  match fuel with
  | O => n
  | S fuel' =>
      if geq10 num den (n - 1)%Z then n else lowerExp fuel' num den (n - 1)%Z
  end.

(** The [n] with [10^(n-1) <= num/den < 10^n], from an estimate off the
    binary exponent that is then adjusted. *)
Definition decimalExponent (m : positive) (e : Z) : Z :=
  let '(num, den) := fraction m e in
  let b := (Zpos (digits2_pos m) + e)%Z in
  let guess := ((b - 1) * 30103 / 100000 + 1)%Z in
  lowerExp 700 num den (raiseExp 700 num den guess).

(** [num/den] scaled by [10^(k-n)]: integer part and whether twice the
    remainder is below, at or above the divisor. *)
Definition scaled (num den n k : Z) : Z * comparison :=
  let '(a, b) :=
    match (k - n)%Z with
    | Zneg d => (num, den * Z.pow_pos 10 d)%Z
    | d => (num * 10 ^ d, den)%Z
    end in
  let '(q, r) := Z.div_eucl a b in
  (q, (2 * r ?= b)%Z).

Definition roundTrips (x : number) (s n k : Z) : bool :=
  eqb (ofDecimal false (Z.to_N s) (n - k)) x.

(** The shortest digit string [s] of [k] digits with [s * 10^(n-k)]
    reading back as [x]; of two candidates the nearer, then the even one. *)
Fixpoint shortest (fuel : nat) (x : number) (num den n k : Z) : Z * Z :=
  let '(lo, half) := scaled num den n k in
  let hi := (lo + 1)%Z in
  let okLo := roundTrips x lo n k in
  let okHi := roundTrips x hi n k in
  let preferHi :=
    match half with Lt => false | Gt => true | Eq => Z.odd lo end in
  let norm s := if (s =? 10 ^ k)%Z then (10 ^ (k - 1), n + 1)%Z else (s, n) in
  match fuel with
  | O => norm (if preferHi then hi else lo)
  | S fuel' =>
      if okLo && okHi then norm (if preferHi then hi else lo)
      else if okLo then norm lo
      else if okHi then norm hi
      else shortest fuel' x num den n (k + 1)%Z
  end.

Definition digitsOf (z : Z) : string := NilZero.string_of_uint (N.to_uint (Z.to_N z)).

Fixpoint zeros (n : nat) : string :=
  match n with O => "" | S n' => String "0" (zeros n') end.

Definition withPoint (ds : string) (at_ : nat) : string :=
  String.substring 0 at_ ds ++ "." ++
  String.substring at_ (String.length ds - at_) ds.

(** The layout rules of Number::toString for digits [ds] and exponent [n]. *)
Definition layout (ds : string) (n : Z) : string :=
  let k := Z.of_nat (String.length ds) in
  if ((k <=? n) && (n <=? 21))%Z then ds ++ zeros (Z.to_nat (n - k))
  else if ((0 <? n) && (n <=? 21))%Z then withPoint ds (Z.to_nat n)
  else if ((-6 <? n) && (n <=? 0))%Z then "0." ++ zeros (Z.to_nat (- n)) ++ ds
  else
    let e := (n - 1)%Z in
    let sign := if (e <? 0)%Z then "-" else "+" in
    let mant := if (k =? 1)%Z then ds else withPoint ds 1 in
    mant ++ "e" ++ sign ++ digitsOf (Z.abs e).

Definition toString (x : number) : string :=
  match x with
  | S754_nan => "NaN"
  | S754_zero _ => "0"
  | S754_infinity neg => if neg then "-Infinity" else "Infinity"
  | S754_finite neg m e =>
      let '(num, den) := fraction m e in
      let n := decimalExponent m e in
      let '(s, n') := shortest 17 (S754_finite false m e) num den n 1 in
      (if neg then "-" else "") ++ layout (digitsOf s) n'
  end.

(** *** String to number *)

Fixpoint takeDigits (s : string) : string * string :=
  match s with
  | String c rest =>
      if JsString.isDigit c
      then let '(ds, tl) := takeDigits rest in (String c ds, tl)
      else (EmptyString, s)
  | EmptyString => (EmptyString, EmptyString)
  end.

Definition signOf (s : string) : bool * string :=
  match s with
  | String "-" rest => (true, rest)
  | String "+" rest => (false, rest)
  | _ => (false, s)
  end.

(** ExponentPart, when the rest of the literal is one. *)
Definition exponentPart (s : string) : option Z :=
  match s with
  | EmptyString => Some 0%Z
  | String c rest =>
      if (JsString.codeUnit c =? 101)%N || (JsString.codeUnit c =? 69)%N then
        let '(neg, body) := signOf rest in
        let '(ds, tl) := takeDigits body in
        match ds, tl with
        | String _ _, EmptyString =>
            let v := Z.of_N (JsString.digitsValue 0%N ds) in
            Some (if neg then (- v)%Z else v)
        | _, _ => None
        end
      else None
  end.

(** StrDecimalLiteral without its sign. *)
Definition unsignedDecimal (neg : bool) (s : string) : number :=
  if s =? "Infinity" then infinity neg
  else
    let '(ip, afterInt) := takeDigits s in
    let '(fp, afterFrac) :=
      match afterInt with
      | String "." rest => takeDigits rest
      | _ => (EmptyString, afterInt)
      end in
    if JsString.isEmpty ip && JsString.isEmpty fp then NaN
    else
      match exponentPart afterFrac with
      | Some ex =>
          ofDecimal neg (JsString.digitsValue 0%N (ip ++ fp))
                    (ex - Z.of_nat (String.length fp))
      | None => NaN
      end.

Definition radixDigit (radix : N) (c : ascii) : option N :=
  let n := JsString.codeUnit c in
  let v :=
    if ((48 <=? n) && (n <=? 57))%N then Some (n - 48)%N
    else if ((97 <=? n) && (n <=? 102))%N then Some (n - 87)%N
    else if ((65 <=? n) && (n <=? 70))%N then Some (n - 55)%N
    else None in
  match v with
  | Some d => if (d <? radix)%N then Some d else None
  | None => None
  end.

Fixpoint radixValue (radix acc : N) (s : string) : option N :=
  match s with
  | EmptyString => Some acc
  | String c rest =>
      match radixDigit radix c with
      | Some d => radixValue radix (acc * radix + d)%N rest
      | None => None
      end
  end.

(** NonDecimalIntegerLiteral: [0x], [0o], [0b] and digits. *)
Definition nonDecimal (s : string) : option number :=
  match s with
  | String "0" (String p (String c rest)) =>
      let n := JsString.codeUnit p in
      let radix :=
        if (n =? 120)%N || (n =? 88)%N then Some 16%N
        else if (n =? 111)%N || (n =? 79)%N then Some 8%N
        else if (n =? 98)%N || (n =? 66)%N then Some 2%N
        else None in
      match radix with
      | Some r =>
          match radixValue r 0%N (String c rest) with
          | Some v => Some (ofDecimal false v 0)
          | None => Some NaN
          end
      | None => None
      end
  | _ => None
  end.

(** StringToNumber: blank strings read as [+0], anything that is not a
    StringNumericLiteral as [NaN]. *)
Definition ofString (s : string) : number :=
  let t := JsString.trim s in
  if JsString.isEmpty t then posZero
  else
    match nonDecimal t with
    | Some x => x
    | None => let '(neg, body) := signOf t in unsignedDecimal neg body
    end.

End JsNumber.
(* ================================================================== *)
(** ** Values, exceptions and the operators the helpers use *)

Module Js.

Definition number : Type := JsNumber.number.

(** A JSON tree, and [undefined].  An object is the list of its own
    properties in the order in which the runtime enumerates them
    ([Object.entries]), no name twice. *)
Inductive JsVal : Type :=
| JUndefined
| JNull
| JBool (b : bool)
| JNum (x : number)
| JStr (s : string)
| JArr (items : list JsVal)
| JObj (props : list (string * JsVal)).

Inductive JsError : Type :=
| TypeError.

Inductive result (A : Type) : Type :=
| Ok (a : A)
| Throw (e : JsError).

Arguments Ok {A} a.
Arguments Throw {A} e.

Definition bind {A B : Type} (m : result A) (k : A -> result B) : result B :=
  match m with
  | Ok a => k a
  | Throw e => Throw e
  end.

Declare Scope js_scope.
Delimit Scope js_scope with js.

Notation "x <- m ;; k" := (bind m (fun x => k))
  (at level 61, m at next level, right associativity) : js_scope.

Local Open Scope js_scope.

(** [Array.prototype.map] with a callback that may throw. *)
Fixpoint mapM {A B : Type} (f : A -> result B) (l : list A) : result (list B) :=
  match l with
  | [] => Ok []
  | a :: rest => b <- f a ;; bs <- mapM f rest ;; Ok (b :: bs)
  end.

(** *** Tests on values *)

Definition truthy (v : JsVal) : bool :=
  match v with
  | JUndefined | JNull => false
  | JBool b => b
  | JNum x => negb (JsNumber.isNaN x || JsNumber.isZero x)
  | JStr s => negb (JsString.isEmpty s)
  | JArr _ | JObj _ => true
  end.

Definition nullish (v : JsVal) : bool :=
  match v with
  | JUndefined | JNull => true
  | _ => false
  end.

(** [typeof v === "string"] *)
Definition isString (v : JsVal) : bool :=
  match v with JStr _ => true | _ => false end.

(** [typeof v === "object"]: objects, arrays and [null]. *)
Definition typeofObject (v : JsVal) : bool :=
  match v with JNull | JArr _ | JObj _ => true | _ => false end.

(** [typeof v] is ["string"], ["number"] or ["boolean"]. *)
Definition isScalar (v : JsVal) : bool :=
  match v with JStr _ | JNum _ | JBool _ => true | _ => false end.

Definition isArray (v : JsVal) : bool :=
  match v with JArr _ => true | _ => false end.

Definition isUndefined (v : JsVal) : bool :=
  match v with JUndefined => true | _ => false end.

(** [v === prim] for a primitive right operand.  Objects and arrays are
    compared by identity, and no helper compares two of them. *)
Definition strictEq (v w : JsVal) : bool :=
  match v, w with
  | JUndefined, JUndefined => true
  | JNull, JNull => true
  | JBool a, JBool b => Bool.eqb a b
  | JNum x, JNum y => JsNumber.eqb x y
  | JStr s, JStr t => String.eqb s t
  | _, _ => false
  end.

(** SameValueZero, the key equality of [Map]: as [===] except that [NaN]
    equals itself.  Two object keys are the same only when they are one
    object; in a JSON tree the objects at two positions never are. *)
Definition sameValueZero (v w : JsVal) : bool :=
  match v, w with
  | JNum x, JNum y => JsNumber.eqb x y || (JsNumber.isNaN x && JsNumber.isNaN y)
  | _, _ => strictEq v w
  end.

(** *** Property reads *)

Fixpoint assoc {A : Type} (k : string) (l : list (string * A)) : option A :=
  match l with
  | [] => None
  | (k', a) :: rest => if String.eqb k k' then Some a else assoc k rest
  end.

Definition orUndefined (o : option JsVal) : JsVal :=
  match o with Some v => v | None => JUndefined end.

(** The object has an own property named [p]. *)
Definition hasOwn (p : string) (props : list (string * JsVal)) : bool :=
  match assoc p props with Some _ => true | None => false end.

(** The value of [v[p]] for a [v] that is neither [null] nor [undefined] and
    a name [p] that is not the name of a built-in method: the own properties
    and, of the inherited ones, [length] and the indices of arrays and
    strings.  The helpers read one name that is a method of arrays, [values];
    that read is [getValues], below. *)
Definition readProp (v : JsVal) (p : string) : JsVal :=
  match v with
  | JObj props => orUndefined (assoc p props)
  | JArr items =>
      if p =? "length" then JNum (JsNumber.ofNat (List.length items))
      else match JsString.asIndex p with
           | Some i => nth i items JUndefined
           | None => JUndefined
           end
  | JStr s =>
      if p =? "length" then JNum (JsNumber.ofNat (JsString.len s))
      else match JsString.asIndex p with
           | Some i => match JsString.charAt i s with
                       | Some c => JStr c
                       | None => JUndefined
                       end
           | None => JUndefined
           end
  | _ => JUndefined
  end.

(** [v.p] and [v[p]] *)
Definition getProp (v : JsVal) (p : string) : result JsVal :=
  if nullish v then Throw TypeError else Ok (readProp v p).

(** [v?.p] and [v?.[p]] *)
Definition optProp (v : JsVal) (p : string) : JsVal :=
  if nullish v then JUndefined else readProp v p.

(** Expression combinators: operands are computations, so that the right
    operand of [||] and [??] is only consulted when the left one gives way. *)
Definition dot (e : result JsVal) (p : string) : result JsVal :=
  v <- e ;; getProp v p.

Definition optDot (e : result JsVal) (p : string) : result JsVal :=
  v <- e ;; Ok (optProp v p).

Definition orElse (e1 e2 : result JsVal) : result JsVal :=
  v <- e1 ;; if truthy v then Ok v else e2.

Definition coalesce (e1 e2 : result JsVal) : result JsVal :=
  v <- e1 ;; if nullish v then e2 else Ok v.

Notation "e ·. p" := (dot e p) (at level 39, left associativity) : js_scope.
Notation "e ?. p" := (optDot e p) (at level 39, left associativity) : js_scope.
Notation "e1 <||> e2" := (orElse e1 e2)
  (at level 51, right associativity) : js_scope.
Notation "e1 <??> e2" := (coalesce e1 e2)
  (at level 51, right associativity) : js_scope.

(** *** The property [values]

    Three helpers start from [x.values].  On an object that is an own
    property or [undefined]; on an array the name is inherited, and
    [x.values] is the method [Array.prototype.values].  That function is the
    one value a helper can hold that is not data, and it holds it only in
    its local [values]: it tests it, reads properties off it and passes it
    to [flattenValues], and never stores or calls it. *)
Inductive Values : Type :=
| Mapping (v : JsVal)
| ArrayValues.

Definition readValues (x : JsVal) : Values :=
  match x with
  | JArr _ => ArrayValues
  | _ => Mapping (readProp x "values")
  end.

(** [x.values] *)
Definition getValues (x : JsVal) : result Values :=
  if nullish x then Throw TypeError else Ok (readValues x).

(** [x?.values] *)
Definition optValues (x : JsVal) : Values :=
  if nullish x then Mapping JUndefined else readValues x.

(** A function is truthy. *)
Definition truthyValues (values : Values) : bool :=
  match values with
  | Mapping v => truthy v
  | ArrayValues => true
  end.

(** [values || e] *)
Definition orMapping (values : Values) (e : result JsVal) : result Values :=
  if truthyValues values then Ok values else v <- e ;; Ok (Mapping v).

(** The own properties of the function [Array.prototype.values] are its
    [name] and its [length]; no other name a helper reads is inherited by a
    function. *)
Definition methodProp (p : string) : JsVal :=
  if p =? "name" then JStr "values"
  else if p =? "length" then JNum JsNumber.posZero
  else JUndefined.

Definition readField (values : Values) (p : string) : JsVal :=
  match values with
  | Mapping v => readProp v p
  | ArrayValues => methodProp p
  end.

(** [values.p] and [values[p]] *)
Definition getField (values : Values) (p : string) : result JsVal :=
  match values with
  | Mapping v => getProp v p
  | ArrayValues => Ok (methodProp p)
  end.

(** *** Coercions *)

(** ToString, which [String(v)] and a template literal apply.  An object is
    first converted to a primitive, by its [toString] method and, failing
    that, by its [valueOf].  An object of a JSON tree inherits both from
    [Object.prototype], and prints as ["[object Object]"], unless it has an
    own property named [toString]: that property is data and cannot be
    called, [valueOf] (own or inherited) gives no primitive either, and the
    conversion raises a [TypeError].  An array joins its elements with
    commas, [null] and [undefined] elements as empty strings, the others
    converted in turn. *)
Fixpoint toStr (v : JsVal) : result string :=
  match v with
  | JUndefined => Ok "undefined"
  | JNull => Ok "null"
  | JBool b => Ok (if b then "true" else "false")
  | JNum x => Ok (JsNumber.toString x)
  | JStr s => Ok s
  | JArr items =>
      let element x := if nullish x then Ok "" else toStr x in
      (fix join (l : list JsVal) : result string :=
         match l with
         | [] => Ok ""
         | [x] => element x
         | x :: rest =>
             s <- element x ;; joined <- join rest ;;
             Ok (s ++ "," ++ joined)%string
         end) items
  | JObj props =>
      if hasOwn "toString" props then Throw TypeError
      else Ok "[object Object]"
  end.

(** ToPrimitive with the hint [number].  [valueOf] comes first, but neither
    the inherited one nor an own property of that name gives a primitive, so
    that arrays and objects go through their string, as above. *)
Definition toPrimitive (v : JsVal) : result JsVal :=
  match v with
  | JArr _ | JObj _ => s <- toStr v ;; Ok (JStr s)
  | _ => Ok v
  end.

(** ToNumber of a primitive. *)
Definition primitiveToNumber (p : JsVal) : number :=
  match p with
  | JUndefined => JsNumber.NaN
  | JNull => JsNumber.posZero
  | JBool b => JsNumber.ofZ (if b then 1 else 0)
  | JNum x => x
  | JStr s => JsNumber.ofString s
  | _ => JsNumber.NaN
  end.

(** ToNumber, which [Number(v)] applies. *)
Definition toNumber (v : JsVal) : result number :=
  p <- toPrimitive v ;; Ok (primitiveToNumber p).

(** The relational operator [a < b]: both operands are converted to
    primitives, left first; two strings are compared by code units, anything
    else as numbers. *)
Definition lessThan (a b : JsVal) : result bool :=
  pa <- toPrimitive a ;;
  pb <- toPrimitive b ;;
  match pa, pb with
  | JStr s, JStr t => Ok (JsString.ltb s t)
  | _, _ => Ok (JsNumber.ltb (primitiveToNumber pa) (primitiveToNumber pb))
  end.

(** *** Arrays *)

(** The receiver of [.map(...)]: anything but an array has no such method,
    and calling it throws. *)
Definition asArray (v : JsVal) : result (list JsVal) :=
  match v with
  | JArr items => Ok items
  | _ => Throw TypeError
  end.

Fixpoint indexed (i : nat) (items : list JsVal) : list (string * JsVal) :=
  match items with
  | [] => []
  | x :: rest => (JsString.ofNat i, x) :: indexed (S i) rest
  end.

(** [Object.entries(v)] for a [v] with [typeof v === "object"], not null. *)
Definition entriesOf (v : JsVal) : list (string * JsVal) :=
  match v with
  | JObj props => props
  | JArr items => indexed 0 items
  | _ => []
  end.

(** [Array.prototype.sort(cmp)] as Node performs it.  V8's TimSort only ever
    asks whether [cmp(later, earlier) < 0], for elements in that input order,
    and is stable; when that question is a strict weak order its outcome is
    the stable insertion of each element, in input order, before the first
    element it is less than. *)
Fixpoint insertSorted {A : Type} (lt : A -> A -> bool) (x : A) (l : list A)
  : list A :=
  match l with
  | [] => [x]
  | y :: rest => if lt x y then x :: y :: rest else y :: insertSorted lt x rest
  end.

Definition sortWith {A : Type} (lt : A -> A -> bool) (l : list A) : list A :=
  fold_left (fun acc x => insertSorted lt x acc) l [].

(** The same with a comparator that may throw, reduced to the one question
    the sort asks of it: is [cmp(x, y)] negative?  An array of fewer than two
    elements is returned without a comparison. *)
Fixpoint insertSortedM {A : Type} (lt : A -> A -> result bool) (x : A)
  (l : list A) : result (list A) :=
  match l with
  | [] => Ok [x]
  | y :: rest =>
      before <- lt x y ;;
      if before then Ok (x :: y :: rest)
      else placed <- insertSortedM lt x rest ;; Ok (y :: placed)
  end.

Fixpoint sortLoopM {A : Type} (lt : A -> A -> result bool) (l acc : list A)
  : result (list A) :=
  match l with
  | [] => Ok acc
  | x :: rest => acc' <- insertSortedM lt x acc ;; sortLoopM lt rest acc'
  end.

Definition sortWithM {A : Type} (lt : A -> A -> result bool) (l : list A)
  : result (list A) :=
  sortLoopM lt l [].

(** *** [Map<string, string>] *)

Definition NameMap : Type := list (string * string).

(** [m.get(k)]: a key that is not a string matches no entry. *)
Definition mapGet (m : NameMap) (k : JsVal) : JsVal :=
  match k with
  | JStr s => match assoc s m with Some name => JStr name | None => JUndefined end
  | _ => JUndefined
  end.

End Js.
(* ================================================================== *)
(** ** The collation of the runtime *)

(** [String.prototype.localeCompare] compares by the collation of ICU for
    the host's default locale.  The helpers are modelled for any collation.
    This module has the one Node applies under the locale [en], the root
    collation of CLDR, on strings of ASCII characters: white space ranks
    first, then punctuation, then symbols, then the digits, then the
    letters; two strings are compared by these ranks, letter case apart, and
    where that does not decide, by the case of their letters, lower case
    first.  Control characters are ignored. *)
Module Icu.

(** The punctuation and the symbols of ASCII by code point, in root order:
    low line, hyphen-minus, comma, semicolon, colon, exclamation mark,
    question mark, full stop, apostrophe, quotation mark, the brackets,
    commercial at, asterisk, solidus, reverse solidus, ampersand, number
    sign, percent sign; then grave accent, circumflex accent, plus sign,
    less-than, equals, greater-than, vertical line, tilde and dollar sign. *)
Definition symbols : list N :=
  [95; 45; 44; 59; 58; 33; 63; 46; 39; 34; 40; 41; 91; 93; 123; 125; 64; 42;
   47; 92; 38; 35; 37; 96; 94; 43; 60; 61; 62; 124; 126; 36]%N.

Fixpoint position (n : N) (l : list N) (i : N) : option N :=
  match l with
  | [] => None
  | m :: rest => if (n =? m)%N then Some i else position n rest (i + 1)%N
  end.

Definition upper (n : N) : bool := ((65 <=? n) && (n <=? 90))%N.
Definition lower (n : N) : bool := ((97 <=? n) && (n <=? 122))%N.
Definition digit (n : N) : bool := ((48 <=? n) && (n <=? 57))%N.

(** The primary rank of a character, when it has one. *)
Definition primary (c : ascii) : option N :=
  let n := N_of_ascii c in
  if ((9 <=? n) && (n <=? 13))%N then Some (n - 8)%N
  else if (n =? 32)%N then Some 6%N
  else
    match position n symbols 0 with
    | Some i => Some (7 + i)%N
    | None =>
        if digit n then Some (n - 48 + 50)%N
        else if upper n then Some (n - 65 + 100)%N
        else if lower n then Some (n - 97 + 100)%N
        else if (n <? 128)%N then None
        else Some (n + 200)%N
    end.

Fixpoint primaryKey (s : string) : list N :=
  match s with
  | EmptyString => []
  | String c rest =>
      match primary c with
      | Some w => w :: primaryKey rest
      | None => primaryKey rest
      end
  end.

(** The case of the characters that have a rank: [1] for a capital. *)
Fixpoint caseKey (s : string) : list N :=
  match s with
  | EmptyString => []
  | String c rest =>
      match primary c with
      | Some _ => (if upper (N_of_ascii c) then 1 else 0)%N :: caseKey rest
      | None => caseKey rest
      end
  end.

Fixpoint compareKeys (k1 k2 : list N) : comparison :=
  match k1, k2 with
  | [], [] => Eq
  | [], _ :: _ => Lt
  | _ :: _, [] => Gt
  | a :: r1, b :: r2 =>
      match (a ?= b)%N with
      | Eq => compareKeys r1 r2
      | c => c
      end
  end.

Definition localeCompare (s t : string) : Z :=
  let c :=
    match compareKeys (primaryKey s) (primaryKey t) with
    | Eq => compareKeys (caseKey s) (caseKey t)
    | c => c
    end in
  match c with
  | Lt => (-1)%Z
  | Eq => 0%Z
  | Gt => 1%Z
  end.

End Icu.

(* ================================================================== *)
(** ** The helpers of [helpers.ts] *)

Module Helpers.

Import Js.
Local Open Scope js_scope.

(** A block of [if (...) return ...;] statements either returns a value or
    falls through to the statements after it. *)
Definition Returned : Type := option JsVal.

Definition returns (v : JsVal) : result Returned := Ok (Some v).
Definition fallThrough : result Returned := Ok None.

Definition otherwise (block : result Returned) (rest : result JsVal)
  : result JsVal :=
  r <- block ;;
  match r with
  | Some v => Ok v
  | None => rest
  end.

Definition otherwiseTry (block rest : result Returned) : result Returned :=
  r <- block ;;
  match r with
  | Some v => returns v
  | None => rest
  end.

(** [`${x.first_name || ""} ${x.last_name || ""}`.trim()] *)
Definition composeName (x : JsVal) : result JsVal :=
  first <- (Ok x ·. "first_name" <||> Ok (JStr "")) ;;
  firstText <- toStr first ;;
  last <- (Ok x ·. "last_name" <||> Ok (JStr "")) ;;
  lastText <- toStr last ;;
  Ok (JStr (JsString.trim (firstText ++ " " ++ lastText))).

(** [return String(value);] *)
Definition returnsString (value : JsVal) : result Returned :=
  s <- toStr value ;; returns (JStr s).

(** *** [extractRecordName] *)

(** The block guarded by [if (nameVal)]. *)
Definition fromNameVal (nameVal : JsVal) : result Returned :=
  if truthy nameVal then
    full <- getProp nameVal "full_name" ;;
    if truthy full then returns full
    else
      part <- (Ok nameVal ·. "first_name" <||> Ok nameVal ·. "last_name") ;;
      if truthy part then
        composed <- composeName nameVal ;; returns composed
      else if isString nameVal then returns nameVal
      else
        value <- getProp nameVal "value" ;;
        if truthy value then returnsString value else fallThrough
  else fallThrough.

(** The block guarded by [if (titleVal)]. *)
Definition fromTitleVal (titleVal : JsVal) : result Returned :=
  if truthy titleVal then
    if isString titleVal then returns titleVal
    else
      value <- getProp titleVal "value" ;;
      if truthy value then returnsString value else fallThrough
  else fallThrough.

(** One turn of the loop over the fallback keys. *)
Definition fromFallbackKey (values : Values) (key : string) : result Returned :=
  v <- getField values key ;;
  if isArray v then
    first <- getProp v "0" ;;
    if truthy first then
      full <- getProp first "full_name" ;;
      if truthy full then returns full
      else if isString first then returns first
      else
        value <- getProp first "value" ;;
        if truthy value then returnsString value else fallThrough
    else fallThrough
  else fallThrough.

Fixpoint fromFallbackKeys (values : Values) (keys : list string)
  : result Returned :=
  match keys with
  | [] => fallThrough
  | key :: rest =>
      otherwiseTry (fromFallbackKey values key) (fromFallbackKeys values rest)
  end.

Definition fallbackKeys : list string :=
  ["name"; "title"; "company"; "deal_name"; "primary_name"].

(** [record?.values || record?.attributes || {}] *)
Definition valuesOf (record : JsVal) : result Values :=
  orMapping (optValues record) (Ok record ?. "attributes" <||> Ok (JObj [])).

(** The body of [extractRecordName] once [values] is bound; [lastResort] is
    its final [return]. *)
Definition nameFrom (values : Values) (lastResort : result JsVal)
  : result JsVal :=
  nameVal <- (getField values "name" ?. "0"
              <||> getField values "primary_name" ?. "0") ;;
  otherwise (fromNameVal nameVal) (
  titleVal <- (getField values "title" ?. "0"
               <||> getField values "company_name" ?. "0"
               <||> getField values "deal_name" ?. "0") ;;
  otherwise (fromTitleVal titleVal) (
  otherwise (fromFallbackKeys values fallbackKeys) lastResort)).

Definition extractRecordName (record : JsVal) : result JsVal :=
  values <- valuesOf record ;;
  nameFrom values
    (Ok record ?. "id" ?. "record_id" <||> Ok record ?. "id"
     <||> Ok (JStr "Unknown")).

(** *** [flattenValues] *)

(** [/^\d{4}-\d{2}/.test(s)] *)
Definition datePrefix (s : string) : bool :=
  match s with
  | String a (String b (String c (String d (String "-" (String e (String f _)))))) =>
      JsString.isDigit a && JsString.isDigit b && JsString.isDigit c &&
      JsString.isDigit d && JsString.isDigit e && JsString.isDigit f
  | _ => false
  end.

Definition isDateString (v : JsVal) : bool :=
  match v with JStr s => datePrefix s | _ => false end.

Definition defined (v : JsVal) : bool := negb (strictEq v JUndefined).

(** The body of the loop once [first = arr[0]] is bound: the chain of
    [if (first.<field> !== undefined) { flat[key] = ...; continue; }]. *)
Definition flattenFirst (first : JsVal) : result JsVal :=
  full_name <- getProp first "full_name" ;;
  if defined full_name then Ok full_name <||> composeName first else
  email_address <- getProp first "email_address" ;;
  if defined email_address then Ok email_address else
  phone_number <- getProp first "phone_number" ;;
  if defined phone_number then Ok phone_number else
  currency_value <- getProp first "currency_value" ;;
  if defined currency_value then
    code <- (Ok first ·. "currency_code" <||> Ok JNull) ;;
    Ok (JObj [("amount", currency_value); ("currency", code)]) else
  status <- getProp first "status" ;;
  if defined status then Ok first ·. "status" ?. "title" <||> Ok status else
  target_record_id <- getProp first "target_record_id" ;;
  if defined target_record_id then
    target <- (Ok first ·. "target_object" <||> Ok JNull) ;;
    Ok (JObj [("recordId", target_record_id); ("objectType", target)]) else
  option <- getProp first "option" ;;
  if defined option then Ok first ·. "option" ?. "title" <||> Ok option else
  value <- getProp first "value" ;;
  if defined value && isString value && isDateString value then Ok value else
  if defined value then Ok value else
  if isScalar first then Ok first else
  Ok first.

(** What [flat[key]] is set to for one [[key, arr]] entry. *)
Definition flattenEntry (arr : JsVal) : result JsVal :=
  match arr with
  | JArr (first :: _) => flattenFirst first
  | _ => Ok JNull
  end.

(** The object [flat]: its own properties, and its prototype, which starts
    as [Object.prototype] and which an assignment can replace. *)
Inductive Prototype : Type :=
| ObjectPrototype
| Proto (v : JsVal).

Module Flat.
Record t : Type := make {
  proto : Prototype;
  own : list (string * JsVal)
}.
End Flat.

(** [const flat = {}] *)
Definition emptyFlat : Flat.t := Flat.make ObjectPrototype [].

(** [flat[key] = v].  The name [__proto__] is an accessor that [flat]
    inherits from [Object.prototype]: assigning to it adds no property, and
    makes [v] the prototype of [flat] when [v] is an object, an array or
    [null].  Under any other name the assignment adds an own property: the
    names of [Object.entries] are distinct, so there is none of that name
    yet, and no prototype [flat] can have stands in the way. *)
Definition assign (flat : Flat.t) (key : string) (v : JsVal) : Flat.t :=
  if key =? "__proto__" then
    if typeofObject v then Flat.make (Proto v) (Flat.own flat) else flat
  else Flat.make (Flat.proto flat) (Flat.own flat ++ [(key, v)]).

(** The loop over [Object.entries(values)]. *)
Fixpoint flattenEntries (entries : list (string * JsVal)) (flat : Flat.t)
  : result Flat.t :=
  match entries with
  | [] => Ok flat
  | (key, arr) :: rest =>
      v <- flattenEntry arr ;; flattenEntries rest (assign flat key v)
  end.

Definition flattenValues (values : JsVal) : result Flat.t :=
  if negb (truthy values) || negb (typeofObject values) then Ok emptyFlat
  else flattenEntries (entriesOf values) emptyFlat.

(** [flattenValues(values)] for the local [values] of a helper: a function
    is truthy and its [typeof] is not ["object"]. *)
Definition flattenLocal (values : Values) : result Flat.t :=
  match values with
  | Mapping v => flattenValues v
  | ArrayValues => Ok emptyFlat
  end.

(** *** [shapeSearchResults] *)

Module ShapedRecord.
Record t : Type := make {
  id : JsVal;
  objectType : JsVal;
  name : JsVal;
  email : JsVal;
  company : JsVal;
  flatValues : Flat.t
}.
End ShapedRecord.

(** An optional [string] parameter as the value the body sees. *)
Definition optional (objectType : option string) : JsVal :=
  match objectType with
  | Some t => JStr t
  | None => JUndefined
  end.

(** The [filter] callback:
    [!objectType || r.object === objectType || r.parent_object === objectType] *)
Definition keepRecord (objectType : JsVal) (r : JsVal) : result bool :=
  if negb (truthy objectType) then Ok true
  else
    own <- getProp r "object" ;;
    if strictEq own objectType then Ok true
    else
      parent <- getProp r "parent_object" ;;
      Ok (strictEq parent objectType).

Fixpoint filterM {A : Type} (f : A -> result bool) (l : list A)
  : result (list A) :=
  match l with
  | [] => Ok []
  | a :: rest =>
      keep <- f a ;;
      kept <- filterM f rest ;;
      Ok (if keep then a :: kept else kept)
  end.

(** [r.values || r.attributes || {}] *)
Definition recordValues (r : JsVal) : result Values :=
  values <- getValues r ;;
  orMapping values (Ok r ·. "attributes" <||> Ok (JObj [])).

(** The [map] callback. *)
Definition shapeRecord (objectType : JsVal) (r : JsVal)
  : result ShapedRecord.t :=
  values <- recordValues r ;;
  emailArr <- (getField values "email_addresses" <||> getField values "email"
               <||> Ok (JArr [])) ;;
  email <- (Ok emailArr ·. "0" ?. "email_address" <||> Ok emailArr ·. "0" ?. "value"
            <||> Ok JNull) ;;
  companyArr <- (getField values "company" <||> getField values "companies"
                 <||> Ok (JArr [])) ;;
  company <- (Ok companyArr ·. "0" ?. "full_name" <||> Ok companyArr ·. "0" ?. "value"
              <||> Ok JNull) ;;
  id <- (Ok r ·. "id" ?. "record_id" <||> Ok r ·. "id") ;;
  type <- (Ok r ·. "object" <||> Ok r ·. "parent_object" <||> Ok objectType
           <||> Ok JNull) ;;
  name <- extractRecordName r ;;
  flat <- flattenLocal values ;;
  Ok (ShapedRecord.make id type name email company flat).

Definition shapeSearchResults (records : list JsVal) (objectType : option string)
  : result (list ShapedRecord.t) :=
  kept <- filterM (keepRecord (optional objectType)) records ;;
  mapM (shapeRecord (optional objectType)) kept.

(** *** [computePipelineSummary] *)

Module PipelineStageSummary.
Record t : Type := make {
  stage : JsVal;
  count : nat;
  totalValue : option number
}.
End PipelineStageSummary.

Module PipelineEntry.
Record t : Type := make {
  id : JsVal;
  recordName : JsVal;
  stage : JsVal;
  value : option number
}.
End PipelineEntry.

Module PipelineSummary.
Record t : Type := make {
  listId : string;
  listName : string;
  totalEntries : nat;
  stages : list PipelineStageSummary.t;
  entries : list PipelineEntry.t
}.
End PipelineSummary.

(** The objects held by [stageMap].  [count] only ever counts array
    elements, so it stays an exact integer and is kept as a [nat]. *)
Module StageStats.
Record t : Type := make {
  count : nat;
  total : number;
  hasValue : bool
}.
End StageStats.

(** [stageMap], in insertion order. *)
Definition StageMap : Type := list (JsVal * StageStats.t).

(** [s.count++; if (numValue !== null) { s.total += numValue; s.hasValue = true; }] *)
Definition accumulate (numValue : option number) (s : StageStats.t)
  : StageStats.t :=
  match numValue with
  | Some x =>
      StageStats.make (S (StageStats.count s))
                      (JsNumber.add (StageStats.total s) x) true
  | None =>
      StageStats.make (S (StageStats.count s))
                      (StageStats.total s) (StageStats.hasValue s)
  end.

Definition freshStats : StageStats.t :=
  StageStats.make 0 JsNumber.posZero false.

(** [if (!stageMap.has(k)) stageMap.set(k, fresh); const s = stageMap.get(k)!]
    followed by the update of [s]: the entry with key [k] is updated in
    place, or a fresh one is appended and updated. *)
Fixpoint bumpStage (k : JsVal) (numValue : option number) (m : StageMap)
  : StageMap :=
  match m with
  | [] => [(k, accumulate numValue freshStats)]
  | (k', s) :: rest =>
      if sameValueZero k' k then (k', accumulate numValue s) :: rest
      else (k', s) :: bumpStage k numValue rest
  end.

(** [entry.entry_values || entry.values || {}] *)
Definition entryValuesOf (entry : JsVal) : result Values :=
  entry_values <- getProp entry "entry_values" ;;
  if truthy entry_values then Ok (Mapping entry_values)
  else values <- getValues entry ;; orMapping values (Ok (JObj [])).

(** [value !== null ? Number(value) : null] *)
Definition numberOrNull (value : JsVal) : result (option number) :=
  if strictEq value JNull then Ok None
  else x <- toNumber value ;; Ok (Some x).

(** [`Record ${recordId}`] and the like. *)
Definition labelled (prefix : string) (id : JsVal) : result JsVal :=
  s <- toStr id ;; Ok (JStr (prefix ++ s)).

(** The [map] callback, with [stageMap] passed through. *)
Definition shapeEntry (recordNameMap : NameMap) (entry : JsVal) (stageMap : StageMap)
  : result (PipelineEntry.t * StageMap) :=
  values <- entryValuesOf entry ;;
  stageVal <- getField values "stage" ?. "0" ;;
  stage <- (Ok stageVal ?. "status" ?. "title" <||> Ok stageVal ?. "option" ?. "title"
            <||> Ok stageVal ?. "value" <||> Ok JNull) ;;
  valueVal <- (getField values "value" ?. "0" <||> getField values "amount" ?. "0"
               <||> getField values "deal_value" ?. "0") ;;
  value <- (Ok valueVal ?. "currency_value" <??> Ok valueVal ?. "value" <??> Ok JNull) ;;
  numValue <- numberOrNull value ;;
  recordId <- (Ok entry ·. "record_id" <||> Ok entry ·. "parent_record_id") ;;
  recordName <-
    (if truthy recordId
     then Ok (mapGet recordNameMap recordId) <||> labelled "Record " recordId
     else Ok (JStr "Unknown")) ;;
  stageKey <- (Ok stage <||> Ok (JStr "No Stage")) ;;
  let stageMap' := bumpStage stageKey numValue stageMap in
  id <- (Ok entry ·. "entry_id" <||> Ok entry ·. "id") ;;
  Ok (PipelineEntry.make id recordName stage numValue, stageMap').

Fixpoint shapeEntries (recordNameMap : NameMap) (entryList : list JsVal)
  (stageMap : StageMap) : result (list PipelineEntry.t * StageMap) :=
  match entryList with
  | [] => Ok ([], stageMap)
  | entry :: rest =>
      step <- shapeEntry recordNameMap entry stageMap ;;
      more <- shapeEntries recordNameMap rest (snd step) ;;
      Ok (fst step :: fst more, snd more)
  end.

(** [Array.isArray(entries) ? entries : entries?.data || []], as the
    receiver of [.map]. *)
Definition entryListOf (entries : JsVal) : result (list JsVal) :=
  if isArray entries then asArray entries
  else
    data <- (Ok entries ?. "data" <||> Ok (JArr [])) ;;
    asArray data.

Definition stageSummary (ks : JsVal * StageStats.t) : PipelineStageSummary.t :=
  let s := snd ks in
  PipelineStageSummary.make (fst ks) (StageStats.count s)
    (if StageStats.hasValue s then Some (StageStats.total s) else None).

Definition computePipelineSummary (listId listName : string) (entries : JsVal)
  (recordNameMap : NameMap) : result PipelineSummary.t :=
  entryList <- entryListOf entries ;;
  shaped <- shapeEntries recordNameMap entryList [] ;;
  let shapedEntries := fst shaped in
  let stages := map stageSummary (snd shaped) in
  Ok (PipelineSummary.make listId listName (List.length shapedEntries)
        stages shapedEntries).

(** *** [enrichTasks] *)

Module EnrichedTask.
Record t : Type := make {
  id : JsVal;
  content : JsVal;
  isCompleted : bool;
  deadline : JsVal;
  assignees : list JsVal;
  linkedRecords : list JsVal
}.
End EnrichedTask.

Module TaskGroups.
Record t : Type := make {
  open : list EnrichedTask.t;
  completed : list EnrichedTask.t
}.
End TaskGroups.

Definition assigneeName (memberMap : NameMap) (a : JsVal) : result JsVal :=
  id <- (Ok a ·. "referenced_actor_id" <||> Ok a ·. "id" <||> Ok a) ;;
  Ok (mapGet memberMap id) <||> labelled "User " id.

Definition linkedRecordName (recordNameMap : NameMap) (lr : JsVal)
  : result JsVal :=
  rid <- (Ok lr ·. "record_id" <||> Ok lr ·. "target_record_id") ;;
  Ok (mapGet recordNameMap rid) <||> labelled "Record " rid.

(** The [map] callback that builds [enriched]. *)
Definition enrichTask (memberMap recordNameMap : NameMap) (t : JsVal)
  : result EnrichedTask.t :=
  assigneeList <- (Ok t ·. "assignees" <||> Ok (JArr [])) ;;
  assigneeItems <- asArray assigneeList ;;
  assignees <- mapM (assigneeName memberMap) assigneeItems ;;
  linkedList <- (Ok t ·. "linked_records" <||> Ok (JArr [])) ;;
  linkedItems <- asArray linkedList ;;
  linkedRecords <- mapM (linkedRecordName recordNameMap) linkedItems ;;
  id <- (Ok t ·. "id" ?. "task_id" <||> Ok t ·. "id") ;;
  content <- (Ok t ·. "content_plaintext" <||> Ok t ·. "content" <||> Ok t ·. "title"
              <||> Ok JNull) ;;
  is_completed <- getProp t "is_completed" ;;
  deadline <- (Ok t ·. "deadline" <||> Ok t ·. "due_date" <||> Ok JNull) ;;
  Ok (EnrichedTask.make id content (truthy is_completed) deadline
        assignees linkedRecords).

Definition hasDeadline (t : EnrichedTask.t) : bool :=
  truthy (EnrichedTask.deadline t).

(** The comparator [(a, b) => (a.deadline! < b.deadline! ? -1 : 1)] answers
    "negative" exactly when [a.deadline < b.deadline].  It raises as soon as
    one of the two deadlines has no primitive value, whichever the other is;
    a sort of two or more elements compares each of them at least once, so
    that whether the sort raises does not depend on the comparisons it
    chooses to make. *)
Definition deadlineBefore (a b : EnrichedTask.t) : result bool :=
  lessThan (EnrichedTask.deadline a) (EnrichedTask.deadline b).

(** Everything after [enriched] is built. *)
Definition groupTasks (enriched : list EnrichedTask.t) : result TaskGroups.t :=
  withDeadline <- sortWithM deadlineBefore (filter hasDeadline enriched) ;;
  let noDeadline := filter (fun t => negb (hasDeadline t)) enriched in
  let sorted := withDeadline ++ noDeadline in
  Ok (TaskGroups.make
        (filter (fun t => negb (EnrichedTask.isCompleted t)) sorted)
        (filter (fun t => EnrichedTask.isCompleted t) sorted)).

Definition enrichTasks (tasks : list JsVal) (memberMap recordNameMap : NameMap)
  : result TaskGroups.t :=
  enriched <- mapM (enrichTask memberMap recordNameMap) tasks ;;
  groupTasks enriched.

(** *** [buildActivityTimeline] *)

Inductive EventType : Type :=
| note
| meeting
| thread.

Module TimelineEvent.
Record t : Type := make {
  type : EventType;
  id : JsVal;
  date : JsVal;
  title : JsVal;
  content : JsVal
}.
End TimelineEvent.

Definition noteEvent (n : JsVal) : result TimelineEvent.t :=
  id <- (Ok n ·. "id" ?. "note_id" <||> Ok n ·. "id") ;;
  date <- (Ok n ·. "created_at" <||> Ok JNull) ;;
  title <- (Ok n ·. "title" <||> Ok JNull) ;;
  content <- (Ok n ·. "content_plaintext" <||> Ok n ·. "content" <||> Ok JNull) ;;
  Ok (TimelineEvent.make note id date title content).

Definition meetingEvent (m : JsVal) : result TimelineEvent.t :=
  id <- (Ok m ·. "id" ?. "meeting_id" <||> Ok m ·. "id") ;;
  date <- (Ok m ·. "start_time" <||> Ok m ·. "created_at" <||> Ok JNull) ;;
  title <- (Ok m ·. "title" <||> Ok m ·. "subject" <||> Ok JNull) ;;
  content <- (Ok m ·. "description" <||> Ok JNull) ;;
  Ok (TimelineEvent.make meeting id date title content).

Definition threadEvent (t : JsVal) : result TimelineEvent.t :=
  id <- (Ok t ·. "id" ?. "thread_id" <||> Ok t ·. "id") ;;
  date <- (Ok t ·. "created_at" <||> Ok JNull) ;;
  title <- (Ok t ·. "subject" <||> Ok JNull) ;;
  content <- (Ok t ·. "body_plaintext" <||> Ok t ·. "body" <||> Ok JNull) ;;
  Ok (TimelineEvent.make thread id date title content).

Section Timeline.

(** [String.prototype.localeCompare] under the host's default locale: a
    collation supplied by the runtime (ICU), negative, zero or positive. *)
Variable localeCompare : string -> string -> Z.

(** [b.date.localeCompare(a.date)]: only a string has the method, and the
    argument is converted to a string. *)
Definition callLocaleCompare (receiver argument : JsVal) : result Z :=
  match receiver with
  | JStr s => t <- toStr argument ;; Ok (localeCompare s t)
  | _ => Throw TypeError
  end.

(** The comparator passed to [events.sort]. *)
Definition compareEvents (a b : TimelineEvent.t) : result Z :=
  let da := TimelineEvent.date a in
  let db := TimelineEvent.date b in
  if negb (truthy da) && negb (truthy db) then Ok 0%Z
  else if negb (truthy da) then Ok 1%Z
  else if negb (truthy db) then Ok (-1)%Z
  else callLocaleCompare db da.

Definition eventBefore (a b : TimelineEvent.t) : result bool :=
  c <- compareEvents a b ;; Ok (c <? 0)%Z.

Definition buildActivityTimeline (notes meetings threads : list JsVal)
  : result (list TimelineEvent.t) :=
  fromNotes <- mapM noteEvent notes ;;
  fromMeetings <- mapM meetingEvent meetings ;;
  fromThreads <- mapM threadEvent threads ;;
  sortWithM eventBefore (fromNotes ++ fromMeetings ++ fromThreads).

End Timeline.

End Helpers.
(* ================================================================== *)
(** ** The tool handlers of [index.ts] *)

(** The data path of the handlers, from the responses of the Attio API to
    the object that is serialised into the tool's answer.  An awaited call
    enters as the response it resolved to, or as a rejection; a [Throw] of
    a handler stands for its [catch], which answers [errorResult]. *)
Module Server.

Import Js Helpers.
Local Open Scope js_scope.

Inductive Awaited : Type :=
| Resolved (resp : JsVal)
| Rejected.

(** [(resp.data as any)?.data || resp.data || []] *)
Definition dataOf (resp : JsVal) : result JsVal :=
  Ok resp ·. "data" ?. "data" <||> Ok resp ·. "data" <||> Ok (JArr []).

(** [Array.prototype.some] with a callback that may throw: it stops at the
    first element the callback accepts. *)
Fixpoint someM {A : Type} (f : A -> result bool) (l : list A) : result bool :=
  match l with
  | [] => Ok false
  | a :: rest => found <- f a ;; if found then Ok true else someM f rest
  end.

(** [try { xs = select(await call) } catch { xs = [] }] *)
Definition orNone (call : Awaited) (select : JsVal -> result (list JsVal))
  : list JsVal :=
  match call with
  | Resolved resp =>
      match select resp with
      | Ok xs => xs
      | Throw _ => []
      end
  | Rejected => []
  end.

(** [Array.isArray(all) ? all.filter(keep).slice(0, 10) : []] *)
Definition firstTen (keep : JsVal -> result bool) (all : JsVal)
  : result (list JsVal) :=
  match all with
  | JArr items => kept <- filterM keep items ;; Ok (firstn 10 kept)
  | _ => Ok []
  end.

(** [n.parent_object === objectType && n.parent_record_id === recordId] *)
Definition aboutRecord (objectType recordId : string) (n : JsVal) : result bool :=
  parent <- getProp n "parent_object" ;;
  if strictEq parent (JStr objectType) then
    rid <- getProp n "parent_record_id" ;; Ok (strictEq rid (JStr recordId))
  else Ok false.

(** [r.record_id === recordId || r.target_record_id === recordId] *)
Definition refersTo (recordId : string) (r : JsVal) : result bool :=
  rid <- getProp r "record_id" ;;
  if strictEq rid (JStr recordId) then Ok true
  else target <- getProp r "target_record_id" ;; Ok (strictEq target (JStr recordId)).

(** [r.record_id === recordId] *)
Definition linksTo (recordId : string) (r : JsVal) : result bool :=
  rid <- getProp r "record_id" ;; Ok (strictEq rid (JStr recordId)).

(** [x.<field>?.some(test)] as a [filter] callback: a missing field gives
    [undefined], which filters the element out, and a field that is there
    has to be an array. *)
Definition someOf (field : string) (test : JsVal -> result bool) (x : JsVal)
  : result bool :=
  refs <- getProp x field ;;
  if nullish refs then Ok false
  else items <- asArray refs ;; someM test items.

Definition selectNotes (objectType recordId : string) (resp : JsVal)
  : result (list JsVal) :=
  allNotes <- dataOf resp ;; firstTen (aboutRecord objectType recordId) allNotes.

Definition selectMeetings (recordId : string) (resp : JsVal)
  : result (list JsVal) :=
  allMeetings <- dataOf resp ;;
  firstTen (someOf "associated_records" (refersTo recordId)) allMeetings.

Definition selectThreads (recordId : string) (resp : JsVal)
  : result (list JsVal) :=
  allThreads <- dataOf resp ;;
  firstTen (someOf "linked_records" (linksTo recordId)) allThreads.

(** *** [get_recent_activity] *)

Module Activity.
Record t : Type := make {
  totalEvents : nat;
  timeline : list TimelineEvent.t
}.
End Activity.

Definition get_recent_activity (localeCompare : string -> string -> Z)
  (objectType recordId : string) (notesCall meetingsCall threadsCall : Awaited)
  : result Activity.t :=
  let notes := orNone notesCall (selectNotes objectType recordId) in
  let meetings := orNone meetingsCall (selectMeetings recordId) in
  let threads := orNone threadsCall (selectThreads recordId) in
  timeline <- buildActivityTimeline localeCompare notes meetings threads ;;
  Ok (Activity.make (List.length timeline) timeline).

(** *** [list_tasks] *)

(** ToIntegerOrInfinity *)
Inductive Integral : Type :=
| Finite (z : Z)
| PlusInfinity
| MinusInfinity.

Definition toIntegerOrInfinity (x : number) : Integral :=
  match x with
  | S754_nan | S754_zero _ => Finite 0
  | S754_infinity neg => if neg then MinusInfinity else PlusInfinity
  | S754_finite neg m e =>
      let magnitude :=
        if (0 <=? e)%Z then Z.shiftl (Zpos m) e else Z.shiftr (Zpos m) (- e) in
      Finite (if neg then - magnitude else magnitude)%Z
  end.

(** [l.slice(0, end)]: a negative [end] counts from the end of [l]. *)
Definition sliceTo {A : Type} (l : list A) (endIndex : number) : list A :=
  let len := Z.of_nat (List.length l) in
  let final :=
    match toIntegerOrInfinity endIndex with
    | MinusInfinity => 0%Z
    | PlusInfinity => len
    | Finite z => if (z <? 0)%Z then Z.max (len + z) 0 else Z.min z len
    end in
  firstn (Z.to_nat final) l.

Module TaskList.
Record t : Type := make {
  totalOpen : nat;
  totalCompleted : nat;
  open : list EnrichedTask.t;
  completed : list EnrichedTask.t
}.
End TaskList.

(** The handler once the tasks response and the member map are there.  The
    member map enters as the [Map<string, string>] it is declared to be; the
    record name map the handler passes on is a new, empty one. *)
Definition list_tasks (limit : option number) (tasksResp : JsVal)
  (memberMap : NameMap) : result TaskList.t :=
  tasks <- dataOf tasksResp ;;
  let taskList :=
    match tasks with
    | JArr items =>
        sliceTo items (match limit with
                       | Some n => n
                       | None => JsNumber.ofZ 25
                       end)
    | _ => []
    end in
  groups <- enrichTasks taskList memberMap [] ;;
  Ok (TaskList.make (List.length (TaskGroups.open groups))
        (List.length (TaskGroups.completed groups))
        (TaskGroups.open groups) (TaskGroups.completed groups)).

(** *** [get_record_details] *)

Module Details.
Record t : Type := make {
  name : JsVal;
  flatValues : Flat.t;
  allValues : Values;
  notes : list JsVal;
  entries : JsVal
}.
End Details.

(** [try { entries = (await call).data } catch { }], from [[]]. *)
Definition entriesOr (call : Awaited) : JsVal :=
  match call with
  | Resolved resp =>
      match getProp resp "data" with
      | Ok entries => entries
      | Throw _ => JArr []
      end
  | Rejected => JArr []
  end.

(** [record?.values || {}] *)
Definition valuesOrEmpty (record : JsVal) : result Values :=
  orMapping (optValues record) (Ok (JObj [])).

Definition get_record_details (objectType recordId : string) (recordResp : JsVal)
  (notesCall entriesCall : Awaited) : result Details.t :=
  record <- (Ok recordResp ·. "data" ?. "data" <||> Ok recordResp ·. "data") ;;
  name <- extractRecordName record ;;
  values <- valuesOrEmpty record ;;
  flat <- flattenLocal values ;;
  let notes := orNone notesCall (selectNotes objectType recordId) in
  let entries := entriesOr entriesCall in
  allValues <- valuesOrEmpty record ;;
  Ok (Details.make name flat allValues notes entries).

(** *** Maps under construction *)

(** A [Map] as the list of its entries in insertion order; at most one
    entry per key. *)
Definition JsMap : Type := list (JsVal * JsVal).

Definition mapHas (m : JsMap) (k : JsVal) : bool :=
  existsb (fun kv => sameValueZero (fst kv) k) m.

(** [m.set(k, v)]: the entry of [k] is given the new value where it is, or
    one is added at the end. *)
Fixpoint mapSet (m : JsMap) (k v : JsVal) : JsMap :=
  match m with
  | [] => [(k, v)]
  | (k', v') :: rest =>
      if sameValueZero k' k then (k', v) :: rest
      else (k', v') :: mapSet rest k v
  end.

(** [m.get(k)] *)
Fixpoint mapLookup (m : JsMap) (k : JsVal) : JsVal :=
  match m with
  | [] => JUndefined
  | (k', v) :: rest => if sameValueZero k' k then v else mapLookup rest k
  end.

(** A map that is the [Map<string, string>] it is declared to be. *)
Definition typedMap (names : NameMap) : JsMap :=
  map (fun kv => (JStr (fst kv), JStr (snd kv))) names.

(** *** [fetchWorkspaceMembers] *)

(** One turn of the loop over the members: the id and the name that are
    set. *)
Definition memberEntry (m : JsVal) : result (JsVal * JsVal) :=
  id <- (Ok m ·. "id" ?. "workspace_member_id" <||> Ok m ·. "id") ;;
  name <- (Ok m ·. "name" <||> Ok m ·. "email" <||> labelled "Member " id) ;;
  Ok (id, name).

(** The loop inside [try { ... } catch { }]: an exception ends it, and what
    was set until then stays in the map. *)
Fixpoint collectMembers (members : list JsVal) (memberMap : JsMap) : JsMap :=
  match members with
  | [] => memberMap
  | m :: rest =>
      match memberEntry m with
      | Ok (id, name) => collectMembers rest (mapSet memberMap id name)
      | Throw _ => memberMap
      end
  end.

(** [workspaceMembersApi] is [None] when the SDK has no such API. *)
Definition fetchWorkspaceMembers (workspaceMembersApi : option Awaited) : JsMap :=
  match workspaceMembersApi with
  | Some (Resolved resp) =>
      match dataOf resp with
      | Ok (JArr members) => collectMembers members []
      | _ => []
      end
  | _ => []
  end.

(** *** [get_pipeline]: the list *)

(** [String.prototype.toLowerCase] on code units below 256: the letters
    [A]-[Z] and the accented capitals from U+00C0 to U+00DE, the
    multiplication sign U+00D7 excepted, move up by 32. *)
Definition lowerUnit (c : ascii) : ascii :=
  let n := N_of_ascii c in
  if ((65 <=? n) && (n <=? 90)
      || (192 <=? n) && (n <=? 222) && negb (n =? 215))%N
  then ascii_of_N (n + 32)
  else c.

Fixpoint toLowerCase (s : string) : string :=
  match s with
  | EmptyString => EmptyString
  | String c rest => String (lowerUnit c) (toLowerCase rest)
  end.

Fixpoint startsWith (p s : string) : bool :=
  match p, s with
  | EmptyString, _ => true
  | String a p', String b s' => Ascii.eqb a b && startsWith p' s'
  | String _ _, EmptyString => false
  end.

(** [hay.includes(needle)] *)
Fixpoint includes (needle hay : string) : bool :=
  startsWith needle hay ||
  match hay with
  | EmptyString => false
  | String _ rest => includes needle rest
  end.

(** [name?.toLowerCase().includes(listName.toLowerCase())]: a missing name
    ends the chain with [undefined], and only a string has the method. *)
Definition nameIncludes (listName : string) (name : JsVal) : result JsVal :=
  match name with
  | JUndefined | JNull => Ok JUndefined
  | JStr s => Ok (JBool (includes (toLowerCase listName) (toLowerCase s)))
  | _ => Throw TypeError
  end.

(** The [find] callback. *)
Definition matchesList (listName : string) (l : JsVal) : result bool :=
  id <- (Ok l ·. "id" ?. "list_id" <||> Ok l ·. "id") ;;
  name <- getProp l "name" ;;
  byName <- nameIncludes listName name ;;
  if truthy byName then Ok true else Ok (strictEq id (JStr listName)).

(** [Array.prototype.find] with a callback that may throw. *)
Fixpoint findM {A : Type} (f : A -> result bool) (l : list A)
  : result (option A) :=
  match l with
  | [] => Ok None
  | a :: rest => found <- f a ;; if found then Ok (Some a) else findM f rest
  end.

(** [(Array.isArray(lists) ? lists : []).find(...)] *)
Definition findList (listName : string) (lists : JsVal) : result (option JsVal) :=
  match lists with
  | JArr listArr => findM (matchesList listName) listArr
  | _ => Ok None
  end.

(** *** [get_pipeline]: the record names *)

(** [entry.entry_values || entry.values] *)
Definition entryValuesOrNone (entry : JsVal) : result Values :=
  entry_values <- getProp entry "entry_values" ;;
  if truthy entry_values then Ok (Mapping entry_values) else getValues entry.

(** [extractRecordName({ values: x })]: the record is a literal with the
    one property [values], so that its [attributes] and its [id] are
    [undefined]. *)
Definition extractNameOfValues (x : Values) : result JsVal :=
  values <- orMapping x (Ok JUndefined <||> Ok (JObj [])) ;;
  nameFrom values
    (Ok JUndefined ?. "record_id" <||> Ok JUndefined <||> Ok (JStr "Unknown")).

(** One turn of the loop that fills [recordNameMap]. *)
Definition nameEntry (recordNameMap : JsMap) (entry : JsVal) : result JsMap :=
  rid <- (Ok entry ·. "record_id" <||> Ok entry ·. "parent_record_id") ;;
  if truthy rid && negb (mapHas recordNameMap rid) then
    values <- entryValuesOrNone entry ;;
    name <- extractNameOfValues values ;;
    if negb (strictEq name (JStr "Unknown"))
    then Ok (mapSet recordNameMap rid name)
    else Ok recordNameMap
  else Ok recordNameMap.

Fixpoint nameEntries (entryList : list JsVal) (recordNameMap : JsMap)
  : result JsMap :=
  match entryList with
  | [] => Ok recordNameMap
  | entry :: rest =>
      m <- nameEntry recordNameMap entry ;; nameEntries rest m
  end.

(** [Array.isArray(entries) ? entries : []], and the loop over it. *)
Definition recordNamesOf (entries : JsVal) : result JsMap :=
  match entries with
  | JArr entryList => nameEntries entryList []
  | _ => Ok []
  end.

End Server.
(* ================================================================== *)
(** ** The specification's vocabulary *)

Module Spec.

Import Js Helpers.
Local Open Scope js_scope.

(** *** Values without a primitive value *)

(** An object with an own property named [toString], or an array that holds
    one at any depth: the values that cannot be converted to a string or to
    a number. *)
Fixpoint unprintable (v : JsVal) : bool :=
  match v with
  | JObj props => hasOwn "toString" props
  | JArr items =>
      (fix any (l : list JsVal) : bool :=
         match l with
         | [] => false
         | x :: rest => unprintable x || any rest
         end) items
  | _ => false
  end.

Definition printable (v : JsVal) : bool := negb (unprintable v).

(** The text and the number of a value that has them. *)
Definition textOf (v : JsVal) : string :=
  match toStr v with
  | Ok s => s
  | Throw _ => ""
  end.

Definition numberOf (v : JsVal) : number :=
  match toNumber v with
  | Ok x => x
  | Throw _ => JsNumber.NaN
  end.

(** *** Records and their names *)

(** The values mapping of a record: its [values], else its [attributes],
    else the empty mapping. *)
Definition attributeValues (record : JsVal) : Values :=
  if truthyValues (optValues record) then optValues record
  else if truthy (optProp record "attributes")
       then Mapping (optProp record "attributes")
       else Mapping (JObj []).

(** The primary (first) value stored under an attribute key. *)
Definition primaryValue (values : Values) (key : string) : JsVal :=
  optProp (readField values key) "0".

(** The value a record's name is read from: the primary value of [name],
    else that of [primary_name]. *)
Definition nameValue (record : JsVal) : JsVal :=
  let values := attributeValues record in
  if truthy (primaryValue values "name") then primaryValue values "name"
  else primaryValue values "primary_name".

(** A name part as the template literal prints it: a missing part prints
    as nothing. *)
Definition partText (part : JsVal) : result string :=
  if truthy part then toStr part else Ok "".

(** ["${first} ${last}".trim()] over the parts of a personal name. *)
Definition personalName (x : JsVal) : result string :=
  first <- partText (readProp x "first_name") ;;
  last <- partText (readProp x "last_name") ;;
  Ok (JsString.trim (first ++ " " ++ last)).

(** A string that [trim] leaves as it is. *)
Definition trimmed (s : string) : Prop := JsString.trim s = s.

(** A key "whose array is empty or missing". *)
Definition emptyOrMissing (arr : JsVal) : bool :=
  match arr with
  | JArr (_ :: _) => false
  | _ => true
  end.

(** An attribute value: not [null] or [undefined], and, where it is a
    personal name with an empty full name, one whose first and last name have
    a text. *)
Definition attributeValue (first : JsVal) : bool :=
  negb (nullish first) &&
  (negb (defined (readProp first "full_name"))
   || truthy (readProp first "full_name")
   || printable (readProp first "first_name")
      && printable (readProp first "last_name")).

(** A mapping entry whose array, when it has elements, starts with an
    attribute value. *)
Definition wellHeaded (entry : string * JsVal) : bool :=
  match snd entry with
  | JArr (first :: _) => attributeValue first
  | _ => true
  end.

(** The entries [flattenValues] goes through for a helper's [values]. *)
Definition looped (values : Values) : list (string * JsVal) :=
  match values with
  | Mapping v => entriesOf v
  | ArrayValues => []
  end.

(** The attribute keys [extractRecordName] looks under. *)
Definition nameKeys : list string :=
  ["name"; "primary_name"; "title"; "company_name"; "deal_name"; "company"].

(** The fields of a name value that it turns into text. *)
Definition coercedFields : list string := ["first_name"; "last_name"; "value"].

(** Text that [trim] empties. *)
Definition blank (s : string) : Prop := JsString.trim s = "".

(** The name values of the record have fields that can be printed. *)
Definition nameable (record : JsVal) : bool :=
  forallb (fun key =>
             forallb (fun field =>
                        printable (readProp (primaryValue (attributeValues record) key)
                                            field))
                     coercedFields)
          nameKeys.

(** A field that, when present, prints as more than whitespace. *)
Definition legible (part : JsVal) : Prop :=
  truthy part = true -> exists s, toStr part = Ok s /\ ~ blank s.

Definition legibleNames (record : JsVal) : Prop :=
  forall key field : string,
    In key nameKeys -> In field coercedFields ->
    legible (readProp (primaryValue (attributeValues record) key) field).

(** A field that is a string when it is there. *)
Definition textual (v : JsVal) : Prop := truthy v = true -> isString v = true.

(** The full names and the id of the record are strings, as the data model
    has them. *)
Definition textualNames (record : JsVal) : Prop :=
  (forall key : string,
      In key nameKeys ->
      textual (readProp (primaryValue (attributeValues record) key) "full_name"))
  /\ textual (optProp (optProp record "id") "record_id")
  /\ textual (optProp record "id").

(** *** Shaped records *)

(** The type tag [v] is the string [t]. *)
Definition tagIs (v : JsVal) (t : string) : bool :=
  match v with
  | JStr s => String.eqb s t
  | _ => false
  end.

(** The record's own type tag or its parent type tag equals the filter. *)
Definition hasTypeTag (t : string) (r : JsVal) : bool :=
  tagIs (readProp r "object") t || tagIs (readProp r "parent_object") t.

(** A raw record: not [null] or [undefined], with a values mapping whose
    arrays start with attribute values, and with name values that can be
    printed. *)
Definition rawRecord (r : JsVal) : bool :=
  negb (nullish r)
  && forallb wellHeaded (looped (attributeValues r))
  && nameable r.

(** *** Pipeline entries *)

(** The values mapping of a pipeline entry. *)
Definition entryValues (entry : JsVal) : Values :=
  if truthy (readProp entry "entry_values")
  then Mapping (readProp entry "entry_values")
  else if truthyValues (readValues entry) then readValues entry
       else Mapping (JObj []).

(** Stage resolution: status title, else option title, else the raw value,
    else absent. *)
Definition stageOf (entry : JsVal) : JsVal :=
  let stageVal := primaryValue (entryValues entry) "stage" in
  let statusTitle := readProp (readProp stageVal "status") "title" in
  let optionTitle := readProp (readProp stageVal "option") "title" in
  let raw := readProp stageVal "value" in
  if truthy statusTitle then statusTitle
  else if truthy optionTitle then optionTitle
  else if truthy raw then raw
  else JNull.

(** The attribute value the amount is read from: the first truthy primary
    value of [value], [amount], [deal_value]. *)
Definition amountValue (entry : JsVal) : JsVal :=
  let values := entryValues entry in
  if truthy (primaryValue values "value") then primaryValue values "value"
  else if truthy (primaryValue values "amount") then primaryValue values "amount"
  else primaryValue values "deal_value".

(** The amount before coercion: the currency amount when there is one,
    else the generic value when there is one, else nothing. *)
Definition rawAmount (entry : JsVal) : option JsVal :=
  let x := amountValue entry in
  if negb (nullish (readProp x "currency_value"))
  then Some (readProp x "currency_value")
  else if negb (nullish (readProp x "value")) then Some (readProp x "value")
  else None.

(** The entry's value: absent stays absent ([null]), anything else goes
    through [Number]. *)
Definition resolvedValue (entry : JsVal) : option number :=
  option_map numberOf (rawAmount entry).

(** The record an entry stands for: its [record_id], else its
    [parent_record_id]. *)
Definition recordIdOf (entry : JsVal) : JsVal :=
  if truthy (readProp entry "record_id") then readProp entry "record_id"
  else readProp entry "parent_record_id".

(** A raw entry: not [null] or [undefined], with an amount and a record id
    that can be converted to a number and to a string. *)
Definition rawEntry (entry : JsVal) : bool :=
  negb (nullish entry)
  && match rawAmount entry with
     | Some amount => printable amount
     | None => true
     end
  && printable (recordIdOf entry).

(** The stage an entry is counted under. *)
Definition stageLabel (e : PipelineEntry.t) : JsVal :=
  if truthy (PipelineEntry.stage e) then PipelineEntry.stage e
  else JStr "No Stage".

Definition inStage (k : JsVal) (e : PipelineEntry.t) : bool :=
  sameValueZero k (stageLabel e).

(** The entries of a stage that contributed a value. *)
Definition contributed (e : PipelineEntry.t) : bool :=
  match PipelineEntry.value e with Some _ => true | None => false end.

(** The entries that contributed a numeric value: a number, not [NaN]. *)
Definition numeric (e : PipelineEntry.t) : bool :=
  match PipelineEntry.value e with
  | Some x => negb (JsNumber.isNaN x)
  | None => false
  end.

(** The sum the code keeps per stage: from [0], in entry order. *)
Definition runningTotal (members : list PipelineEntry.t) : number :=
  fold_left (fun acc e => match PipelineEntry.value e with
                          | Some x => JsNumber.add acc x
                          | None => acc
                          end) members JsNumber.posZero.

(** The summary of stage [k] over the shaped entries. *)
Definition stageSummaryOf (k : JsVal) (es : list PipelineEntry.t)
  : PipelineStageSummary.t :=
  let members := filter (inStage k) es in
  PipelineStageSummary.make k (List.length members)
    (if existsb contributed members then Some (runningTotal members) else None).

(** The stage label is text, as the interface declares it. *)
Definition textStage (e : PipelineEntry.t) : Prop :=
  isString (stageLabel e) = true.

(** *** Tasks *)

(** A list-valued field: absent (falsy) stands for the empty list, and
    anything else has to be an array. *)
Definition listField (v : JsVal) : option (list JsVal) :=
  if truthy v then match v with JArr items => Some items | _ => None end
  else Some [].

Definition present (v : JsVal) : bool := negb (nullish v).

(** The id an assignee reference stands for: its [referenced_actor_id], else
    its [id], else the reference itself. *)
Definition actorIdOf (a : JsVal) : JsVal :=
  if truthy (readProp a "referenced_actor_id") then readProp a "referenced_actor_id"
  else if truthy (readProp a "id") then readProp a "id"
  else a.

(** The id a linked record reference stands for. *)
Definition linkedIdOf (lr : JsVal) : JsVal :=
  if truthy (readProp lr "record_id") then readProp lr "record_id"
  else readProp lr "target_record_id".

Definition deadlineOf (t : JsVal) : JsVal :=
  if truthy (readProp t "deadline") then readProp t "deadline"
  else if truthy (readProp t "due_date") then readProp t "due_date"
  else JNull.

(** A reference that can be shown: not [null] or [undefined], and with an
    id that can be printed. *)
Definition shows (idOf : JsVal -> JsVal) (reference : JsVal) : bool :=
  present reference && printable (idOf reference).

(** A task that can be enriched: not [null] or [undefined], its assignees
    and linked records lists of references that can be shown. *)
Definition enrichable (t : JsVal) : bool :=
  present t &&
  match listField (readProp t "assignees"),
        listField (readProp t "linked_records") with
  | Some assignees, Some linked =>
      forallb (shows actorIdOf) assignees && forallb (shows linkedIdOf) linked
  | _, _ => false
  end.

(** A raw task: one that can be enriched, with a deadline that can be
    compared. *)
Definition rawTask (t : JsVal) : bool :=
  enrichable t && printable (deadlineOf t).

Definition isOpen (t : EnrichedTask.t) : bool := negb (EnrichedTask.isCompleted t).

Definition noDeadline (t : EnrichedTask.t) : bool := negb (hasDeadline t).

(** [a.deadline < b.deadline], where the comparison returns. *)
Definition dueBefore (a b : EnrichedTask.t) : bool :=
  match deadlineBefore a b with
  | Ok before => before
  | Throw _ => false
  end.

(** The deadline rule: the tasks with a deadline first, ascending, then the
    tasks without one in their original relative order. *)
Definition deadlineOrder (l : list EnrichedTask.t) : list EnrichedTask.t :=
  sortWith dueBefore (filter hasDeadline l) ++ filter noDeadline l.

(** Sort the full set once, then split by completion flag. *)
Definition sortThenPartition (l : list EnrichedTask.t) : TaskGroups.t :=
  TaskGroups.make (filter isOpen (deadlineOrder l))
                  (filter EnrichedTask.isCompleted (deadlineOrder l)).

(** Partition first, then sort each partition. *)
Definition partitionThenSort (l : list EnrichedTask.t) : TaskGroups.t :=
  TaskGroups.make (deadlineOrder (filter isOpen l))
                  (deadlineOrder (filter EnrichedTask.isCompleted l)).

(** The deadline is an ISO date string or [null], as the interface
    declares it. *)
Definition textDeadline (t : EnrichedTask.t) : Prop :=
  match EnrichedTask.deadline t with
  | JStr _ | JNull => True
  | _ => False
  end.

(** [a]'s deadline is not after [b]'s. *)
Definition deadlineNotAfter (a b : EnrichedTask.t) : Prop :=
  dueBefore b a = false.

(** *** The timeline *)

(** The normalised events, in input order: notes, meetings, threads. *)
Definition normalised (notes meetings threads : list JsVal)
  : result (list TimelineEvent.t) :=
  fromNotes <- mapM noteEvent notes ;;
  fromMeetings <- mapM meetingEvent meetings ;;
  fromThreads <- mapM threadEvent threads ;;
  Ok (fromNotes ++ fromMeetings ++ fromThreads).

Definition hasDate (e : TimelineEvent.t) : bool := truthy (TimelineEvent.date e).

Definition dateText (e : TimelineEvent.t) : string :=
  match TimelineEvent.date e with
  | JStr s => s
  | _ => ""
  end.

(** The date is an ISO string or [null], as the interface declares it. *)
Definition textDate (e : TimelineEvent.t) : Prop :=
  match TimelineEvent.date e with
  | JStr _ | JNull => True
  | _ => False
  end.

(** What a collation has to be for a sort by it to mean something: "ranked
    before" is asymmetric, and a string that is not ranked after another is
    ranked before whatever that one is ranked before. *)
Definition ranks (localeCompare : string -> string -> Z) : Prop :=
  (forall s t, (localeCompare s t <? 0)%Z = true ->
               (localeCompare t s <? 0)%Z = false)
  /\ (forall s t u, (localeCompare s t <? 0)%Z = true ->
                    (localeCompare s u <? 0)%Z = false ->
                    (localeCompare u t <? 0)%Z = true).

(** The collation orders the dates of [events] as the lexical (code unit)
    order does, which is the case for timestamps of one format, which differ
    in their digits only. *)
Definition lexicalOn (localeCompare : string -> string -> Z)
  (events : list TimelineEvent.t) : Prop :=
  forall a b, In a events -> In b events ->
              hasDate a = true -> hasDate b = true ->
              (localeCompare (dateText a) (dateText b) <? 0)%Z
              = String.ltb (dateText a) (dateText b).

(** [a] may stand before [b]: when [b] has a date, so has [a]. *)
Definition datedFirst (a b : TimelineEvent.t) : Prop :=
  hasDate b = true -> hasDate a = true.

(** [a] may stand before [b]: of two dates, [a]'s is not the one the
    collation ranks first. *)
Definition rankedLaterFirst (localeCompare : string -> string -> Z)
  (a b : TimelineEvent.t) : Prop :=
  hasDate a = true -> hasDate b = true ->
  (localeCompare (dateText a) (dateText b) <? 0)%Z = false.

(** [a] may stand before [b]: of two dates, [a]'s is not the lexically
    smaller. *)
Definition laterFirst (a b : TimelineEvent.t) : Prop :=
  hasDate a = true -> hasDate b = true ->
  String.ltb (dateText a) (dateText b) = false.

(** What the comparator's answer "negative" comes to under a collation. *)
Definition beforeUnder (localeCompare : string -> string -> Z)
  (a b : TimelineEvent.t) : bool :=
  hasDate a && (negb (hasDate b)
              || (localeCompare (dateText b) (dateText a) <? 0)%Z).

End Spec.
(* ================================================================== *)
(** ** Sample data: the inputs of the unit tests *)

Module Samples.

Import Js.

Definition aliceName : JsVal :=
  JObj [("full_name", JStr "Alice Smith"); ("first_name", JStr "Alice");
        ("last_name", JStr "Smith")].

Definition bobBlankFull : JsVal :=
  JObj [("full_name", JStr ""); ("first_name", JStr "Bob"); ("last_name", JStr "J")].

Definition bobNoFull : JsVal :=
  JObj [("first_name", JStr "Bob"); ("last_name", JStr "Jones")].

Definition named (nameVal : JsVal) : list (string * JsVal) :=
  [("name", JArr [nameVal])].

Definition recordOf (values : list (string * JsVal)) : JsVal :=
  JObj [("values", JObj values)].

Definition alice : JsVal :=
  JObj [("id", JObj [("record_id", JStr "r1")]); ("object", JStr "people");
        ("values", JObj [("name", JArr [JObj [("full_name", JStr "Alice Smith")]]);
                         ("email_addresses",
                          JArr [JObj [("email_address", JStr "alice@co.com")]]);
                         ("company", JArr [JObj [("full_name", JStr "Acme")]])])].

Definition widget : JsVal :=
  JObj [("id", JObj [("record_id", JStr "r2")]); ("object", JStr "companies");
        ("values", JObj [("name", JArr [JObj [("value", JStr "Widget Inc")]])])].

Definition aliceNote : JsVal :=
  JObj [("id", JObj [("record_id", JStr "r3")]); ("parent_object", JStr "people");
        ("values", JObj [])].

Definition num (z : Z) : JsVal := JNum (JsNumber.ofZ z).

(** A pipeline entry in stage [stage] whose [value] attribute holds [v]. *)
Definition entryWith (id stage : string) (v : list (string * JsVal)) : JsVal :=
  JObj [("entry_id", JStr id); ("record_id", JStr "r1");
        ("entry_values",
         JObj [("stage", JArr [JObj [("status", JObj [("title", JStr stage)])]]);
               ("value", JArr [JObj v])])].

(** A pipeline entry in stage [stage] with no value attribute. *)
Definition entryWithout (id stage : string) : JsVal :=
  JObj [("entry_id", JStr id); ("record_id", JStr "r1");
        ("entry_values",
         JObj [("stage", JArr [JObj [("status", JObj [("title", JStr stage)])]])])].

Definition fiveThousandAndZero : list JsVal :=
  [entryWith "e1" "New" [("currency_value", num 5000)];
   entryWith "e2" "New" [("currency_value", num 0)]].

Definition noValues : list JsVal :=
  [entryWithout "e1" "New"; entryWithout "e2" "New"].

Definition fiveThousandAndText : list JsVal :=
  [entryWith "e1" "New" [("currency_value", num 5000)];
   entryWith "e2" "New" [("value", JStr "abc")]].

Definition task (id content : string) (completed : bool) (deadline : JsVal)
  : JsVal :=
  JObj [("id", JObj [("task_id", JStr id)]); ("content_plaintext", JStr content);
        ("is_completed", JBool completed); ("deadline", deadline);
        ("assignees", JArr []); ("linked_records", JArr [])].

(** Deadlines [2026-02-15, 2026-02-10, null], completion
    [false, true, false]. *)
Definition threeTasks : list JsVal :=
  [task "t1" "Follow up with Acme" false (JStr "2026-02-15");
   task "t2" "Send proposal" true (JStr "2026-02-10");
   task "t3" "No deadline task" false JNull].

Definition aNote : JsVal :=
  JObj [("id", JObj [("note_id", JStr "n1")]); ("created_at", JStr "2026-02-05");
        ("title", JStr "Meeting notes"); ("content_plaintext", JStr "Discussed roadmap")].

Definition aMeeting : JsVal :=
  JObj [("id", JObj [("meeting_id", JStr "m1")]); ("start_time", JStr "2026-02-06");
        ("title", JStr "Strategy call"); ("description", JStr "Q1 planning")].

Definition aThread : JsVal :=
  JObj [("id", JObj [("thread_id", JStr "th1")]); ("created_at", JStr "2026-02-04");
        ("subject", JStr "Re: Proposal"); ("body_plaintext", JStr "Thanks")].

Definition anUndatedNote : JsVal :=
  JObj [("id", JStr "n99"); ("created_at", JNull); ("title", JStr "No date")].

Definition sampleDates : list string := ["2026-02-05"; "2026-02-06"; "2026-02-04"].

(** An object as [JSON.parse] builds it from [{"toString": 1}]. *)
Definition noText : JsVal := JObj [("toString", num 1)].

(** Ten o'clock in Paris and, six hours later, ten o'clock in New York:
    two ISO 8601 timestamps that differ in the sign of the offset. *)
Definition parisNote : JsVal :=
  JObj [("id", JStr "n1"); ("created_at", JStr "2026-02-05T10:00:00+01:00")].

Definition newYorkMeeting : JsVal :=
  JObj [("id", JStr "m1"); ("start_time", JStr "2026-02-05T10:00:00-05:00")].

End Samples.

(* ================================================================== *)
(** ** Fixtures of the repository's unit tests *)

Module Fixtures.

Import Js Helpers Samples.
Local Open Scope js_scope.


(** [{ values: { <key>: [<first>] } }] *)
Definition valued (key : string) (first : JsVal) : JsVal :=
  recordOf [(key, JArr [first])].

(** [flattenValues({ <key>: [<first>] }).<key>] *)
Definition flattened (key : string) (first : JsVal) : result JsVal :=
  flat <- flattenValues (JObj [(key, JArr [first])]) ;;
  Ok (orUndefined (assoc key (Flat.own flat))).

Definition entryOf (id record : string) (values : list (string * JsVal)) : JsVal :=
  JObj [("entry_id", JStr id); ("record_id", JStr record);
        ("entry_values", JObj values)].

Definition statusStage (title : string) : string * JsVal :=
  ("stage", JArr [JObj [("status", JObj [("title", JStr title)])]]).

Definition currency (key : string) (amount : Z) : string * JsVal :=
  (key, JArr [JObj [("currency_value", num amount)]]).

Definition threeEntries : JsVal :=
  JArr [entryOf "e1" "r1" [statusStage "Qualified"; currency "value" 50000];
        entryOf "e2" "r2" [statusStage "Qualified"; currency "value" 30000];
        entryOf "e3" "r3" [statusStage "Proposal"; currency "value" 100000]].

Definition dealNames : NameMap :=
  [("r1", "Acme Deal"); ("r2", "Widget Deal"); ("r3", "Big Corp Deal")].

Definition stagesOf (r : result PipelineSummary.t)
  : result (list (JsVal * nat * option number)) :=
  p <- r ;;
  Ok (map (fun s => (PipelineStageSummary.stage s, PipelineStageSummary.count s,
                     PipelineStageSummary.totalValue s))
          (PipelineSummary.stages p)).

Definition entriesOfSummary (r : result PipelineSummary.t)
  : result (list (JsVal * JsVal * option number)) :=
  p <- r ;;
  Ok (map (fun e => (PipelineEntry.recordName e, PipelineEntry.stage e,
                     PipelineEntry.value e))
          (PipelineSummary.entries p)).

Definition testTasks : list JsVal :=
  [JObj [("id", JObj [("task_id", JStr "t1")]);
         ("content_plaintext", JStr "Follow up with Acme");
         ("is_completed", JBool false); ("deadline", JStr "2026-02-15");
         ("assignees", JArr [JObj [("referenced_actor_id", JStr "m1")]]);
         ("linked_records", JArr [JObj [("record_id", JStr "r1")]])];
   JObj [("id", JObj [("task_id", JStr "t2")]);
         ("content_plaintext", JStr "Send proposal");
         ("is_completed", JBool true); ("deadline", JStr "2026-02-10");
         ("assignees", JArr [JObj [("referenced_actor_id", JStr "m2")]]);
         ("linked_records", JArr [])];
   JObj [("id", JObj [("task_id", JStr "t3")]);
         ("content_plaintext", JStr "No deadline task");
         ("is_completed", JBool false); ("deadline", JNull);
         ("assignees", JArr []); ("linked_records", JArr [])]].

Definition members : NameMap := [("m1", "Alice Smith"); ("m2", "Bob Jones")].
Definition recordNames : NameMap := [("r1", "Acme Corp")].

(** What the tests read off the first open task. *)
Definition firstOpen {A : Type} (field : EnrichedTask.t -> A)
  (r : result TaskGroups.t) : result (option A) :=
  g <- r ;; Ok (option_map field (hd_error (TaskGroups.open g))).

Definition simpleTask (fields : list (string * JsVal)) : JsVal :=
  JObj (fields ++ [("is_completed", JBool false)]).

Definition testNotes : list JsVal :=
  [JObj [("id", JObj [("note_id", JStr "n1")]);
         ("created_at", JStr "2026-02-05T10:00:00Z");
         ("title", JStr "Meeting notes");
         ("content_plaintext", JStr "Discussed roadmap")];
   JObj [("id", JObj [("note_id", JStr "n2")]);
         ("created_at", JStr "2026-02-01T09:00:00Z");
         ("title", JNull); ("content", JStr "Quick note")]].

Definition testMeetings : list JsVal :=
  [JObj [("id", JObj [("meeting_id", JStr "m1")]);
         ("start_time", JStr "2026-02-06T14:00:00Z");
         ("title", JStr "Strategy call"); ("description", JStr "Q1 planning")]].

Definition testThreads : list JsVal :=
  [JObj [("id", JObj [("thread_id", JStr "th1")]);
         ("created_at", JStr "2026-02-04T08:00:00Z");
         ("subject", JStr "Re: Proposal");
         ("body_plaintext", JStr "Thanks for the update")]].

(** The timeline under the collation of the runtime. *)
Definition timeline (notes meetings threads : list JsVal)
  : result (list TimelineEvent.t) :=
  buildActivityTimeline Icu.localeCompare notes meetings threads.

Definition eventsRead {A : Type} (field : TimelineEvent.t -> A)
  (r : result (list TimelineEvent.t)) : result (list A) :=
  out <- r ;; Ok (map field out).

End Fixtures.

(* ================================================================== *)
(** ** Definitions the proofs are stated with *)

Module Aux.

Import Js Helpers Spec.
Local Open Scope js_scope.

(** The elements of an array as [Array.prototype.join] prints them, and
    their join. *)
Definition element (x : JsVal) : result string :=
  if nullish x then Ok "" else toStr x.

Fixpoint join (l : list JsVal) : result string :=
  match l with
  | [] => Ok ""
  | x :: rest =>
      match rest with
      | [] => element x
      | _ :: _ =>
          s <- element x ;; joined <- join rest ;;
          Ok (s ++ "," ++ joined)%string
      end
  end.

(** The string has a character that is not whitespace. *)
Fixpoint hasInk (s : string) : bool :=
  match s with
  | EmptyString => false
  | String c rest => negb (JsString.isWhiteSpace c) || hasInk rest
  end.

(** The string does not start with whitespace. *)
Definition inkFirst (s : string) : Prop :=
  match s with
  | EmptyString => True
  | String c _ => JsString.isWhiteSpace c = false
  end.

(** The computation returns, with a value in [P]. *)
Definition Yields (P : JsVal -> Prop) (e : result JsVal) : Prop := exists v, e = Ok v /\ P v.

(** The conversion returns, with a string in [P]. *)
Definition Text (P : JsVal -> Prop) (e : result string) : Prop :=
  exists s, e = Ok s /\ P (JStr s).

(** What the resolver may return of a name value [x]: its full name, the
    name composed of its parts, the text of its value. *)
Definition Fields (P : JsVal -> Prop) (x : JsVal) : Prop :=
  (truthy (readProp x "full_name") = true -> P (readProp x "full_name")) /\
  (truthy (readProp x "first_name") = true \/
   truthy (readProp x "last_name") = true -> Text P (personalName x)) /\
  (truthy (readProp x "value") = true -> Text P (toStr (readProp x "value"))).

(** The block does not throw, and what it returns is in [P]. *)
Definition Block (P : JsVal -> Prop) (b : result Returned) : Prop :=
  match b with
  | Ok (Some v) => P v
  | Ok None => True
  | Throw _ => False
  end.

(** The stage map after a run of entries. *)
Definition tally (es : list PipelineEntry.t) (stageMap : StageMap) : StageMap :=
  fold_left (fun m e => bumpStage (stageLabel e) (PipelineEntry.value e) m)
    es stageMap.

(** The stats [stageMap.get(k)] finds, a fresh record when there are none. *)
Fixpoint statsAt (k : JsVal) (m : StageMap) : StageStats.t :=
  match m with
  | [] => freshStats
  | (k', s) :: rest => if sameValueZero k' k then s else statsAt k rest
  end.

(** The stats after the entries [members] were accumulated into [s]. *)
Definition accumulated (members : list PipelineEntry.t) (s : StageStats.t)
  : StageStats.t :=
  fold_left (fun s e => accumulate (PipelineEntry.value e) s) members s.

(** Every key of the stage map is a string. *)
Definition textKeys (m : StageMap) : Prop :=
  Forall (fun ks => isString (fst ks) = true) m.

(** The task's deadline can be compared: it has a primitive value. *)
Definition comparable (t : EnrichedTask.t) : bool :=
  printable (EnrichedTask.deadline t).

(** The task's deadline is a string. *)
Definition datedTask (t : EnrichedTask.t) : Prop :=
  exists s, EnrichedTask.deadline t = JStr s.

(** The comparator under a collation that agrees with the lexical order. *)
Definition beforeLexical : TimelineEvent.t -> TimelineEvent.t -> bool :=
  beforeUnder (fun s t => if String.ltb s t then (-1)%Z else 0%Z).

(** Under the question [lt], [a] does not come after [b]. *)
Definition notAfter {A : Type} (lt : A -> A -> bool) (a b : A) : Prop :=
  lt b a = false.

End Aux.

(* ================================================================== *)
(** ** Vocabulary: the flattener *)

Module FlattenNotions.
Import Js Helpers Spec.
Local Open Scope js_scope.

(** The first element of an attribute's array, when it has one. *)
Definition headOf (arr : JsVal) : option JsVal :=
  match arr with
  | JArr (first :: _) => Some first
  | _ => None
  end.

(** The fields by which [flattenValues] tells the kinds of attribute value
    apart, in the order it probes them. *)
Definition markerFields : list string :=
  ["full_name"; "email_address"; "phone_number"; "currency_value"; "status";
   "target_record_id"; "option"; "value"].

(** An attribute value of no kind the flattener knows: a primitive, or an
    object without any of the marker fields. *)
Definition unrecognised (first : JsVal) : bool :=
  negb (nullish first) &&
  forallb (fun field => isUndefined (readProp first field)) markerFields.

(** A key under which the flat object gets a property of its own. *)
Definition ownKey (key : string) : bool := negb (key =? "__proto__")%string.

(** What an attribute's array flattens to, where the flattener returns. *)
Definition flatValue (arr : JsVal) : JsVal :=
  match flattenEntry arr with
  | Ok v => v
  | Throw _ => JUndefined
  end.

(** The flat object after the assignments of a run of entries. *)
Definition assignAll (entries : list (string * JsVal)) (flat : Flat.t) : Flat.t :=
  fold_left (fun f e => assign f (fst e) (flatValue (snd e))) entries flat.

End FlattenNotions.

(* ================================================================== *)
(** ** Vocabulary: record names *)

Module NameNotions.
Import Js Helpers Spec.
Local Open Scope js_scope.

(** The value a record's title is read from: the primary value of [title],
    else that of [company_name], else that of [deal_name]. *)
Definition titleValue (record : JsVal) : JsVal :=
  let values := attributeValues record in
  if truthy (primaryValue values "title") then primaryValue values "title"
  else if truthy (primaryValue values "company_name")
       then primaryValue values "company_name"
       else primaryValue values "deal_name".

(** The fields of an attribute value a name can be read from. *)
Definition nameFields : list string :=
  ["full_name"; "first_name"; "last_name"; "value"].

(** An attribute value that carries no name: it is falsy, or it is not a
    string and none of its name fields is truthy. *)
Definition nameless (x : JsVal) : bool :=
  negb (truthy x) ||
  negb (isString x) &&
  forallb (fun field => negb (truthy (readProp x field))) nameFields.

(** The record's id: its [record_id] when it has one, else the id as it
    stands, else the sentinel. *)
Definition idOrUnknown (record : JsVal) : JsVal :=
  let id := optProp record "id" in
  if truthy (optProp id "record_id") then optProp id "record_id"
  else if truthy id then id
  else JStr "Unknown".

End NameNotions.

(* ================================================================== *)
(** ** Vocabulary: shaped records *)

Module ShapeNotions.
Import Js Helpers Spec.
Local Open Scope js_scope.

(** A field that is [null] when there is nothing to show: never
    [undefined], an empty string, [0] or [false]. *)
Definition nullOrTruthy (v : JsVal) : Prop := v = JNull \/ truthy v = true.

(** The type a shaped record is given: the record's own tag, else its parent
    tag, else the filter, else [null]. *)
Definition typeTagOf (objectType r : JsVal) : JsVal :=
  if truthy (readProp r "object") then readProp r "object"
  else if truthy (readProp r "parent_object") then readProp r "parent_object"
  else if truthy objectType then objectType
  else JNull.

(** A record the [map] callback cannot shape: it is [null] or [undefined],
    or resolving its name raises, or an array of its values mapping does
    not start with an attribute value. *)
Definition unshapable (r : JsVal) : Prop :=
  nullish r = true
  \/ extractRecordName r = Throw TypeError
  \/ Exists (fun entry => wellHeaded entry = false) (looped (attributeValues r)).

End ShapeNotions.

(* ================================================================== *)
(** ** Vocabulary: pipeline entries *)

Module PipelineNotions.
Import Js Helpers Spec.
Local Open Scope js_scope.

(** How an id is shown: under the name the map has for it, or, when the map
    has none (or an empty one), as the prefix followed by the id. *)
Definition shownAs (prefix : string) (names : NameMap) (id : JsVal) : JsVal :=
  if truthy (mapGet names id) then mapGet names id
  else JStr (prefix ++ textOf id).

Definition recordNameOf (names : NameMap) (entry : JsVal) : JsVal :=
  if truthy (recordIdOf entry) then shownAs "Record " names (recordIdOf entry)
  else JStr "Unknown".

(** The entry's own id: its [entry_id], else its [id]. *)
Definition entryIdOf (entry : JsVal) : JsVal :=
  if truthy (readProp entry "entry_id") then readProp entry "entry_id"
  else readProp entry "id".

(** The shaped form of one pipeline entry. *)
Definition shapedEntry (names : NameMap) (entry : JsVal) : PipelineEntry.t :=
  PipelineEntry.make (entryIdOf entry) (recordNameOf names entry)
    (stageOf entry) (resolvedValue entry).

(** The labels in order of first appearance, each once; two labels are the
    same when [Map] takes them for the same key. *)
Definition seenBefore (seen : list JsVal) (k : JsVal) : bool :=
  existsb (fun k' => sameValueZero k' k) seen.

Definition firstSeen (labels : list JsVal) : list JsVal :=
  fold_left (fun seen k => if seenBefore seen k then seen else seen ++ [k])
    labels [].

(** A non-empty string. *)
Definition isText (v : JsVal) : Prop := exists s, v = JStr s /\ s <> "".

(** What the tests of the summary look at that does not involve names. *)
Definition unlabelledView (p : PipelineSummary.t)
  : nat * list PipelineStageSummary.t * list (JsVal * JsVal * option number) :=
  (PipelineSummary.totalEntries p, PipelineSummary.stages p,
   map (fun e => (PipelineEntry.id e, PipelineEntry.stage e, PipelineEntry.value e))
       (PipelineSummary.entries p)).

(** The entries counted by a stage map. *)
Definition counted (m : StageMap) : nat :=
  list_sum (map (fun ks => StageStats.count (snd ks)) m).

End PipelineNotions.

(* ================================================================== *)
(** ** Vocabulary: tasks *)

Module TaskNotions.
Import Js Helpers Spec PipelineNotions.
Local Open Scope js_scope.

(** The elements of a list-valued field: none when the field is absent. *)
Definition listOf (v : JsVal) : list JsVal :=
  match listField v with
  | Some items => items
  | None => []
  end.

Definition taskIdOf (t : JsVal) : JsVal :=
  if truthy (readProp (readProp t "id") "task_id")
  then readProp (readProp t "id") "task_id"
  else readProp t "id".

Definition contentOf (t : JsVal) : JsVal :=
  if truthy (readProp t "content_plaintext") then readProp t "content_plaintext"
  else if truthy (readProp t "content") then readProp t "content"
  else if truthy (readProp t "title") then readProp t "title"
  else JNull.

(** The enriched form of one raw task. *)
Definition enrichedTask (memberMap names : NameMap) (t : JsVal) : EnrichedTask.t :=
  EnrichedTask.make (taskIdOf t) (contentOf t)
    (truthy (readProp t "is_completed")) (deadlineOf t)
    (map (fun a => shownAs "User " memberMap (actorIdOf a))
         (listOf (readProp t "assignees")))
    (map (fun lr => shownAs "Record " names (linkedIdOf lr))
         (listOf (readProp t "linked_records"))).

(** The task has a deadline, and one that can be compared. *)
Definition dated (t : JsVal) : bool := truthy (deadlineOf t).

Definition comparableDeadline (t : JsVal) : bool := printable (deadlineOf t).

(** The task is due on [d]: its deadline is the string [d], or is missing
    when [d] is [null]. *)
Definition dueOn (d : JsVal) (t : EnrichedTask.t) : bool :=
  strictEq (EnrichedTask.deadline t) d.

End TaskNotions.

(* ================================================================== *)
(** ** Vocabulary: timeline events *)

Module TimelineNotions.
Import Js Helpers Spec ShapeNotions.
Local Open Scope js_scope.

(** [v.<first> || v.<second> || null] and [v.<only> || null] *)
Definition either (v : JsVal) (first second : string) : JsVal :=
  if truthy (readProp v first) then readProp v first
  else if truthy (readProp v second) then readProp v second
  else JNull.

Definition orNull (v : JsVal) (only : string) : JsVal :=
  if truthy (readProp v only) then readProp v only else JNull.

(** [v.id?.<key> || v.id] *)
Definition idUnder (v : JsVal) (key : string) : JsVal :=
  if truthy (readProp (readProp v "id") key) then readProp (readProp v "id") key
  else readProp v "id".

(** The event a note, a meeting and a thread are turned into. *)
Definition noteOf (n : JsVal) : TimelineEvent.t :=
  TimelineEvent.make note (idUnder n "note_id") (orNull n "created_at")
    (orNull n "title") (either n "content_plaintext" "content").

Definition meetingOf (m : JsVal) : TimelineEvent.t :=
  TimelineEvent.make meeting (idUnder m "meeting_id")
    (either m "start_time" "created_at") (either m "title" "subject")
    (orNull m "description").

Definition threadOf (t : JsVal) : TimelineEvent.t :=
  TimelineEvent.make thread (idUnder t "thread_id") (orNull t "created_at")
    (orNull t "subject") (either t "body_plaintext" "body").

(** The events in the order they are pushed: notes, meetings, threads. *)
Definition eventsOf (notes meetings threads : list JsVal) : list TimelineEvent.t :=
  map noteOf notes ++ map meetingOf meetings ++ map threadOf threads.

Definition isType (ty : EventType) (e : TimelineEvent.t) : bool :=
  match ty, TimelineEvent.type e with
  | note, note | meeting, meeting | thread, thread => true
  | _, _ => false
  end.

Definition undated (e : TimelineEvent.t) : bool := negb (hasDate e).

(** The event is dated [d]. *)
Definition datedOn (d : string) (e : TimelineEvent.t) : bool :=
  strictEq (TimelineEvent.date e) (JStr d).

(** An event whose date, title and content are [null] when missing. *)
Definition tidy (e : TimelineEvent.t) : Prop :=
  nullOrTruthy (TimelineEvent.date e) /\ nullOrTruthy (TimelineEvent.title e) /\
  nullOrTruthy (TimelineEvent.content e).

End TimelineNotions.

(* ================================================================== *)
(** ** Vocabulary: the handlers *)

Module ServerNotions.
Import Js Helpers Spec Server PipelineNotions TaskNotions.
Local Open Scope js_scope.

(** The note is about the record [recordId] of type [objectType]. *)
Definition isAbout (objectType recordId : string) (n : JsVal) : bool :=
  tagIs (readProp n "parent_object") objectType &&
  tagIs (readProp n "parent_record_id") recordId.

(** The record of a [get_record_details] response, and its values. *)
Definition detailRecord (recordResp : JsVal) : JsVal :=
  if truthy (readProp (readProp recordResp "data") "data")
  then readProp (readProp recordResp "data") "data"
  else readProp recordResp "data".

Definition detailValues (recordResp : JsVal) : Values :=
  if truthyValues (optValues (detailRecord recordResp))
  then optValues (detailRecord recordResp)
  else Mapping (JObj []).

(** The id and the name a workspace member is entered under. *)
Definition memberIdOf (m : JsVal) : JsVal :=
  if truthy (readProp (readProp m "id") "workspace_member_id")
  then readProp (readProp m "id") "workspace_member_id"
  else readProp m "id".

Definition memberNameOf (m : JsVal) : JsVal :=
  if truthy (readProp m "name") then readProp m "name"
  else if truthy (readProp m "email") then readProp m "email"
  else JStr ("Member " ++ textOf (memberIdOf m)).

(** A member the loop can enter: not [null] or [undefined], and with a
    name, an email or an id that can be printed. *)
Definition enterable (m : JsVal) : bool :=
  negb (nullish m) &&
  (truthy (readProp m "name") || truthy (readProp m "email")
   || printable (memberIdOf m)).

(** The last member entered under the id [id]. *)
Definition lastUnder (id : string) (members : list JsVal) : option JsVal :=
  find (fun m => tagIs (memberIdOf m) id) (rev members).

End ServerNotions.

(* ================================================================== *)
(** ** Vocabulary: the names of a pipeline *)

Module NamingNotions.
Import Js Helpers Spec Server PipelineNotions.
Local Open Scope js_scope.

(** What [get_pipeline] resolves an entry's name from: the entry's values
    and nothing else, so that there is no id to fall back to. *)
Definition namingValues (entry : JsVal) : Values :=
  if truthy (readProp entry "entry_values")
  then Mapping (readProp entry "entry_values")
  else readValues entry.

Definition nameOfEntry (entry : JsVal) : JsVal :=
  match extractNameOfValues (namingValues entry) with
  | Ok name => name
  | Throw _ => JStr "Unknown"
  end.

(** The entry's values yield a name. *)
Definition yieldsName (entry : JsVal) : bool :=
  negb (strictEq (nameOfEntry entry) (JStr "Unknown")).

(** The entry stands for the record [rid] and yields a name for it. *)
Definition namesRecord (rid : JsVal) (entry : JsVal) : bool :=
  sameValueZero (recordIdOf entry) rid && yieldsName entry.

(** The label of an entry among the entries of a pipeline: the name the
    first entry of its record to yield one yields, ["Record <id>"] when none
    does or the name is empty, ["Unknown"] when the entry has no record. *)
Definition labelIn (entryList : list JsVal) (entry : JsVal) : JsVal :=
  let rid := recordIdOf entry in
  if truthy rid then
    match find (namesRecord rid) entryList with
    | Some first =>
        if truthy (nameOfEntry first) then nameOfEntry first
        else JStr ("Record " ++ textOf rid)
    | None => JStr ("Record " ++ textOf rid)
    end
  else JStr "Unknown".

(** The entry's record id is a string when it has one. *)
Definition textualId (entry : JsVal) : Prop :=
  truthy (recordIdOf entry) = true -> isString (recordIdOf entry) = true.

End NamingNotions.

(* ================================================================== *)
(** ** Vocabulary: finding a list *)

Module ListNotions.
Import Js Helpers Spec Server.
Local Open Scope js_scope.

(** The list's id: its [list_id], else the [id] as it stands. *)
Definition listIdOf (l : JsVal) : JsVal :=
  if truthy (readProp (readProp l "id") "list_id")
  then readProp (readProp l "id") "list_id"
  else readProp l "id".

(** A list entry as the API returns it: not [null] or [undefined], its
    name a string or missing. *)
Definition wellNamed (l : JsVal) : bool :=
  negb (nullish l) &&
  (nullish (readProp l "name") || isString (readProp l "name")).

(** The list's name contains the query, letter case apart. *)
Definition nameHas (listName : string) (l : JsVal) : Prop :=
  exists name before after,
    readProp l "name" = JStr name /\
    toLowerCase name = (before ++ toLowerCase listName ++ after)%string.

(** The list answers to the query: by its name, or by its exact id. *)
Definition answersTo (listName : string) (l : JsVal) : Prop :=
  nameHas listName l \/ listIdOf l = JStr listName.

(** The test the callback makes of the name. *)
Definition nameHit (listName : string) (l : JsVal) : bool :=
  match readProp l "name" with
  | JStr name => includes (toLowerCase listName) (toLowerCase name)
  | _ => false
  end.

End ListNotions.
(* ================================================================== *)
(** ** Facts about the JavaScript fragment *)

Module JsFacts.

Import Js Spec Aux.
Local Open Scope js_scope.

Lemma throw_eq {A : Type} (e : JsError) : @Throw A e = Throw TypeError.
Proof. destruct e; reflexivity. Qed.

Lemma truthy_not_nullish (v : JsVal) : truthy v = true -> nullish v = false.
Proof. destruct v; cbn; congruence. Qed.

Lemma getProp_ok (v : JsVal) (p : string) :
  nullish v = false -> getProp v p = Ok (readProp v p).
Proof. unfold getProp; intros ->; reflexivity. Qed.

Lemma getProp_truthy (v : JsVal) (p : string) :
  truthy v = true -> getProp v p = Ok (readProp v p).
Proof. intros H; apply getProp_ok, truthy_not_nullish, H. Qed.

Lemma optProp_present (v : JsVal) (p : string) :
  nullish v = false -> optProp v p = readProp v p.
Proof. unfold optProp; intros ->; reflexivity. Qed.

Lemma readProp_nullish (v : JsVal) (p : string) :
  nullish v = true -> readProp v p = JUndefined.
Proof. destruct v; cbn; congruence. Qed.

Lemma optProp_readProp (v : JsVal) (p : string) : optProp v p = readProp v p.
Proof.
  unfold optProp; destruct (nullish v) eqn:N; [|reflexivity].
  symmetry; apply readProp_nullish, N.
Qed.

(** A falsy value has no truthy property: the empty string has length 0 and
    no characters, and the other falsy values have no properties at all. *)
Lemma readProp_truthy_base (v : JsVal) (p : string) :
  truthy (readProp v p) = true -> truthy v = true.
Proof.
  destruct v as [| |b|x|s|items|props]; cbn; try congruence.
  destruct s as [|c s]; [|reflexivity].
  destruct (p =? "length")%string; [cbn; congruence|].
  destruct (JsString.asIndex p) as [i|]; [|cbn; congruence].
  destruct i; cbn; congruence.
Qed.

Lemma dot_ok (v : JsVal) (p : string) :
  nullish v = false -> dot (Ok v) p = Ok (readProp v p).
Proof. intros H; unfold dot; cbn; apply getProp_ok, H. Qed.

Lemma optDot_ok (v : JsVal) (p : string) :
  optDot (Ok v) p = Ok (readProp v p).
Proof. unfold optDot; cbn; now rewrite optProp_readProp. Qed.

Lemma orElse_ok (v : JsVal) (e : result JsVal) :
  orElse (Ok v) e = if truthy v then Ok v else e.
Proof. reflexivity. Qed.

Lemma orElse_value (a b : JsVal) :
  orElse (Ok a) (Ok b) = Ok (if truthy a then a else b).
Proof. rewrite orElse_ok; destruct (truthy a); reflexivity. Qed.

Lemma coalesce_ok (v : JsVal) (e : result JsVal) :
  coalesce (Ok v) e = if nullish v then e else Ok v.
Proof. reflexivity. Qed.

Lemma coalesce_value (a b : JsVal) :
  coalesce (Ok a) (Ok b) = Ok (if nullish a then b else a).
Proof. rewrite coalesce_ok; destruct (nullish a); reflexivity. Qed.

Lemma bind_ok {A B : Type} (a : A) (k : A -> result B) : bind (Ok a) k = k a.
Proof. reflexivity. Qed.

Lemma truthy_or (a b : JsVal) :
  truthy b = true -> truthy (if truthy a then a else b) = true.
Proof. destruct (truthy a) eqn:A; [now rewrite A|auto]. Qed.

Lemma truthy_defined (v : JsVal) : truthy v = true -> Helpers.defined v = true.
Proof. destruct v; cbn; congruence. Qed.

Lemma defined_undefined (v : JsVal) : Helpers.defined v = negb (isUndefined v).
Proof. destruct v; reflexivity. Qed.

Lemma not_null (v : JsVal) : nullish v = false -> strictEq v JNull = false.
Proof. destruct v; cbn; congruence. Qed.

(** *** [map] and [filter] with callbacks that may throw *)

Lemma mapM_length {A B : Type} (f : A -> result B) (l : list A) (out : list B) :
  mapM f l = Ok out -> List.length out = List.length l.
Proof.
  revert out; induction l as [|a l IH]; cbn; intros out H.
  - injection H as <-; reflexivity.
  - destruct (f a) as [b|]; cbn in H; [|discriminate].
    destruct (mapM f l) as [bs|]; cbn in H; [|discriminate].
    injection H as <-; cbn; f_equal; apply IH; reflexivity.
Qed.

Lemma mapM_total {A B : Type} (f : A -> result B) (l : list A) :
  Forall (fun a => exists b, f a = Ok b) l -> exists out, mapM f l = Ok out.
Proof.
  induction 1 as [|a l [b Hb] _ [bs Hbs]]; cbn.
  - eexists; reflexivity.
  - rewrite Hb, Hbs; cbn; eexists; reflexivity.
Qed.

Lemma mapM_pure {A B : Type} (f : A -> result B) (g : A -> B) (l : list A) :
  Forall (fun a => f a = Ok (g a)) l -> mapM f l = Ok (map g l).
Proof.
  induction 1 as [|a l Ha _ IH]; cbn; [reflexivity|].
  now rewrite Ha, IH.
Qed.

Lemma mapM_Forall2 {A B : Type} (f : A -> result B) (l : list A) (out : list B) :
  mapM f l = Ok out -> Forall2 (fun a b => f a = Ok b) l out.
Proof.
  revert out; induction l as [|a l IH]; cbn; intros out H.
  - injection H as <-; constructor.
  - destruct (f a) as [b|] eqn:Hb; cbn in H; [|discriminate].
    destruct (mapM f l) as [bs|]; cbn in H; [|discriminate].
    injection H as <-; constructor; [exact Hb|apply IH; reflexivity].
Qed.

(** [map] throws exactly when the callback throws on some element. *)
Lemma mapM_throws {A B : Type} (f : A -> result B) (l : list A) :
  mapM f l = Throw TypeError <-> Exists (fun a => f a = Throw TypeError) l.
Proof.
  induction l as [|a l IH]; cbn.
  - split; [discriminate|intros H; inversion H].
  - destruct (f a) as [b|e] eqn:E; cbn.
    + destruct (mapM f l) as [bs|e']; cbn.
      * split; [discriminate|].
        intros H; inversion H as [? ? Ha|? ? Hl]; subst; [congruence|].
        apply IH in Hl; discriminate.
      * rewrite (throw_eq e') in *; split; [|reflexivity].
        intros _; right; apply IH; reflexivity.
    + rewrite (throw_eq e); split; [|reflexivity].
      intros _; left; rewrite E; apply throw_eq.
Qed.

(** A callback that either returns [g a] or throws, according to [ok]. *)
Lemma mapM_cases {A B : Type} (f : A -> result B) (ok : A -> bool) (g : A -> B)
  (l : list A) :
  (forall a, f a = if ok a then Ok (g a) else Throw TypeError) ->
  mapM f l = if forallb ok l then Ok (map g l) else Throw TypeError.
Proof.
  intros Hf; induction l as [|a l IH]; cbn; [reflexivity|].
  rewrite Hf, IH; destruct (ok a); cbn; [|reflexivity].
  destruct (forallb ok l); reflexivity.
Qed.

Lemma forallb_false_Exists {A : Type} (p : A -> bool) (l : list A) :
  forallb p l = false <-> Exists (fun a => p a = false) l.
Proof.
  induction l as [|a l IH]; cbn.
  - split; [discriminate|intros H; inversion H].
  - rewrite andb_false_iff, IH; split.
    + intros [H|H]; [left|right]; exact H.
    + intros H; inversion H; subst; auto.
Qed.

Lemma forallb_Forall {A : Type} (p : A -> bool) (l : list A) :
  forallb p l = true <-> Forall (fun a => p a = true) l.
Proof. rewrite forallb_forall, Forall_forall; reflexivity. Qed.

(** *** The conversions *)

Lemma toStr_array (items : list JsVal) : toStr (JArr items) = join items.
Proof. induction items as [|x [|y rest] IH]; reflexivity. Qed.

Lemma unprintable_array (items : list JsVal) :
  unprintable (JArr items) = existsb unprintable items.
Proof. induction items as [|x rest IH]; cbn in *; [reflexivity|now rewrite IH]. Qed.

Lemma nullish_printable (v : JsVal) : nullish v = true -> unprintable v = false.
Proof. destruct v; cbn; congruence. Qed.

Lemma join_ok (l : list JsVal) :
  Forall (fun x => unprintable x = false -> exists s, toStr x = Ok s) l ->
  existsb unprintable l = false -> exists s, join l = Ok s.
Proof.
  induction 1 as [|x rest Hx _ IH]; cbn [existsb join]; [eexists; reflexivity|].
  intros E; apply orb_false_elim in E as [Ex Er].
  assert (Hs : exists s, element x = Ok s).
  { unfold element; destruct (nullish x); [eexists; reflexivity|auto]. }
  destruct Hs as [s Hs]; destruct rest as [|y rest]; [exists s; exact Hs|].
  destruct (IH Er) as [j Hj]; rewrite Hs, Hj; cbn; eexists; reflexivity.
Qed.

Lemma join_throws (l : list JsVal) :
  Forall (fun x => unprintable x = true -> toStr x = Throw TypeError) l ->
  existsb unprintable l = true -> join l = Throw TypeError.
Proof.
  induction 1 as [|x rest Hx _ IH]; cbn [existsb join]; [discriminate|].
  intros E.
  destruct (unprintable x) eqn:Ux.
  - assert (Hs : element x = Throw TypeError).
    { unfold element; destruct (nullish x) eqn:N; [|auto].
      rewrite (nullish_printable x N) in Ux; discriminate. }
    rewrite Hs; destruct rest; reflexivity.
  - cbn in E; specialize (IH E).
    destruct rest as [|y rest]; [discriminate E|].
    rewrite IH; destruct (element x); cbn; [reflexivity|apply throw_eq].
Qed.

(** Conversion to a string raises on exactly the values [unprintable]
    describes. *)
Lemma toStr_spec (v : JsVal) :
  (unprintable v = true -> toStr v = Throw TypeError) /\
  (unprintable v = false -> exists s, toStr v = Ok s).
Proof.
  revert v; fix IH 1; intros v.
  destruct v as [| |b|x|s|items|props];
    try (split; [discriminate|intros _; eexists; reflexivity]).
  - rewrite toStr_array, unprintable_array.
    assert (H : Forall (fun x => (unprintable x = true -> toStr x = Throw TypeError)
                                 /\ (unprintable x = false ->
                                     exists s, toStr x = Ok s)) items).
    { induction items as [|x rest IHl]; constructor; [apply IH|exact IHl]. }
    split; [apply join_throws|apply join_ok];
      (eapply Forall_impl; [|exact H]); intros x Hx; apply Hx.
  - cbn; destruct (hasOwn "toString" props);
      (split; [try discriminate; reflexivity|try discriminate]).
    intros _; eexists; reflexivity.
Qed.

Lemma toStr_cases (v : JsVal) :
  toStr v = if unprintable v then Throw TypeError else Ok (textOf v).
Proof.
  destruct (toStr_spec v) as [Ht Ho]; unfold textOf.
  destruct (unprintable v); [auto|].
  destruct (Ho eq_refl) as [s ->]; reflexivity.
Qed.

Lemma toStr_printable (v : JsVal) :
  printable v = true -> toStr v = Ok (textOf v).
Proof.
  unfold printable; intros H; apply negb_true_iff in H.
  now rewrite toStr_cases, H.
Qed.

Lemma toStr_ok (v : JsVal) (s : string) :
  toStr v = Ok s -> printable v = true /\ textOf v = s.
Proof.
  rewrite toStr_cases; unfold printable.
  destruct (unprintable v); [discriminate|].
  intros H; split; [reflexivity|congruence].
Qed.

Lemma toStr_throws (v : JsVal) :
  toStr v = Throw TypeError <-> printable v = false.
Proof.
  rewrite toStr_cases; unfold printable.
  destruct (unprintable v); cbn; split; congruence.
Qed.

(** Falsy values are primitives. *)
Lemma falsy_printable (v : JsVal) : truthy v = false -> printable v = true.
Proof. destruct v; cbn; congruence. Qed.

Lemma scalar_printable (v : JsVal) :
  typeofObject v = false -> printable v = true.
Proof. destruct v; cbn; congruence. Qed.

Lemma text_printable (v : JsVal) : isString v = true -> printable v = true.
Proof. destruct v; cbn; congruence. Qed.

Lemma toPrimitive_cases (v : JsVal) :
  toPrimitive v
  = if unprintable v then Throw TypeError
    else Ok (match v with
             | JArr _ | JObj _ => JStr (textOf v)
             | _ => v
             end).
Proof.
  destruct v; try reflexivity; unfold toPrimitive; rewrite toStr_cases;
    match goal with |- context [unprintable ?v] => destruct (unprintable v) end;
    reflexivity.
Qed.

Lemma toNumber_cases (v : JsVal) :
  toNumber v = if unprintable v then Throw TypeError else Ok (numberOf v).
Proof.
  unfold numberOf, toNumber; rewrite toPrimitive_cases.
  destruct (unprintable v); reflexivity.
Qed.

Lemma numberOrNull_cases (value : JsVal) :
  Helpers.numberOrNull value
  = if strictEq value JNull then Ok None
    else if unprintable value then Throw TypeError
         else Ok (Some (numberOf value)).
Proof.
  unfold Helpers.numberOrNull; rewrite toNumber_cases.
  destruct (strictEq value JNull); [reflexivity|].
  destruct (unprintable value); reflexivity.
Qed.

Lemma labelled_cases (prefix : string) (id : JsVal) :
  Helpers.labelled prefix id
  = if unprintable id then Throw TypeError
    else Ok (JStr (prefix ++ textOf id)).
Proof.
  unfold Helpers.labelled; rewrite toStr_cases.
  destruct (unprintable id); reflexivity.
Qed.

(** The relational operator raises when an operand has no primitive
    value. *)
Lemma lessThan_throws (a b : JsVal) :
  lessThan a b = Throw TypeError
  <-> unprintable a = true \/ unprintable b = true.
Proof.
  unfold lessThan; rewrite !toPrimitive_cases.
  destruct (unprintable a); cbn [bind]; [tauto|].
  destruct (unprintable b); cbn [bind]; [tauto|].
  split; [|intros [H|H]; discriminate].
  match goal with |- match ?x with _ => _ end = _ -> _ =>
    destruct x; try discriminate end;
  match goal with |- match ?x with _ => _ end = _ -> _ =>
    destruct x; discriminate end.
Qed.

Lemma lessThan_text (s t : string) :
  lessThan (JStr s) (JStr t) = Ok (JsString.ltb s t).
Proof. reflexivity. Qed.

(** *** The local [values] *)

Lemma getField_ok (values : Values) (p : string) :
  truthyValues values = true -> getField values p = Ok (readField values p).
Proof.
  destruct values as [v|]; cbn; [|reflexivity].
  intros T; apply getProp_truthy, T.
Qed.

Lemma orMapping_value (values : Values) (v : JsVal) :
  orMapping values (Ok v)
  = Ok (if truthyValues values then values else Mapping v).
Proof. unfold orMapping; destruct (truthyValues values); reflexivity. Qed.

Lemma getValues_ok (x : JsVal) :
  nullish x = false -> getValues x = Ok (readValues x).
Proof. unfold getValues; intros ->; reflexivity. Qed.

Lemma optValues_present (x : JsVal) :
  nullish x = false -> optValues x = readValues x.
Proof. unfold optValues; intros ->; reflexivity. Qed.

End JsFacts.

(* ================================================================== *)
(** ** [trim] *)

Module TrimFacts.

Import JsString Aux.

Lemma trimStart_inkFirst (s : string) : inkFirst (trimStart s).
Proof.
  induction s as [|c s IH]; cbn; [exact I|].
  destruct (isWhiteSpace c) eqn:W; [exact IH|exact W].
Qed.

Lemma trimStart_fixed (s : string) : inkFirst s -> trimStart s = s.
Proof. destruct s as [|c s]; cbn; [reflexivity|intros ->; reflexivity]. Qed.

Lemma trimEnd_inkFirst (s : string) : inkFirst s -> inkFirst (trimEnd s).
Proof.
  destruct s as [|c s]; cbn; [exact (fun H => H)|].
  intros W; rewrite W; destruct (trimEnd s); exact W.
Qed.

Lemma trimEnd_idempotent (s : string) : trimEnd (trimEnd s) = trimEnd s.
Proof.
  induction s as [|c s IH]; cbn; [reflexivity|].
  destruct (trimEnd s) as [|d t] eqn:E.
  - destruct (isWhiteSpace c) eqn:W; cbn; [reflexivity|now rewrite W].
  - cbn [trimEnd] in *. rewrite IH. reflexivity.
Qed.

Lemma trim_idempotent (s : string) : trim (trim s) = trim s.
Proof.
  unfold trim.
  rewrite (trimStart_fixed (trimEnd (trimStart s))).
  - apply trimEnd_idempotent.
  - apply trimEnd_inkFirst, trimStart_inkFirst.
Qed.

End TrimFacts.

(* ================================================================== *)
(** ** Whitespace and [trim] *)

Module InkFacts.
Import JsString Aux.

Lemma hasInk_trimStart (s : string) : hasInk (trimStart s) = hasInk s.
Proof.
  induction s as [|c s IH]; cbn; [reflexivity|].
  destruct (isWhiteSpace c) eqn:W; cbn; [exact IH|now rewrite W].
Qed.

Lemma trimEnd_empty (s : string) : trimEnd s = "" <-> hasInk s = false.
Proof.
  induction s as [|c s IH]; cbn; [tauto|].
  destruct (trimEnd s) as [|d t].
  - destruct (isWhiteSpace c); cbn; [tauto|].
    split; [discriminate|intros H; discriminate H].
  - split; [discriminate|].
    intros H; apply orb_false_elim in H as [_ H].
    apply IH in H; discriminate.
Qed.

Lemma trim_empty (s : string) : trim s = "" <-> hasInk s = false.
Proof. unfold trim; now rewrite trimEnd_empty, hasInk_trimStart. Qed.

Lemma hasInk_app (a b : string) : hasInk (a ++ b) = hasInk a || hasInk b.
Proof. induction a as [|c a IH]; cbn; [reflexivity|now rewrite IH, orb_assoc]. Qed.

Lemma ink_survives (a b : string) :
  trim a <> "" \/ trim b <> "" -> trim (a ++ " " ++ b) <> "".
Proof.
  rewrite !trim_empty, !hasInk_app.
  intros [H|H] E; apply H; apply orb_false_elim in E as [E1 E2];
    [exact E1|apply orb_false_elim in E2 as [_ E2]; exact E2].
Qed.

End InkFacts.


(* ================================================================== *)
(** ** The flattener *)

Module FlattenFacts.

Import Js Helpers Spec Aux JsFacts FlattenNotions.
Local Open Scope js_scope.

Lemma toStr_empty_part (part : JsVal) :
  toStr (if truthy part then part else JStr "") = partText part.
Proof. unfold partText; destruct (truthy part); reflexivity. Qed.

Lemma orEmpty (x : JsVal) (p : string) :
  nullish x = false ->
  (Ok x ·. p <||> Ok (JStr ""))
  = Ok (if truthy (readProp x p) then readProp x p else JStr "").
Proof. intros N; rewrite dot_ok, orElse_value by exact N; reflexivity. Qed.

(** The template literal prints the two parts, and raises when one of them
    cannot be printed. *)
Lemma composeName_eq (x : JsVal) :
  nullish x = false ->
  composeName x = (s <- personalName x ;; Ok (JStr s)).
Proof.
  intros N; unfold composeName, personalName.
  rewrite orEmpty, bind_ok, toStr_empty_part by exact N.
  destruct (partText (readProp x "first_name")); cbn [bind]; [|reflexivity].
  rewrite orEmpty, bind_ok, toStr_empty_part by exact N.
  destruct (partText (readProp x "last_name")); reflexivity.
Qed.

Lemma partText_cases (part : JsVal) :
  partText part
  = if printable part then Ok (if truthy part then textOf part else "")
    else Throw TypeError.
Proof.
  unfold partText, printable; rewrite toStr_cases.
  destruct (truthy part) eqn:T.
  - destruct (unprintable part); reflexivity.
  - pose proof (falsy_printable part T) as P; unfold printable in P.
    apply negb_true_iff in P; rewrite P; reflexivity.
Qed.

Lemma personalName_ok (x : JsVal) :
  printable (readProp x "first_name") = true ->
  printable (readProp x "last_name") = true ->
  exists s, personalName x = Ok s.
Proof.
  intros F L; unfold personalName; rewrite !partText_cases, F, L.
  eexists; reflexivity.
Qed.

Lemma personalName_throws (x : JsVal) :
  printable (readProp x "first_name") && printable (readProp x "last_name") = false ->
  personalName x = Throw TypeError.
Proof.
  intros H; unfold personalName; rewrite !partText_cases.
  destruct (printable (readProp x "first_name")); [|reflexivity].
  cbn in H; rewrite H; reflexivity.
Qed.

Lemma flattenFirst_tail (first : JsVal) :
  nullish first = false ->
  defined (readProp first "full_name") = false ->
  exists v, flattenFirst first = Ok v.
Proof.
  intros N D; unfold flattenFirst.
  rewrite !getProp_ok, !bind_ok, D by exact N.
  rewrite ?dot_ok, ?optDot_ok, ?orElse_value, ?bind_ok by exact N.
  repeat match goal with
  | |- exists v, (if ?c then _ else _) = Ok v => destruct c
  end;
  rewrite ?orElse_value; eexists; reflexivity.
Qed.

Lemma flattenFirst_full (first : JsVal) :
  truthy (readProp first "full_name") = true ->
  flattenFirst first = Ok (readProp first "full_name").
Proof.
  intros F.
  pose proof (truthy_not_nullish _ (readProp_truthy_base _ _ F)) as N.
  unfold flattenFirst; rewrite getProp_ok, bind_ok by exact N.
  rewrite (truthy_defined _ F).
  now rewrite orElse_ok, F.
Qed.

Lemma defined_present (first : JsVal) (p : string) :
  defined (readProp first p) = true -> nullish first = false.
Proof.
  intros D; destruct (nullish first) eqn:N; [|reflexivity].
  rewrite (readProp_nullish _ _ N) in D; discriminate.
Qed.

Lemma flattenFirst_blank_full (first : JsVal) :
  defined (readProp first "full_name") = true ->
  truthy (readProp first "full_name") = false ->
  flattenFirst first = (s <- personalName first ;; Ok (JStr s)).
Proof.
  intros D F; pose proof (defined_present _ _ D) as N.
  unfold flattenFirst; rewrite getProp_ok, bind_ok, D, orElse_ok, F by exact N.
  apply composeName_eq, N.
Qed.

(** The flattener returns on an attribute value, and raises on anything
    else. *)
Lemma flattenFirst_total (first : JsVal) :
  attributeValue first = true -> exists v, flattenFirst first = Ok v.
Proof.
  unfold attributeValue; intros H; apply andb_prop in H as [N H].
  apply negb_true_iff in N.
  destruct (defined (readProp first "full_name")) eqn:D;
    [|apply flattenFirst_tail; assumption].
  destruct (truthy (readProp first "full_name")) eqn:F;
    [rewrite flattenFirst_full by exact F; eexists; reflexivity|].
  cbn in H; apply andb_prop in H as [P1 P2].
  rewrite flattenFirst_blank_full by assumption.
  destruct (personalName_ok first P1 P2) as [s ->]; eexists; reflexivity.
Qed.

Lemma flattenFirst_throws (first : JsVal) :
  attributeValue first = false -> flattenFirst first = Throw TypeError.
Proof.
  unfold attributeValue; intros H.
  destruct (nullish first) eqn:N.
  - unfold flattenFirst, getProp; rewrite N; reflexivity.
  - cbn in H.
    destruct (defined (readProp first "full_name")) eqn:D; [|discriminate].
    destruct (truthy (readProp first "full_name")) eqn:F; [discriminate|].
    cbn in H; rewrite flattenFirst_blank_full by assumption.
    now rewrite personalName_throws.
Qed.

Lemma flattenEntry_empty (arr : JsVal) :
  emptyOrMissing arr = true -> flattenEntry arr = Ok JNull.
Proof. destruct arr as [| | | | |[|first rest]|]; cbn; congruence. Qed.

Lemma flattenEntry_total (entry : string * JsVal) :
  wellHeaded entry = true -> exists v, flattenEntry (snd entry) = Ok v.
Proof.
  destruct entry as [key arr]; unfold wellHeaded; cbn [snd].
  destruct arr as [| | | | |[|first rest]|]; cbn [flattenEntry];
    try (eexists; reflexivity).
  apply flattenFirst_total.
Qed.

Lemma flattenEntry_throws (entry : string * JsVal) :
  wellHeaded entry = false -> flattenEntry (snd entry) = Throw TypeError.
Proof.
  destruct entry as [key arr]; unfold wellHeaded; cbn [snd].
  destruct arr as [| | | | |[|first rest]|]; cbn [flattenEntry];
    try discriminate.
  apply flattenFirst_throws.
Qed.

Lemma flattenEntry_cases (entry : string * JsVal) :
  flattenEntry (snd entry)
  = if wellHeaded entry then Ok (flatValue (snd entry)) else Throw TypeError.
Proof.
  unfold flatValue; destruct (wellHeaded entry) eqn:W.
  - destruct (flattenEntry_total entry W) as [v ->]; reflexivity.
  - apply flattenEntry_throws, W.
Qed.

(** The loop returns when every array is well headed, and raises at the
    first one that is not. *)
Lemma flattenEntries_cases (entries : list (string * JsVal)) (flat : Flat.t) :
  flattenEntries entries flat
  = if forallb wellHeaded entries then Ok (assignAll entries flat)
    else Throw TypeError.
Proof.
  revert flat; induction entries as [|[key arr] entries IH]; intros flat;
    [reflexivity|].
  cbn [flattenEntries forallb assignAll fold_left].
  change arr with (snd (key, arr)) at 1; rewrite flattenEntry_cases.
  destruct (wellHeaded (key, arr)); cbn [bind andb]; [|reflexivity].
  apply IH.
Qed.

Lemma assign_proto (flat : Flat.t) (v : JsVal) :
  Flat.own (assign flat "__proto__" v) = Flat.own flat.
Proof. unfold assign; cbn; destruct (typeofObject v); reflexivity. Qed.

Lemma assign_own (flat : Flat.t) (key : string) (v : JsVal) :
  Flat.own (assign flat key v)
  = Flat.own flat ++ (if ownKey key then [(key, v)] else []).
Proof.
  unfold assign, ownKey; destruct (key =? "__proto__")%string; cbn.
  - destruct (typeofObject v); cbn; now rewrite app_nil_r.
  - reflexivity.
Qed.

(** The own properties after the loop: one for each entry whose key is not
    [__proto__], in the order of the entries. *)
Lemma assignAll_own (entries : list (string * JsVal)) (flat : Flat.t) :
  Flat.own (assignAll entries flat)
  = Flat.own flat
    ++ map (fun e => (fst e, flatValue (snd e)))
           (filter (fun e => ownKey (fst e)) entries).
Proof.
  revert flat; induction entries as [|[key arr] entries IH]; intros flat; cbn.
  - now rewrite app_nil_r.
  - unfold assignAll in IH; rewrite IH, assign_own.
    destruct (ownKey key); cbn; rewrite <- app_assoc; reflexivity.
Qed.

Lemma assoc_flattened (entries : list (string * JsVal)) (key : string) :
  ownKey key = true ->
  assoc key (map (fun e => (fst e, flatValue (snd e)))
                 (filter (fun e => ownKey (fst e)) entries))
  = option_map flatValue (assoc key entries).
Proof.
  intros K; induction entries as [|[k arr] entries IH]; cbn; [reflexivity|].
  destruct (key =? k)%string eqn:E.
  - apply String.eqb_eq in E; subst k; rewrite K; cbn.
    now rewrite String.eqb_refl.
  - destruct (ownKey k); cbn; [rewrite E|]; exact IH.
Qed.

Lemma assoc_proto (entries : list (string * JsVal)) :
  assoc "__proto__" (map (fun e => (fst e, flatValue (snd e)))
                         (filter (fun e => ownKey (fst e)) entries))
  = None.
Proof.
  induction entries as [|[k arr] entries IH]; [reflexivity|].
  cbn [filter fst]; destruct (ownKey k) eqn:K; [|exact IH].
  cbn [map assoc fst snd].
  unfold ownKey in K; apply negb_true_iff in K.
  rewrite String.eqb_sym, K; exact IH.
Qed.

Lemma flattenValues_object (props : list (string * JsVal)) :
  flattenValues (JObj props) = flattenEntries props emptyFlat.
Proof. reflexivity. Qed.

Lemma flattenValues_cases (props : list (string * JsVal)) :
  flattenValues (JObj props)
  = if forallb wellHeaded props then Ok (assignAll props emptyFlat)
    else Throw TypeError.
Proof. rewrite flattenValues_object; apply flattenEntries_cases. Qed.

(** What a key other than [__proto__] is bound to in the flat mapping. *)
Lemma flattenValues_key (props : list (string * JsVal)) (key : string)
  (arr : JsVal) :
  Forall (fun entry => wellHeaded entry = true) props ->
  key <> "__proto__" ->
  assoc key props = Some arr ->
  exists flat v,
    flattenValues (JObj props) = Ok flat /\ flattenEntry arr = Ok v
    /\ assoc key (Flat.own flat) = Some v.
Proof.
  intros Hheads Hk Ha.
  apply forallb_Forall in Hheads.
  exists (assignAll props emptyFlat), (flatValue arr).
  rewrite flattenValues_cases, Hheads; split; [reflexivity|].
  assert (K : ownKey key = true)
    by (unfold ownKey; apply negb_true_iff, String.eqb_neq, Hk).
  split.
  - assert (W : wellHeaded (key, arr) = true).
    { rewrite forallb_forall in Hheads; apply Hheads.
      clear - Ha; induction props as [|[k a] props IH]; [discriminate|].
      cbn in Ha; destruct (key =? k)%string eqn:E.
      - apply String.eqb_eq in E; injection Ha as ->; subst; left; reflexivity.
      - right; apply IH, Ha. }
    change arr with (snd (key, arr)); now rewrite flattenEntry_cases, W.
  - rewrite assignAll_own; cbn [Flat.own emptyFlat app].
    now rewrite assoc_flattened, Ha.
Qed.

(** The local [values] of a helper. *)
Lemma flattenLocal_cases (values : Values) :
  flattenLocal values
  = if forallb wellHeaded (looped values)
    then Ok (assignAll (looped values) emptyFlat)
    else Throw TypeError.
Proof.
  destruct values as [v|]; [|reflexivity].
  cbn [flattenLocal looped]; unfold flattenValues.
  destruct v as [| |b|x|s|items|props]; try reflexivity;
    try apply flattenEntries_cases.
  - destruct b; reflexivity.
  - cbn; destruct (JsNumber.isNaN x || JsNumber.isZero x); reflexivity.
  - cbn; destruct (JsString.isEmpty s); reflexivity.
Qed.

End FlattenFacts.

(* ================================================================== *)
(** ** Name values *)

Module NameFacts.

Import Js Helpers Spec Aux JsFacts FlattenFacts.
Local Open Scope js_scope.

Lemma attributeValues_truthy (record : JsVal) :
  truthyValues (attributeValues record) = true.
Proof.
  unfold attributeValues.
  destruct (truthyValues (optValues record)) eqn:V; [exact V|].
  destruct (truthy (optProp record "attributes")) eqn:A; [exact A|reflexivity].
Qed.

Lemma valuesOf_ok (record : JsVal) :
  valuesOf record = Ok (attributeValues record).
Proof.
  unfold valuesOf, attributeValues.
  rewrite optDot_ok, orElse_value, orMapping_value, <- optProp_readProp.
  destruct (truthyValues (optValues record)); [reflexivity|].
  destruct (truthy (optProp record "attributes")); reflexivity.
Qed.

Lemma primary_ok (values : Values) (key : string) :
  truthyValues values = true ->
  optDot (getField values key) "0" = Ok (primaryValue values key).
Proof.
  intros T; rewrite getField_ok by exact T.
  rewrite optDot_ok; unfold primaryValue; now rewrite optProp_readProp.
Qed.

Lemma nameFrom_start (values : Values) (lastResort : result JsVal) :
  truthyValues values = true ->
  exists rest,
    nameFrom values lastResort
    = otherwise (fromNameVal (if truthy (primaryValue values "name")
                              then primaryValue values "name"
                              else primaryValue values "primary_name")) rest.
Proof.
  intros T; unfold nameFrom.
  rewrite !primary_ok, orElse_value, bind_ok by exact T.
  eexists; reflexivity.
Qed.

(** [extractRecordName] starts from the record's name value. *)
Lemma extractRecordName_start (record : JsVal) :
  exists rest,
    extractRecordName record = otherwise (fromNameVal (nameValue record)) rest.
Proof.
  unfold extractRecordName; rewrite valuesOf_ok, bind_ok.
  apply nameFrom_start, attributeValues_truthy.
Qed.

Lemma fromNameVal_full (nameVal : JsVal) :
  truthy (readProp nameVal "full_name") = true ->
  fromNameVal nameVal = returns (readProp nameVal "full_name").
Proof.
  intros F; pose proof (readProp_truthy_base _ _ F) as T.
  unfold fromNameVal; rewrite T, getProp_truthy, bind_ok, F by exact T.
  reflexivity.
Qed.

Lemma fromNameVal_parts (nameVal : JsVal) :
  truthy (readProp nameVal "full_name") = false ->
  truthy (readProp nameVal "first_name") = true \/
  truthy (readProp nameVal "last_name") = true ->
  fromNameVal nameVal = (s <- personalName nameVal ;; returns (JStr s)).
Proof.
  intros F P.
  assert (T : truthy nameVal = true)
    by (destruct P as [P|P]; exact (readProp_truthy_base _ _ P)).
  pose proof (truthy_not_nullish _ T) as N.
  unfold fromNameVal; rewrite T, getProp_ok, bind_ok, F by exact N.
  rewrite !dot_ok, orElse_value, bind_ok by exact N.
  replace (truthy (if truthy (readProp nameVal "first_name")
                   then readProp nameVal "first_name"
                   else readProp nameVal "last_name")) with true.
  - rewrite composeName_eq by exact N.
    destruct (personalName nameVal); reflexivity.
  - destruct (truthy (readProp nameVal "first_name")) eqn:A; [now rewrite A|].
    destruct P as [P|P]; [congruence|now rewrite P].
Qed.

End NameFacts.

(* ================================================================== *)
(** ** Record name resolution *)

Module ResolveFacts.

Import Js Helpers Spec Aux JsFacts FlattenFacts NameFacts.
Local Open Scope js_scope.

Section Yield.

(** A property of results that every non-empty string has. *)
Variable P : JsVal -> Prop.
Hypothesis P_text : forall v, truthy v = true -> isString v = true -> P v.

Lemma otherwise_yields (b : result Returned) (rest : result JsVal) :
  Block P b -> Yields P rest -> Yields P (otherwise b rest).
Proof.
  destruct b as [[v|]|e]; cbn; intros Hb Hrest;
    [exists v; split; [reflexivity|exact Hb] | exact Hrest | contradiction].
Qed.

Lemma otherwiseTry_block (b rest : result Returned) :
  Block P b -> Block P rest -> Block P (otherwiseTry b rest).
Proof. destruct b as [[v|]|e]; cbn; tauto. Qed.

(** [if (x.value) return String(x.value);] *)
Lemma value_block (x : JsVal) :
  truthy x = true ->
  (truthy (readProp x "value") = true ->
   Text P (toStr (readProp x "value"))) ->
  Block P (bind (getProp x "value")
           (fun value => if truthy value then returnsString value
                         else fallThrough)).
Proof.
  intros T HV; rewrite getProp_truthy, bind_ok by exact T.
  destruct (truthy (readProp x "value")); [|exact I].
  destruct (HV eq_refl) as [s [Hs Ps]].
  unfold returnsString; rewrite Hs; exact Ps.
Qed.

Lemma fromNameVal_block (nameVal : JsVal) :
  Fields P nameVal -> Block P (fromNameVal nameVal).
Proof.
  intros [HF [HC HV]].
  destruct (truthy (readProp nameVal "full_name")) eqn:F.
  { rewrite (fromNameVal_full _ F); cbn; apply HF; reflexivity. }
  assert (Parts : truthy (readProp nameVal "first_name") = true \/
                  truthy (readProp nameVal "last_name") = true ->
                  Block P (fromNameVal nameVal)).
  { intros H; rewrite (fromNameVal_parts _ F H).
    destruct (HC H) as [s [-> Ps]]; exact Ps. }
  destruct (truthy (readProp nameVal "first_name")) eqn:A; [auto|].
  destruct (truthy (readProp nameVal "last_name")) eqn:B; [auto|].
  unfold fromNameVal.
  destruct (truthy nameVal) eqn:T; [|exact I].
  pose proof (truthy_not_nullish _ T) as N.
  rewrite getProp_ok, bind_ok, F, !dot_ok, orElse_ok, A, bind_ok, B by exact N.
  destruct (isString nameVal) eqn:S; [cbn; apply P_text; assumption|].
  apply value_block; assumption.
Qed.

Lemma fromTitleVal_block (titleVal : JsVal) :
  Fields P titleVal -> Block P (fromTitleVal titleVal).
Proof.
  intros [_ [_ HV]]; unfold fromTitleVal.
  destruct (truthy titleVal) eqn:T; [|exact I].
  destruct (isString titleVal) eqn:S; [cbn; apply P_text; assumption|].
  apply value_block; assumption.
Qed.

Lemma fromFallbackKey_block (values : Values) (key : string) :
  truthyValues values = true ->
  Fields P (primaryValue values key) ->
  Block P (fromFallbackKey values key).
Proof.
  intros T [HF [_ HV]]; unfold fromFallbackKey.
  rewrite getField_ok, bind_ok by exact T.
  destruct (isArray (readField values key)) eqn:A; [|exact I].
  assert (N : nullish (readField values key) = false)
    by (destruct (readField values key); cbn in *; congruence).
  rewrite getProp_ok, bind_ok by exact N.
  replace (readProp (readField values key) "0") with (primaryValue values key)
    by (unfold primaryValue; apply optProp_readProp).
  destruct (truthy (primaryValue values key)) eqn:T1; [|exact I].
  rewrite getProp_truthy, bind_ok by exact T1.
  destruct (truthy (readProp (primaryValue values key) "full_name")) eqn:F;
    [cbn; apply HF; reflexivity|].
  destruct (isString (primaryValue values key)) eqn:S;
    [cbn; apply P_text; assumption|].
  apply value_block; assumption.
Qed.

Lemma fromFallbackKeys_block (values : Values) (keys : list string) :
  truthyValues values = true ->
  (forall key, In key keys -> Fields P (primaryValue values key)) ->
  Block P (fromFallbackKeys values keys).
Proof.
  intros T; induction keys as [|key keys IH]; cbn [fromFallbackKeys]; intros HV.
  - exact I.
  - apply otherwiseTry_block.
    + apply fromFallbackKey_block; [exact T|apply HV; left; reflexivity].
    + apply IH; intros k Hk; apply HV; right; exact Hk.
Qed.

(** The body of the resolver returns a value in [P] as soon as what it
    reads off the name values is in [P], and its last resort is. *)
Lemma nameFrom_yields (values : Values) (lastResort : result JsVal) :
  truthyValues values = true ->
  (forall key, In key nameKeys -> Fields P (primaryValue values key)) ->
  Yields P lastResort ->
  Yields P (nameFrom values lastResort).
Proof.
  intros T H Hlast; unfold nameFrom.
  rewrite !primary_ok, !orElse_ok by exact T.
  assert (Hname : exists key, In key nameKeys /\
            (if truthy (primaryValue values "name")
             then Ok (primaryValue values "name")
             else Ok (primaryValue values "primary_name"))
            = Ok (primaryValue values key)).
  { destruct (truthy (primaryValue values "name"));
      [exists "name"|exists "primary_name"]; cbn; auto. }
  destruct Hname as [k1 [Hk1 ->]]; rewrite bind_ok.
  apply otherwise_yields.
  { apply fromNameVal_block; apply (H k1 Hk1). }
  assert (Htitle : exists key, In key nameKeys /\
            (if truthy (primaryValue values "title")
             then Ok (primaryValue values "title")
             else if truthy (primaryValue values "company_name")
                  then Ok (primaryValue values "company_name")
                  else Ok (primaryValue values "deal_name"))
            = Ok (primaryValue values key)).
  { destruct (truthy (primaryValue values "title"));
      [exists "title"; cbn; auto 10|].
    destruct (truthy (primaryValue values "company_name"));
      [exists "company_name"|exists "deal_name"]; cbn; auto 10. }
  destruct Htitle as [k2 [Hk2 ->]]; rewrite bind_ok.
  apply otherwise_yields.
  { apply fromTitleVal_block; apply (H k2 Hk2). }
  apply otherwise_yields; [|exact Hlast].
  apply fromFallbackKeys_block; [exact T|].
  intros key Hk; apply (H key).
  unfold fallbackKeys in Hk; unfold nameKeys; cbn in *; tauto.
Qed.

(** The last resort: the record's id, or the sentinel. *)
Lemma idOrUnknown_yields (record : JsVal) :
  (truthy (optProp (optProp record "id") "record_id") = true ->
   P (optProp (optProp record "id") "record_id")) ->
  (truthy (optProp record "id") = true -> P (optProp record "id")) ->
  Yields P (Ok record ?. "id" ?. "record_id" <||> Ok record ?. "id"
          <||> Ok (JStr "Unknown")).
Proof.
  rewrite !optDot_ok, !orElse_ok, !optProp_readProp; intros H1 H2.
  destruct (truthy (readProp (readProp record "id") "record_id")) eqn:A;
    [eexists; split; [reflexivity|apply H1; reflexivity]|].
  destruct (truthy (readProp record "id")) eqn:B;
    eexists; (split; [reflexivity|]);
    [apply H2; reflexivity|apply P_text; reflexivity].
Qed.

Lemma extractRecordName_yields (record : JsVal) :
  (forall key, In key nameKeys ->
               Fields P (primaryValue (attributeValues record) key)) ->
  (truthy (optProp (optProp record "id") "record_id") = true ->
   P (optProp (optProp record "id") "record_id")) ->
  (truthy (optProp record "id") = true -> P (optProp record "id")) ->
  Yields P (extractRecordName record).
Proof.
  intros H H1 H2; unfold extractRecordName; rewrite valuesOf_ok, bind_ok.
  apply nameFrom_yields;
    [apply attributeValues_truthy|exact H|apply idOrUnknown_yields; assumption].
Qed.

End Yield.

(** The fields of a name value under one of the keys the resolver reads. *)
Lemma nameable_field (values : Values) (key field : string) :
  forallb (fun key =>
             forallb (fun field => printable (readProp (primaryValue values key) field))
                     coercedFields) nameKeys = true ->
  In key nameKeys -> In field coercedFields ->
  printable (readProp (primaryValue values key) field) = true.
Proof.
  intros H Hk Hf.
  rewrite forallb_forall in H; specialize (H key Hk).
  rewrite forallb_forall in H; exact (H field Hf).
Qed.

Lemma printable_fields (P : JsVal -> Prop) (x : JsVal) :
  (forall v, truthy v = true -> P v) ->
  (forall s, P (JStr s)) ->
  (forall field, In field coercedFields -> printable (readProp x field) = true) ->
  Fields P x.
Proof.
  intros Pt Ps H; split; [|split].
  - intros F; apply Pt, F.
  - intros _.
    destruct (personalName_ok x) as [s Hs];
      [apply H; cbn; auto|apply H; cbn; auto|].
    exists s; split; [exact Hs|apply Ps].
  - intros _; eexists; split; [|apply Ps].
    apply toStr_printable, H; cbn; auto.
Qed.

End ResolveFacts.

(* ================================================================== *)
(** ** Search result shaping *)

Module ShapeFacts.

Import Js Helpers Spec Aux ShapeNotions.
Import JsFacts FlattenFacts NameFacts ResolveFacts.
Local Open Scope js_scope.

Lemma filterM_pure {A : Type} (f : A -> result bool) (p : A -> bool) (l : list A) :
  Forall (fun a => f a = Ok (p a)) l -> filterM f l = Ok (filter p l).
Proof.
  induction 1 as [|a l Ha _ IH]; cbn; [reflexivity|].
  rewrite Ha, IH; cbn; reflexivity.
Qed.

Lemma filterM_throws {A : Type} (f : A -> result bool) (l : list A) :
  filterM f l = Throw TypeError <-> Exists (fun a => f a = Throw TypeError) l.
Proof.
  induction l as [|a l IH]; cbn.
  - split; [discriminate|intros H; inversion H].
  - destruct (f a) as [b|e] eqn:E; cbn.
    + destruct (filterM f l) as [bs|e']; cbn.
      * split; [discriminate|].
        intros H; inversion H as [? ? Ha|? ? Hl]; subst; [congruence|].
        apply IH in Hl; discriminate.
      * rewrite (throw_eq e') in *; split; [|reflexivity].
        intros _; right; apply IH; reflexivity.
    + rewrite (throw_eq e); split; [|reflexivity].
      intros _; left; rewrite E; apply throw_eq.
Qed.

Lemma filterM_incl {A : Type} (f : A -> result bool) (l kept : list A) :
  filterM f l = Ok kept -> incl kept l /\ List.length kept <= List.length l.
Proof.
  revert kept; induction l as [|a l IH]; cbn; intros kept H.
  - injection H as <-; split; [intros x []|reflexivity].
  - destruct (f a) as [b|]; cbn in H; [|discriminate].
    destruct (filterM f l) as [bs|]; cbn in H; [|discriminate].
    destruct (IH bs eq_refl) as [Hi Hl]; injection H as <-.
    destruct b; cbn; split; try lia.
    + intros x [<-|Hx]; [left; reflexivity|right; apply Hi, Hx].
    + intros x Hx; right; apply Hi, Hx.
Qed.

Lemma filter_all {A : Type} (l : list A) : filter (fun _ => true) l = l.
Proof. induction l as [|a l IH]; cbn; [reflexivity|now rewrite IH]. Qed.

Lemma Forall_filter {A : Type} (P : A -> Prop) (p : A -> bool) (l : list A) :
  Forall P l -> Forall P (filter p l).
Proof.
  induction 1 as [|a l Ha _ IH]; cbn; [constructor|].
  destruct (p a); [constructor; assumption|assumption].
Qed.

Lemma strictEq_tag (v : JsVal) (t : string) : strictEq v (JStr t) = tagIs v t.
Proof. destruct v; reflexivity. Qed.

Lemma keepRecord_filter (t : string) (r : JsVal) :
  t <> "" -> nullish r = false ->
  keepRecord (JStr t) r = Ok (hasTypeTag t r).
Proof.
  intros Ht N; unfold keepRecord, hasTypeTag.
  replace (truthy (JStr t)) with true by (destruct t; [congruence|reflexivity]).
  cbn [negb]; rewrite !getProp_ok, !bind_ok, !strictEq_tag by exact N.
  destruct (tagIs (readProp r "object") t); reflexivity.
Qed.

Lemma keepRecord_throws (t : string) (r : JsVal) :
  t <> "" -> (keepRecord (JStr t) r = Throw TypeError <-> nullish r = true).
Proof.
  intros Ht; destruct (nullish r) eqn:N.
  - split; [reflexivity|intros _].
    unfold keepRecord, getProp.
    replace (truthy (JStr t)) with true by (destruct t; [congruence|reflexivity]).
    cbn; rewrite N; reflexivity.
  - rewrite (keepRecord_filter t r Ht N); split; discriminate.
Qed.

(** A filter that is missing or empty keeps every record, whatever it is. *)
Lemma keepRecord_unfiltered (objectType r : JsVal) :
  truthy objectType = false -> keepRecord objectType r = Ok true.
Proof. intros T; unfold keepRecord; rewrite T; reflexivity. Qed.

Lemma unfiltered (objectType : JsVal) (records : list JsVal) :
  truthy objectType = false ->
  filterM (keepRecord objectType) records = Ok records.
Proof.
  intros T; rewrite (filterM_pure _ (fun _ => true)); [now rewrite filter_all|].
  apply Forall_forall; intros r _; apply keepRecord_unfiltered, T.
Qed.

Lemma recordValues_ok (r : JsVal) :
  nullish r = false -> recordValues r = Ok (attributeValues r).
Proof.
  intros N; unfold recordValues, attributeValues.
  rewrite getValues_ok, bind_ok, dot_ok, orElse_value, orMapping_value by exact N.
  rewrite optValues_present, optProp_present by exact N.
  destruct (truthyValues (readValues r)); [reflexivity|].
  destruct (truthy (readProp r "attributes")); reflexivity.
Qed.

Lemma nullOrTruthy_or (a b : JsVal) :
  nullOrTruthy b -> nullOrTruthy (if truthy a then a else b).
Proof. destruct (truthy a) eqn:A; [right; exact A|auto]. Qed.

Lemma nullOrTruthy_null : nullOrTruthy JNull.
Proof. left; reflexivity. Qed.

(** [values.a || values.b || []] is an array or some other truthy value. *)
Lemma listUnder (values : Values) (a b : string) :
  truthyValues values = true ->
  exists arr,
    (getField values a <||> getField values b <||> Ok (JArr [])) = Ok arr
    /\ nullish arr = false.
Proof.
  intros T; rewrite !getField_ok, !orElse_value by exact T.
  eexists; split; [reflexivity|].
  apply truthy_not_nullish; repeat apply truthy_or; reflexivity.
Qed.

(** The [map] callback on a record that is not [null] or [undefined]: the
    name and the flat values are the two helpers', the rest is read off the
    record. *)
Lemma shapeRecord_present (objectType r : JsVal) :
  nullish r = false ->
  exists id email company,
    nullOrTruthy email /\ nullOrTruthy company /\
    shapeRecord objectType r
    = (name <- extractRecordName r ;;
       flat <- flattenLocal (attributeValues r) ;;
       Ok (ShapedRecord.make id (typeTagOf objectType r) name email company flat)).
Proof.
  intros N.
  pose proof (attributeValues_truthy r) as T.
  unfold shapeRecord; rewrite recordValues_ok, bind_ok by exact N.
  destruct (listUnder (attributeValues r) "email_addresses" "email" T)
    as [emailArr [-> Ne]]; rewrite bind_ok.
  rewrite !(dot_ok emailArr), !optDot_ok, !orElse_value, bind_ok by exact Ne.
  destruct (listUnder (attributeValues r) "company" "companies" T)
    as [companyArr [-> Nc]]; rewrite bind_ok.
  rewrite !(dot_ok companyArr), !optDot_ok, !orElse_value, bind_ok by exact Nc.
  rewrite !(dot_ok r), !optDot_ok, !orElse_value, !bind_ok by exact N.
  do 3 eexists; split; [|split; [|reflexivity]];
    repeat apply nullOrTruthy_or; apply nullOrTruthy_null.
Qed.

Lemma shapeRecord_absent (objectType r : JsVal) :
  nullish r = true -> shapeRecord objectType r = Throw TypeError.
Proof.
  intros N; unfold shapeRecord, recordValues, getValues; rewrite N; reflexivity.
Qed.

(** The resolver returns on a record whose name values can be printed,
    with a truthy value or the empty string. *)
Lemma extractRecordName_nameable (record : JsVal) :
  nameable record = true ->
  exists name, extractRecordName record = Ok name /\
               (truthy name = true \/ name = JStr "").
Proof.
  intros H.
  apply (extractRecordName_yields (fun v => truthy v = true \/ v = JStr ""));
    try tauto.
  intros key Hk; apply printable_fields; [tauto| |].
  - intros s; destruct s; cbn; auto.
  - intros field Hf; exact (nameable_field _ key field H Hk Hf).
Qed.

Lemma shapeRecord_total (objectType r : JsVal) :
  rawRecord r = true -> exists s, shapeRecord objectType r = Ok s.
Proof.
  unfold rawRecord; intros H; apply andb_prop in H as [H Hn].
  apply andb_prop in H as [N Hheads]; apply negb_true_iff in N.
  destruct (shapeRecord_present objectType r N)
    as [id [email [company [_ [_ ->]]]]].
  destruct (extractRecordName_nameable r Hn) as [name [-> _]]; rewrite bind_ok.
  rewrite flattenLocal_cases, Hheads, bind_ok; eexists; reflexivity.
Qed.

Lemma rawRecord_present (r : JsVal) : rawRecord r = true -> nullish r = false.
Proof.
  unfold rawRecord; intros H; apply andb_prop in H as [H _].
  apply andb_prop in H as [N _]; now apply negb_true_iff in N.
Qed.

(** The callback raises in three cases and no other. *)
Lemma shapeRecord_throws (objectType r : JsVal) :
  shapeRecord objectType r = Throw TypeError
  <-> nullish r = true
      \/ extractRecordName r = Throw TypeError
      \/ flattenLocal (attributeValues r) = Throw TypeError.
Proof.
  destruct (nullish r) eqn:N.
  - rewrite shapeRecord_absent by exact N; split; auto.
  - destruct (shapeRecord_present objectType r N)
      as [id [email [company [_ [_ ->]]]]].
    destruct (extractRecordName r) as [name|e]; cbn [bind].
    + destruct (flattenLocal (attributeValues r)) as [flat|e]; cbn [bind].
      * split; [discriminate|intros [H|[H|H]]; discriminate].
      * destruct e; split; auto.
    + destruct e; split; auto.
Qed.

Lemma Exists_nullish_dec (l : list JsVal) :
  Exists (fun r => nullish r = true) l \/ Forall (fun r => nullish r = false) l.
Proof.
  induction l as [|a l [IH|IH]]; [right; constructor|left; right; exact IH|].
  destruct (nullish a) eqn:N; [left; left; exact N|right; constructor; assumption].
Qed.

End ShapeFacts.

(* ================================================================== *)
(** ** Pipeline entries *)

Module PipelineFacts.

Import Js Helpers Spec Aux PipelineNotions JsFacts ShapeFacts.
Local Open Scope js_scope.

Lemma entryValues_truthy (entry : JsVal) :
  truthyValues (entryValues entry) = true.
Proof.
  unfold entryValues.
  destruct (truthy (readProp entry "entry_values")) eqn:A; [exact A|].
  destruct (truthyValues (readValues entry)) eqn:B; [exact B|reflexivity].
Qed.

Lemma entryValuesOf_ok (entry : JsVal) :
  nullish entry = false -> entryValuesOf entry = Ok (entryValues entry).
Proof.
  intros N; unfold entryValuesOf, entryValues.
  rewrite getProp_ok, bind_ok by exact N.
  destruct (truthy (readProp entry "entry_values")); [reflexivity|].
  rewrite getValues_ok, bind_ok, orMapping_value by exact N; reflexivity.
Qed.

Lemma primaryField (values : Values) (key : string) :
  truthyValues values = true ->
  getField values key ?. "0" = Ok (primaryValue values key).
Proof. apply NameFacts.primary_ok. Qed.

(** How a record id is shown. *)
Lemma shown_cases (prefix : string) (names : NameMap) (id : JsVal) :
  (Ok (mapGet names id) <||> labelled prefix id)
  = if printable id then Ok (shownAs prefix names id) else Throw TypeError.
Proof.
  rewrite orElse_ok, labelled_cases; unfold shownAs, printable.
  destruct (unprintable id) eqn:U; cbn [negb].
  - destruct id; try discriminate U; reflexivity.
  - destruct (truthy (mapGet names id)); reflexivity.
Qed.

Lemma amount_cases (entry : JsVal) :
  (value <- (Ok (amountValue entry) ?. "currency_value"
             <??> Ok (amountValue entry) ?. "value" <??> Ok JNull) ;;
   numberOrNull value)
  = match rawAmount entry with
    | Some amount =>
        if printable amount then Ok (resolvedValue entry) else Throw TypeError
    | None => Ok None
    end.
Proof.
  rewrite !optDot_ok, !coalesce_value, bind_ok, numberOrNull_cases.
  unfold resolvedValue, rawAmount, printable.
  destruct (nullish (readProp (amountValue entry) "currency_value")) eqn:C;
    cbn [negb].
  - destruct (nullish (readProp (amountValue entry) "value")) eqn:V; cbn [negb].
    + reflexivity.
    + rewrite not_null by exact V.
      destruct (unprintable (readProp (amountValue entry) "value")); reflexivity.
  - rewrite not_null by exact C.
    destruct (unprintable (readProp (amountValue entry) "currency_value"));
      reflexivity.
Qed.

Lemma recordName_cases (names : NameMap) (entry : JsVal) :
  (if truthy (recordIdOf entry)
   then Ok (mapGet names (recordIdOf entry)) <||> labelled "Record " (recordIdOf entry)
   else Ok (JStr "Unknown"))
  = if printable (recordIdOf entry) then Ok (recordNameOf names entry)
    else Throw TypeError.
Proof.
  unfold recordNameOf; destruct (truthy (recordIdOf entry)) eqn:T.
  - apply shown_cases.
  - now rewrite (falsy_printable _ T).
Qed.

(** One turn of the [map] callback: on a raw entry the shaped entry carries
    the resolved stage and value, and the stage map is bumped under the
    entry's label; on any other entry the callback raises. *)
Lemma shapeEntry_cases (names : NameMap) (entry : JsVal) (stageMap : StageMap) :
  shapeEntry names entry stageMap
  = if rawEntry entry
    then Ok (shapedEntry names entry,
             bumpStage (stageLabel (shapedEntry names entry))
                       (resolvedValue entry) stageMap)
    else Throw TypeError.
Proof.
  unfold rawEntry; destruct (nullish entry) eqn:N; cbn [negb andb].
  { unfold shapeEntry, entryValuesOf, getProp; rewrite N; reflexivity. }
  pose proof (entryValues_truthy entry) as T.
  unfold shapeEntry.
  rewrite entryValuesOf_ok, bind_ok by exact N.
  rewrite !primaryField, !bind_ok by exact T.
  rewrite !optDot_ok, !orElse_value, bind_ok.
  fold (stageOf entry).
  rewrite orElse_value, bind_ok; fold (amountValue entry).
  pose proof (amount_cases entry) as A; unfold bind at 1 in A.
  rewrite !optDot_ok, !coalesce_value in A |- *; rewrite bind_ok.
  cbn beta in A; rewrite A; clear A.
  assert (V : match rawAmount entry with
              | Some amount => printable amount
              | None => true
              end = false ->
              match rawAmount entry with
              | Some amount =>
                  if printable amount then Ok (resolvedValue entry)
                  else Throw TypeError
              | None => Ok None
              end = Throw TypeError).
  { destruct (rawAmount entry) as [amount|]; [intros ->; reflexivity|discriminate]. }
  assert (W : match rawAmount entry with
              | Some amount => printable amount
              | None => true
              end = true ->
              match rawAmount entry with
              | Some amount =>
                  if printable amount then Ok (resolvedValue entry)
                  else Throw TypeError
              | None => Ok None
              end = Ok (resolvedValue entry)).
  { unfold resolvedValue; destruct (rawAmount entry) as [amount|];
      [intros ->; reflexivity|reflexivity]. }
  destruct (match rawAmount entry with
            | Some amount => printable amount
            | None => true
            end); [rewrite (W eq_refl)|rewrite (V eq_refl); reflexivity].
  rewrite bind_ok, !(dot_ok entry), !orElse_value, bind_ok by exact N.
  fold (recordIdOf entry); rewrite recordName_cases.
  destruct (printable (recordIdOf entry)); cbn [andb bind]; reflexivity.
Qed.

Lemma shapeEntries_cases (names : NameMap) (entryList : list JsVal)
  (stageMap : StageMap) :
  shapeEntries names entryList stageMap
  = if forallb rawEntry entryList
    then Ok (map (shapedEntry names) entryList,
             tally (map (shapedEntry names) entryList) stageMap)
    else Throw TypeError.
Proof.
  revert stageMap; induction entryList as [|entry rest IH]; intros stageMap;
    [reflexivity|].
  cbn [shapeEntries forallb]; rewrite shapeEntry_cases.
  destruct (rawEntry entry); cbn [bind andb snd fst]; [|reflexivity].
  rewrite IH; destruct (forallb rawEntry rest); reflexivity.
Qed.

End PipelineFacts.

(* ================================================================== *)
(** ** The stage map *)

Module TallyFacts.

Import Js Helpers Spec Aux JsFacts PipelineFacts.

Lemma sameValueZero_text (a b : JsVal) :
  isString a = true -> isString b = true ->
  sameValueZero a b = true <-> a = b.
Proof.
  destruct a, b; cbn; try discriminate; intros _ _.
  rewrite String.eqb_eq; split; congruence.
Qed.

Lemma sameValueZero_text_sym (a b : JsVal) :
  isString a = true -> isString b = true ->
  sameValueZero a b = sameValueZero b a.
Proof.
  destruct a, b; cbn; try discriminate; intros _ _; apply String.eqb_sym.
Qed.

Lemma bumpStage_keys (k : JsVal) (v : option number) (m : StageMap) (k' : JsVal) :
  In k' (map fst (bumpStage k v m)) -> k' = k \/ In k' (map fst m).
Proof.
  induction m as [|[k1 s1] m IH]; cbn.
  - intros [<-|[]]; left; reflexivity.
  - destruct (sameValueZero k1 k); cbn; [tauto|].
    intros [H|H]; [tauto|]. destruct (IH H); tauto.
Qed.

Lemma bumpStage_text (k : JsVal) (v : option number) (m : StageMap) :
  isString k = true -> textKeys m -> textKeys (bumpStage k v m).
Proof.
  intros Hk; induction 1 as [|[k1 s1] m H1 Ht IH]; cbn.
  - repeat constructor; exact Hk.
  - destruct (sameValueZero k1 k); constructor; cbn in *; assumption.
Qed.

Lemma bumpStage_NoDup (k : JsVal) (v : option number) (m : StageMap) :
  isString k = true -> textKeys m ->
  NoDup (map fst m) -> NoDup (map fst (bumpStage k v m)).
Proof.
  intros Hk Ht; induction Ht as [|[k1 s1] m H1 Ht IH]; cbn; intros Hn.
  - constructor; [intros []|constructor].
  - inversion Hn as [|? ? Hnot Hn']; subst.
    destruct (sameValueZero k1 k) eqn:E; cbn; [constructor; assumption|].
    constructor; [|apply IH, Hn'].
    intros Hin; apply bumpStage_keys in Hin as [->|Hin]; [|contradiction].
    cbn in H1; rewrite (proj2 (sameValueZero_text k k H1 H1) eq_refl) in E.
    discriminate.
Qed.

Lemma statsAt_bumpStage (k k' : JsVal) (v : option number) (m : StageMap) :
  isString k = true -> isString k' = true -> textKeys m ->
  statsAt k (bumpStage k' v m)
  = if sameValueZero k k' then accumulate v (statsAt k m) else statsAt k m.
Proof.
  intros Hk Hk'; induction 1 as [|[k1 s1] m H1 _ IH]; cbn in *.
  - now rewrite (sameValueZero_text_sym k' k).
  - destruct (sameValueZero k1 k') eqn:E1; cbn;
      destruct (sameValueZero k1 k) eqn:E2.
    + apply sameValueZero_text in E1, E2; try assumption; subst.
      now rewrite (proj2 (sameValueZero_text k k Hk Hk) eq_refl).
    + destruct (sameValueZero k k') eqn:E3; [|reflexivity].
      apply sameValueZero_text in E1, E3; try assumption; subst.
      rewrite (proj2 (sameValueZero_text k' k' Hk' Hk') eq_refl) in E2.
      discriminate.
    + destruct (sameValueZero k k') eqn:E3; [|reflexivity].
      apply sameValueZero_text in E2, E3; try assumption; subst.
      rewrite (proj2 (sameValueZero_text k' k' Hk' Hk') eq_refl) in E1.
      discriminate.
    + exact IH.
Qed.

Lemma statsAt_In (k : JsVal) (s : StageStats.t) (m : StageMap) :
  textKeys m -> NoDup (map fst m) -> In (k, s) m -> statsAt k m = s.
Proof.
  induction 1 as [|[k1 s1] m H1 Ht IH]; cbn; intros Hn Hin; [contradiction|].
  inversion Hn as [|? ? Hnot Hn']; subst.
  destruct Hin as [E|Hin].
  - injection E as -> ->.
    now rewrite (proj2 (sameValueZero_text k k H1 H1) eq_refl).
  - destruct (sameValueZero k1 k) eqn:E; [|apply IH; assumption].
    assert (Hk : isString k = true).
    { rewrite Forall_forall in Ht; exact (Ht _ Hin). }
    apply sameValueZero_text in E; [|assumption..]; subst.
    exfalso; apply Hnot; apply (in_map fst) in Hin; exact Hin.
Qed.

Lemma tally_text (es : list PipelineEntry.t) :
  Forall textStage es ->
  forall m : StageMap, textKeys m -> textKeys (tally es m).
Proof.
  induction 1 as [|e es He _ IH]; intros m Ht; cbn; [exact Ht|].
  apply IH, bumpStage_text; assumption.
Qed.

(** Every stage of the final map holds the stats accumulated, in entry
    order, from the entries carrying its label. *)
Lemma tally_stats (es : list PipelineEntry.t) :
  Forall textStage es ->
  forall m : StageMap,
    textKeys m -> NoDup (map fst m) ->
    forall k s, In (k, s) (tally es m) ->
                s = accumulated (filter (inStage k) es) (statsAt k m).
Proof.
  intros Hes m Ht Hn k s Hin.
  assert (Hk : isString k = true).
  { pose proof (tally_text es Hes m Ht) as H.
    unfold textKeys in H; rewrite Forall_forall in H; exact (H _ Hin). }
  revert m Ht Hn Hin.
  induction Hes as [|e es He _ IH]; intros m Ht Hn Hin; cbn in *.
  - symmetry; apply statsAt_In; assumption.
  - pose proof (bumpStage_text _ (PipelineEntry.value e) m He Ht) as Ht'.
    pose proof (bumpStage_NoDup _ (PipelineEntry.value e) m He Ht Hn) as Hn'.
    specialize (IH _ Ht' Hn' Hin).
    rewrite statsAt_bumpStage in IH by assumption.
    unfold inStage at 1; destruct (sameValueZero k (stageLabel e)); exact IH.
Qed.

Lemma accumulated_count (members : list PipelineEntry.t) (s : StageStats.t) :
  StageStats.count (accumulated members s)
  = StageStats.count s + List.length members.
Proof.
  revert s; induction members as [|e ms IH]; intros s; cbn; [lia|].
  unfold accumulated in IH; rewrite IH.
  destruct (PipelineEntry.value e); cbn; lia.
Qed.

Lemma accumulated_hasValue (members : list PipelineEntry.t) (s : StageStats.t) :
  StageStats.hasValue (accumulated members s)
  = StageStats.hasValue s || existsb contributed members.
Proof.
  revert s; induction members as [|e ms IH]; intros s; cbn;
    [now rewrite orb_false_r|].
  unfold accumulated in IH; rewrite IH; unfold contributed.
  destruct (PipelineEntry.value e); cbn; [now rewrite orb_true_r|reflexivity].
Qed.

Lemma accumulated_total (members : list PipelineEntry.t) (s : StageStats.t) :
  StageStats.total (accumulated members s)
  = fold_left (fun acc e => match PipelineEntry.value e with
                            | Some x => JsNumber.add acc x
                            | None => acc
                            end) members (StageStats.total s).
Proof.
  revert s; induction members as [|e ms IH]; intros s; cbn; [reflexivity|].
  unfold accumulated in IH; rewrite IH.
  destruct (PipelineEntry.value e); reflexivity.
Qed.

(** The reported stages are the per-label summaries of the shaped entries. *)
Lemma stages_summarise (es : list PipelineEntry.t) (s : PipelineStageSummary.t) :
  Forall textStage es ->
  In s (map stageSummary (tally es [])) ->
  s = stageSummaryOf (PipelineStageSummary.stage s) es.
Proof.
  intros Hes Hin; apply in_map_iff in Hin as [[k st] [<- Hin]].
  pose proof (tally_stats es Hes [] (Forall_nil _) (NoDup_nil _) k st Hin) as E.
  cbn [statsAt] in E.
  unfold stageSummary, stageSummaryOf; cbn [fst snd PipelineStageSummary.stage].
  rewrite E, accumulated_count, accumulated_hasValue, accumulated_total.
  reflexivity.
Qed.

Lemma NaN_absorbs_left (x : number) : JsNumber.add JsNumber.NaN x = JsNumber.NaN.
Proof. destruct x; reflexivity. Qed.

Lemma NaN_absorbs_right (x : number) : JsNumber.add x JsNumber.NaN = JsNumber.NaN.
Proof. destruct x; reflexivity. Qed.

(** One [NaN] among the members and the running total is [NaN]. *)
Lemma runningTotal_NaN (members : list PipelineEntry.t) (e : PipelineEntry.t) :
  In e members -> PipelineEntry.value e = Some JsNumber.NaN ->
  runningTotal members = JsNumber.NaN.
Proof.
  unfold runningTotal; generalize JsNumber.posZero.
  induction members as [|m ms IH]; intros acc Hin Hv; [contradiction|].
  cbn; destruct Hin as [->|Hin].
  - rewrite Hv, NaN_absorbs_right.
    clear; induction ms as [|m ms IH]; cbn; [reflexivity|].
    destruct (PipelineEntry.value m); rewrite ?NaN_absorbs_left; exact IH.
  - apply IH; assumption.
Qed.

End TallyFacts.


(* ================================================================== *)
(** ** The pipeline summary *)

Module SummaryFacts.

Import Js Helpers Spec Aux PipelineNotions JsFacts PipelineFacts TallyFacts.
Local Open Scope js_scope.

(** The summary of an array of entries: it returns when all of them are raw
    entries, and raises otherwise. *)
Lemma computePipelineSummary_cases (listId listName : string)
  (entryList : list JsVal) (names : NameMap) :
  computePipelineSummary listId listName (JArr entryList) names
  = if forallb rawEntry entryList
    then let es := map (shapedEntry names) entryList in
         Ok (PipelineSummary.make listId listName (List.length es)
               (map stageSummary (tally es [])) es)
    else Throw TypeError.
Proof.
  unfold computePipelineSummary; cbn [entryListOf isArray asArray].
  rewrite bind_ok, shapeEntries_cases.
  destruct (forallb rawEntry entryList); reflexivity.
Qed.

Lemma computePipelineSummary_ok (listId listName : string)
  (entryList : list JsVal) (names : NameMap) :
  Forall (fun e => rawEntry e = true) entryList ->
  exists es,
    computePipelineSummary listId listName (JArr entryList) names
    = Ok (PipelineSummary.make listId listName (List.length es)
            (map stageSummary (tally es [])) es) /\
    es = map (shapedEntry names) entryList /\
    map PipelineEntry.stage es = map stageOf entryList /\
    map PipelineEntry.value es = map resolvedValue entryList.
Proof.
  intros H; apply forallb_Forall in H.
  exists (map (shapedEntry names) entryList).
  rewrite computePipelineSummary_cases, H.
  split; [reflexivity|split; [reflexivity|]].
  rewrite !map_map; split; reflexivity.
Qed.

Lemma existsb_contributed_false (members : list PipelineEntry.t) :
  existsb contributed members = false <->
  forall e, In e members -> PipelineEntry.value e = None.
Proof.
  induction members as [|m ms IH]; cbn; [tauto|].
  rewrite orb_false_iff, IH; unfold contributed; split.
  - intros [Hm Hms] e [<-|He]; [destruct (PipelineEntry.value m); congruence|auto].
  - intros H; split; [rewrite (H m) by auto; reflexivity|auto].
Qed.

End SummaryFacts.

(* ================================================================== *)
(** ** Insertion and order *)

Module SortFacts.

Import Js Aux JsFacts.
Local Open Scope js_scope.

Section Insertion.

Context {A : Type}.
Variable lt : A -> A -> bool.

Lemma insertSorted_perm (x : A) (l : list A) :
  Permutation (insertSorted lt x l) (x :: l).
Proof.
  induction l as [|y l IH]; cbn; [reflexivity|].
  destruct (lt x y); [reflexivity|].
  rewrite IH; apply perm_swap.
Qed.

Lemma sortLoop_perm (l acc : list A) :
  Permutation (fold_left (fun acc x => insertSorted lt x acc) l acc) (acc ++ l).
Proof.
  revert acc; induction l as [|x l IH]; intros acc; cbn.
  - now rewrite app_nil_r.
  - rewrite IH, insertSorted_perm; cbn; apply Permutation_middle.
Qed.

Lemma sortWith_perm (l : list A) : Permutation (sortWith lt l) l.
Proof. unfold sortWith; now rewrite sortLoop_perm. Qed.

(** The order the comparator induces on the elements in [Q]: [x] goes
    before [y] when [lt x y], and that question is a strict total order's. *)
Variable Q : A -> Prop.
Hypothesis lt_asym : forall x y, Q x -> Q y -> lt x y = true -> lt y x = false.
Hypothesis lt_le_trans :
  forall x y z, Q x -> Q y -> Q z ->
                lt x y = true -> lt z y = false -> lt x z = true.

Lemma insertSorted_head (x : A) (l : list A) :
  Forall (fun z => lt x z = true) l -> insertSorted lt x l = x :: l.
Proof. destruct 1 as [|z l Hz _]; cbn; [reflexivity|now rewrite Hz]. Qed.

Lemma insertSorted_Q (x : A) (l : list A) :
  Q x -> Forall Q l -> Forall Q (insertSorted lt x l).
Proof.
  intros Hx Hl; eapply Permutation_Forall;
    [symmetry; apply insertSorted_perm|constructor; assumption].
Qed.

Lemma insertSorted_sorted (x : A) (l : list A) :
  Q x -> Forall Q l ->
  StronglySorted (notAfter lt) l -> StronglySorted (notAfter lt) (insertSorted lt x l).
Proof.
  intros Hx Hl Hs; induction Hs as [|y l Hs IH Hy]; cbn.
  - repeat constructor.
  - inversion Hl as [|? ? Qy Ql]; subst.
    destruct (lt x y) eqn:E.
    + constructor; [constructor; assumption|].
      constructor; [unfold notAfter; apply lt_asym; assumption|].
      rewrite Forall_forall in *; intros z Hz; unfold notAfter.
      apply lt_asym; [assumption|apply Ql, Hz|].
      apply (lt_le_trans x y z); auto. apply Hy, Hz.
    + constructor; [apply IH, Ql|].
      eapply Permutation_Forall; [symmetry; apply insertSorted_perm|].
      constructor; [exact E|exact Hy].
Qed.

(** Dropping elements before or after an insertion comes to the same. *)
Lemma filter_insertSorted (p : A -> bool) (x : A) (l : list A) :
  Q x -> Forall Q l -> StronglySorted (notAfter lt) l ->
  filter p (insertSorted lt x l)
  = if p x then insertSorted lt x (filter p l) else filter p l.
Proof.
  intros Hx Hl Hs; induction Hs as [|y l Hs IH Hy]; cbn.
  - destruct (p x); reflexivity.
  - inversion Hl as [|? ? Qy Ql]; subst.
    destruct (lt x y) eqn:E; cbn.
    + destruct (p x); [|reflexivity].
      symmetry; apply insertSorted_head.
      assert (Hall : Forall (fun z => lt x z = true) (y :: l)).
      { constructor; [exact E|].
        rewrite Forall_forall in *; intros z Hz.
        apply (lt_le_trans x y z); auto. apply Hy, Hz. }
      exact (ShapeFacts.Forall_filter _ p (y :: l) Hall).
    + rewrite (IH Ql).
      destruct (p y), (p x); cbn; rewrite ?E; reflexivity.
Qed.

Lemma filter_sortLoop (p : A -> bool) (l acc : list A) :
  Forall Q l -> Forall Q acc -> StronglySorted (notAfter lt) acc ->
  filter p (fold_left (fun acc x => insertSorted lt x acc) l acc)
  = fold_left (fun acc x => insertSorted lt x acc) (filter p l) (filter p acc).
Proof.
  intros Hl; revert acc; induction Hl as [|x l Hx Hl IH]; intros acc Ha Hs; cbn.
  - reflexivity.
  - rewrite IH;
      [|apply insertSorted_Q; assumption|apply insertSorted_sorted; assumption].
    rewrite filter_insertSorted by assumption.
    destruct (p x); reflexivity.
Qed.

(** Sorting and then dropping elements, or dropping them and then sorting. *)
Lemma filter_sortWith (p : A -> bool) (l : list A) :
  Forall Q l -> filter p (sortWith lt l) = sortWith lt (filter p l).
Proof.
  intros Hl; unfold sortWith.
  apply (filter_sortLoop p l []); [exact Hl|constructor..].
Qed.

Lemma sortLoop_sorted (l acc : list A) :
  Forall Q l -> Forall Q acc -> StronglySorted (notAfter lt) acc ->
  StronglySorted (notAfter lt) (fold_left (fun acc x => insertSorted lt x acc) l acc).
Proof.
  intros Hl; revert acc; induction Hl as [|x l Hx Hl IH]; intros acc Ha Hs; cbn.
  - exact Hs.
  - apply IH; [apply insertSorted_Q|apply insertSorted_sorted]; assumption.
Qed.

Lemma sortWith_sorted (l : list A) :
  Forall Q l -> StronglySorted (notAfter lt) (sortWith lt l).
Proof. intros Hl; apply sortLoop_sorted; [exact Hl|constructor..]. Qed.

End Insertion.

Lemma filter_comm {A : Type} (p q : A -> bool) (l : list A) :
  filter p (filter q l) = filter q (filter p l).
Proof.
  induction l as [|a l IH]; cbn; [reflexivity|].
  destruct (p a) eqn:P, (q a) eqn:R; cbn; rewrite ?P, ?R, IH; reflexivity.
Qed.

Lemma filter_split_perm {A : Type} (p : A -> bool) (l : list A) :
  Permutation (filter p l ++ filter (fun a => negb (p a)) l) l.
Proof.
  induction l as [|a l IH]; cbn; [reflexivity|].
  destruct (p a); cbn; [now rewrite IH|].
  rewrite <- Permutation_middle; now rewrite IH.
Qed.

(** Lexicographic order on strings: the two facts the sort needs. *)
Lemma string_ltb_asym (s t : string) :
  String.ltb s t = true -> String.ltb t s = false.
Proof.
  unfold String.ltb; pose proof (String_as_OT.cmp_antisym t s) as H.
  unfold String_as_OT.cmp in H; rewrite H.
  destruct (String.compare s t); cbn; congruence.
Qed.

Lemma string_ltb_le_trans (s t u : string) :
  String.ltb s t = true -> String.ltb u t = false -> String.ltb s u = true.
Proof.
  unfold String.ltb; intros Hst Hut.
  destruct (String.compare s t) eqn:Est; try discriminate.
  destruct (String.compare u t) eqn:Eut; try discriminate.
  - apply String_as_OT.cmp_eq in Eut; subst; now rewrite Est.
  - assert (Etu : String.compare t u = Lt).
    { pose proof (String_as_OT.cmp_antisym u t) as H.
      unfold String_as_OT.cmp in H; rewrite Eut in H.
      destruct (String.compare t u); cbn in H; congruence. }
    apply String_as_OT.cmp_lt in Est, Etu.
    pose proof (String_as_OT.lt_trans _ _ _ Est Etu) as H.
    apply String_as_OT.cmp_lt in H; unfold String_as_OT.cmp in H.
    now rewrite H.
Qed.

(** Two questions that agree on the elements give the same arrangement. *)
Lemma sortWith_ext {A : Type} (lt1 lt2 : A -> A -> bool) (l : list A) :
  (forall a b, In a l -> In b l -> lt1 a b = lt2 a b) ->
  sortWith lt1 l = sortWith lt2 l.
Proof.
  intros H; unfold sortWith.
  assert (G : forall l' acc,
             (forall a, In a l' -> In a l) -> (forall a, In a acc -> In a l) ->
             fold_left (fun acc x => insertSorted lt1 x acc) l' acc
             = fold_left (fun acc x => insertSorted lt2 x acc) l' acc).
  { induction l' as [|x l' IH]; intros acc Hl Ha; cbn; [reflexivity|].
    assert (E : insertSorted lt1 x acc = insertSorted lt2 x acc).
    { clear IH; induction acc as [|y acc IHa]; cbn; [reflexivity|].
      rewrite (H x y) by first [apply Hl; left; reflexivity | apply Ha; left; reflexivity].
      rewrite IHa by (intros a Hin; apply Ha; right; exact Hin); reflexivity. }
    rewrite E; apply IH; [intros a Hin; apply Hl; right; exact Hin|].
    intros a Hin.
    apply (Permutation_in _ (insertSorted_perm lt2 x acc)) in Hin.
    destruct Hin as [<-|Hin]; [apply Hl; left; reflexivity|apply Ha, Hin]. }
  apply G; [auto|intros a []].
Qed.

Section Fallible.

Context {A : Type}.
Variable ltM : A -> A -> result bool.
Variable lt : A -> A -> bool.
Variable S : A -> Prop.
Hypothesis ltM_pure : forall a b, S a -> S b -> ltM a b = Ok (lt a b).

Lemma insertSortedM_pure (x : A) (l : list A) :
  S x -> Forall S l -> insertSortedM ltM x l = Ok (insertSorted lt x l).
Proof.
  intros Hx; induction 1 as [|y l Hy _ IH]; cbn; [reflexivity|].
  rewrite (ltM_pure x y Hx Hy), bind_ok.
  destruct (lt x y); [reflexivity|now rewrite IH].
Qed.

Lemma sortLoopM_pure (l acc : list A) :
  Forall S l -> Forall S acc ->
  sortLoopM ltM l acc = Ok (fold_left (fun acc x => insertSorted lt x acc) l acc).
Proof.
  intros Hl; revert acc; induction Hl as [|x l Hx _ IH]; intros acc Ha; cbn.
  - reflexivity.
  - rewrite (insertSortedM_pure x acc Hx Ha), bind_ok.
    apply IH.
    eapply Permutation_Forall; [symmetry; apply insertSorted_perm|].
    constructor; assumption.
Qed.

(** A comparator that does not throw on the elements sorts as its pure
    counterpart does. *)
Lemma sortWithM_pure (l : list A) :
  Forall S l -> sortWithM ltM l = Ok (sortWith lt l).
Proof. intros Hl; apply sortLoopM_pure; [exact Hl|constructor]. Qed.

End Fallible.

Section Raising.

Context {A : Type}.
Variable ltM : A -> A -> result bool.
Variable lt : A -> A -> bool.

(** The elements the comparator can compare: it raises as soon as one of
    its two arguments is not among them. *)
Variable good : A -> bool.
Hypothesis ltM_cases :
  forall a b, ltM a b = if good a && good b then Ok (lt a b) else Throw TypeError.

Lemma ltM_good (a b : A) :
  (fun x => good x = true) a -> (fun x => good x = true) b ->
  ltM a b = Ok (lt a b).
Proof. cbn beta; intros Ha Hb; now rewrite ltM_cases, Ha, Hb. Qed.

Lemma insertSortedM_bad (x y : A) (l : list A) :
  good x && good y = false -> insertSortedM ltM x (y :: l) = Throw TypeError.
Proof. intros H; cbn; now rewrite ltM_cases, H. Qed.

Lemma sortLoopM_bad (l acc : list A) :
  acc <> [] -> Forall (fun x => good x = true) acc -> forallb good l = false ->
  sortLoopM ltM l acc = Throw TypeError.
Proof.
  revert acc; induction l as [|x l IH]; intros acc Hne Ha Hl; [discriminate|].
  cbn [sortLoopM]; destruct (good x) eqn:Gx.
  - rewrite (insertSortedM_pure ltM lt _ ltM_good x acc Gx Ha), bind_ok.
    apply IH.
    + intros E; apply (f_equal (@List.length A)) in E.
      rewrite (Permutation_length (insertSorted_perm lt x acc)) in E.
      discriminate.
    + eapply Permutation_Forall; [symmetry; apply insertSorted_perm|].
      constructor; assumption.
    + cbn in Hl; rewrite Gx in Hl; exact Hl.
  - destruct acc as [|y acc]; [congruence|].
    rewrite insertSortedM_bad by (now rewrite Gx); reflexivity.
Qed.

(** A sort of two or more elements compares each of them; one of fewer
    compares nothing. *)
Lemma sortWithM_cases (l : list A) :
  sortWithM ltM l
  = if Nat.ltb (List.length l) 2 || forallb good l then Ok (sortWith lt l)
    else Throw TypeError.
Proof.
  destruct (forallb good l) eqn:G.
  - rewrite orb_true_r.
    apply (sortWithM_pure ltM lt _ ltM_good), forallb_Forall, G.
  - rewrite orb_false_r.
    destruct l as [|x [|y l]]; [discriminate G|reflexivity|].
    cbn [List.length Nat.ltb Nat.leb].
    unfold sortWithM.
    change (sortLoopM ltM (x :: y :: l) []) with (sortLoopM ltM (y :: l) [x]).
    destruct (good x) eqn:Gx.
    + apply sortLoopM_bad; [discriminate|repeat constructor; exact Gx|].
      cbn [forallb] in G; rewrite Gx in G; exact G.
    + cbn [sortLoopM]; rewrite insertSortedM_bad; [reflexivity|].
      rewrite Gx; apply andb_false_r.
Qed.

End Raising.

End SortFacts.

(* ================================================================== *)
(** ** The pipeline summary, case by case *)

Module PipelineCases.
Import Js Helpers Spec Aux ShapeNotions PipelineNotions.
Import JsFacts ShapeFacts PipelineFacts TallyFacts SummaryFacts.
Local Open Scope js_scope.

Lemma mapGet_text (names : NameMap) (id : JsVal) :
  truthy (mapGet names id) = true -> isText (mapGet names id).
Proof.
  unfold mapGet; destruct id; cbn; try discriminate.
  destruct (assoc s names) as [name|]; cbn; [|discriminate].
  destruct name; cbn; [discriminate|intros _].
  eexists; split; [reflexivity|discriminate].
Qed.

Lemma shownAs_text (prefix : string) (names : NameMap) (id : JsVal) :
  prefix <> "" -> isText (shownAs prefix names id).
Proof.
  intros Hp; unfold shownAs.
  destruct (truthy (mapGet names id)) eqn:T; [apply mapGet_text, T|].
  eexists; split; [reflexivity|].
  destruct prefix; [congruence|discriminate].
Qed.

Lemma recordNameOf_text (names : NameMap) (entry : JsVal) :
  isText (recordNameOf names entry).
Proof.
  unfold recordNameOf; destruct (truthy (recordIdOf entry)).
  - apply shownAs_text; discriminate.
  - eexists; split; [reflexivity|discriminate].
Qed.

Lemma stageOf_nullOrTruthy (entry : JsVal) : nullOrTruthy (stageOf entry).
Proof. unfold stageOf; repeat apply nullOrTruthy_or; apply nullOrTruthy_null. Qed.

Lemma tally_shaped (es : list PipelineEntry.t) (stageMap : StageMap) :
  tally es stageMap
  = fold_left (fun m kv => bumpStage (fst kv) (snd kv) m)
      (map (fun e => (stageLabel e, PipelineEntry.value e)) es) stageMap.
Proof.
  unfold tally; revert stageMap; induction es as [|e es IH]; intros m; cbn;
    [reflexivity|apply IH].
Qed.

(** The summary of an array of raw entries, in full. *)
Lemma summary_shaped (listId listName : string) (entryList : list JsVal)
  (names : NameMap) :
  Forall (fun e => rawEntry e = true) entryList ->
  computePipelineSummary listId listName (JArr entryList) names
  = Ok (PipelineSummary.make listId listName (List.length entryList)
          (map stageSummary (tally (map (shapedEntry names) entryList) []))
          (map (shapedEntry names) entryList)).
Proof.
  intros H; apply forallb_Forall in H.
  rewrite computePipelineSummary_cases, H; cbv zeta; now rewrite length_map.
Qed.

Lemma summary_throws (listId listName : string) (entryList : list JsVal)
  (names : NameMap) :
  Exists (fun e => rawEntry e = false) entryList ->
  computePipelineSummary listId listName (JArr entryList) names = Throw TypeError.
Proof.
  intros H; apply forallb_false_Exists in H.
  now rewrite computePipelineSummary_cases, H.
Qed.

(** What [entries] is taken for. *)
Lemma entryListOf_cases (entries : JsVal) :
  entryListOf entries
  = match entries with
    | JArr l => Ok l
    | _ => if truthy (optProp entries "data") then asArray (optProp entries "data")
           else Ok []
    end.
Proof.
  unfold entryListOf; destruct (isArray entries) eqn:A.
  - destruct entries; try discriminate; reflexivity.
  - rewrite optDot_ok, orElse_value, bind_ok, <- optProp_readProp.
    destruct entries; try discriminate;
      destruct (truthy (optProp _ "data")); reflexivity.
Qed.

Lemma summary_by_list (listId listName : string) (entries : JsVal)
  (names : NameMap) (l : list JsVal) :
  entryListOf entries = Ok l ->
  computePipelineSummary listId listName entries names
  = computePipelineSummary listId listName (JArr l) names.
Proof. intros H; unfold computePipelineSummary; rewrite H; reflexivity. Qed.

Lemma counted_bump (k : JsVal) (v : option number) (m : StageMap) :
  counted (bumpStage k v m) = S (counted m).
Proof.
  unfold counted, list_sum; induction m as [|[k1 s1] m IH]; cbn [bumpStage].
  - destruct v; reflexivity.
  - destruct (sameValueZero k1 k); cbn [map fold_right snd].
    + destruct v; cbn; lia.
    + rewrite IH; lia.
Qed.

Lemma counted_tally (es : list PipelineEntry.t) (m : StageMap) :
  counted (tally es m) = counted m + List.length es.
Proof.
  unfold tally; revert m; induction es as [|e es IH]; intros m;
    cbn [fold_left List.length]; [lia|].
  rewrite IH, counted_bump; lia.
Qed.

Lemma positive_bump (k : JsVal) (v : option number) (m : StageMap) :
  Forall (fun ks => 1 <= StageStats.count (snd ks)) m ->
  Forall (fun ks => 1 <= StageStats.count (snd ks)) (bumpStage k v m).
Proof.
  induction 1 as [|[k1 s1] m H1 Hm IH]; cbn.
  - constructor; [destruct v; cbn; lia|constructor].
  - destruct (sameValueZero k1 k); constructor; cbn in *; try assumption.
    destruct v; cbn; lia.
Qed.

Lemma positive_tally (es : list PipelineEntry.t) (m : StageMap) :
  Forall (fun ks => 1 <= StageStats.count (snd ks)) m ->
  Forall (fun ks => 1 <= StageStats.count (snd ks)) (tally es m).
Proof.
  unfold tally; revert m; induction es as [|e es IH]; intros m H; cbn;
    [exact H|apply IH, positive_bump, H].
Qed.

(** The keys of the stage map. *)
Lemma keys_bump (k : JsVal) (v : option number) (m : StageMap) :
  map fst (bumpStage k v m)
  = if seenBefore (map fst m) k then map fst m else map fst m ++ [k].
Proof.
  unfold seenBefore; induction m as [|[k1 s1] m IH]; cbn; [reflexivity|].
  destruct (sameValueZero k1 k); cbn; [reflexivity|].
  rewrite IH; destruct (existsb _ (map fst m)); reflexivity.
Qed.

Lemma keys_tally (es : list PipelineEntry.t) (m : StageMap) :
  map fst (tally es m)
  = fold_left (fun seen k => if seenBefore seen k then seen else seen ++ [k])
      (map stageLabel es) (map fst m).
Proof.
  unfold tally; revert m; induction es as [|e es IH]; intros m; cbn;
    [reflexivity|].
  now rewrite IH, keys_bump.
Qed.

Lemma tally_NoDup (es : list PipelineEntry.t) :
  Forall textStage es ->
  forall m, textKeys m -> NoDup (map fst m) -> NoDup (map fst (tally es m)).
Proof.
  induction 1 as [|e es He _ IH]; intros m Ht Hn; cbn; [exact Hn|].
  apply IH; [apply bumpStage_text|apply bumpStage_NoDup]; assumption.
Qed.

Lemma stage_keys (m : StageMap) :
  map PipelineStageSummary.stage (map stageSummary m) = map fst m.
Proof. rewrite map_map; reflexivity. Qed.

Lemma stage_counts (m : StageMap) :
  list_sum (map PipelineStageSummary.count (map stageSummary m)) = counted m.
Proof. rewrite map_map; reflexivity. Qed.

(** Every summary is the summary of a list of raw entries. *)
Lemma summary_inv (listId listName : string) (entries : JsVal) (names : NameMap)
  (p : PipelineSummary.t) :
  computePipelineSummary listId listName entries names = Ok p ->
  exists l,
    entryListOf entries = Ok l /\
    Forall (fun e => rawEntry e = true) l /\
    p = PipelineSummary.make listId listName (List.length l)
          (map stageSummary (tally (map (shapedEntry names) l) []))
          (map (shapedEntry names) l).
Proof.
  intros H.
  destruct (entryListOf entries) as [l|] eqn:E;
    [|unfold computePipelineSummary in H; rewrite E in H; discriminate].
  rewrite (summary_by_list _ _ _ _ l E) in H.
  exists l; split; [reflexivity|].
  destruct (forallb rawEntry l) eqn:R.
  - apply forallb_Forall in R; rewrite (summary_shaped _ _ _ _ R) in H.
    split; [exact R|congruence].
  - apply forallb_false_Exists in R.
    rewrite (summary_throws _ _ _ _ R) in H; discriminate.
Qed.

End PipelineCases.

(* ================================================================== *)
(** ** Task enrichment *)

Module TaskFacts.

Import Js Helpers Spec Aux ShapeNotions PipelineNotions TaskNotions.
Import JsFacts ShapeFacts PipelineFacts SortFacts.
Local Open Scope js_scope.

Lemma present_ok (v : JsVal) : present v = true -> nullish v = false.
Proof. unfold present; now destruct (nullish v). Qed.

(** The field [t.<p> || []] as the receiver of [.map]. *)
Lemma listField_cases (v : JsVal) :
  bind (orElse (Ok v) (Ok (JArr []))) asArray
  = match listField v with
    | Some items => Ok items
    | None => Throw TypeError
    end.
Proof.
  unfold listField; rewrite orElse_value, bind_ok.
  destruct (truthy v); [destruct v; reflexivity|reflexivity].
Qed.

Lemma assigneeName_cases (memberMap : NameMap) (a : JsVal) :
  assigneeName memberMap a
  = if shows actorIdOf a then Ok (shownAs "User " memberMap (actorIdOf a))
    else Throw TypeError.
Proof.
  unfold shows, present; destruct (nullish a) eqn:N; cbn [negb andb].
  - unfold assigneeName, dot, getProp; cbn; now rewrite N.
  - unfold assigneeName.
    rewrite !dot_ok, !orElse_value, bind_ok by exact N.
    apply shown_cases.
Qed.

Lemma linkedRecordName_cases (names : NameMap) (lr : JsVal) :
  linkedRecordName names lr
  = if shows linkedIdOf lr then Ok (shownAs "Record " names (linkedIdOf lr))
    else Throw TypeError.
Proof.
  unfold shows, present; destruct (nullish lr) eqn:N; cbn [negb andb].
  - unfold linkedRecordName, dot, getProp; cbn; now rewrite N.
  - unfold linkedRecordName.
    rewrite !dot_ok, !orElse_value, bind_ok by exact N.
    apply shown_cases.
Qed.

(** The [map] callback on one task, in full. *)
Lemma enrichTask_cases (memberMap names : NameMap) (t : JsVal) :
  enrichTask memberMap names t
  = if enrichable t then Ok (enrichedTask memberMap names t) else Throw TypeError.
Proof.
  unfold enrichable; change (present t) with (negb (nullish t)).
  destruct (nullish t) eqn:N; cbn [negb andb].
  { unfold enrichTask, dot, getProp; cbn; now rewrite N. }
  unfold enrichTask, enrichedTask, listOf.
  rewrite (dot_ok t "assignees") by exact N.
  pose proof (listField_cases (readProp t "assignees")) as Ea.
  rewrite orElse_value, bind_ok in Ea; rewrite orElse_value, bind_ok, Ea.
  destruct (listField (readProp t "assignees")) as [assignees|]; [|reflexivity].
  rewrite bind_ok.
  rewrite (mapM_cases _ _ _ assignees (assigneeName_cases memberMap)).
  destruct (forallb (shows actorIdOf) assignees); cbn [andb bind];
    [|destruct (listField (readProp t "linked_records")); reflexivity].
  rewrite (dot_ok t "linked_records") by exact N.
  pose proof (listField_cases (readProp t "linked_records")) as El.
  rewrite orElse_value, bind_ok in El; rewrite orElse_value, bind_ok, El.
  destruct (listField (readProp t "linked_records")) as [linked|]; [|reflexivity].
  rewrite bind_ok.
  rewrite (mapM_cases _ _ _ linked (linkedRecordName_cases names)).
  destruct (forallb (shows linkedIdOf) linked); cbn [andb bind]; [|reflexivity].
  repeat (progress rewrite ?(dot_ok t), ?optDot_ok, ?orElse_value, ?getProp_ok,
            ?bind_ok by exact N).
  reflexivity.
Qed.

Lemma enrichAll_cases (memberMap names : NameMap) (tasks : list JsVal) :
  mapM (enrichTask memberMap names) tasks
  = if forallb enrichable tasks then Ok (map (enrichedTask memberMap names) tasks)
    else Throw TypeError.
Proof. apply mapM_cases, enrichTask_cases. Qed.

Lemma rawTask_enrichable (tasks : list JsVal) :
  Forall (fun t => rawTask t = true) tasks -> forallb enrichable tasks = true.
Proof.
  intros H; apply forallb_Forall; eapply Forall_impl; [|exact H].
  intros t Ht; unfold rawTask in Ht; now apply andb_prop in Ht as [Ht _].
Qed.

Lemma enrichAll_total (memberMap names : NameMap) (tasks : list JsVal) :
  Forall (fun t => rawTask t = true) tasks ->
  mapM (enrichTask memberMap names) tasks
  = Ok (map (enrichedTask memberMap names) tasks).
Proof. intros H; now rewrite enrichAll_cases, rawTask_enrichable. Qed.

(** The comparator returns on two deadlines that have a primitive value,
    and raises otherwise. *)
Lemma deadlineBefore_cases (a b : EnrichedTask.t) :
  deadlineBefore a b
  = if comparable a && comparable b then Ok (dueBefore a b) else Throw TypeError.
Proof.
  unfold dueBefore, comparable, printable.
  pose proof (lessThan_throws (EnrichedTask.deadline a) (EnrichedTask.deadline b))
    as H; fold (deadlineBefore a b) in H.
  destruct (unprintable (EnrichedTask.deadline a)); cbn [negb andb];
    [apply H; auto|].
  destruct (unprintable (EnrichedTask.deadline b)); cbn [negb andb];
    [apply H; auto|].
  destruct (deadlineBefore a b) as [before|e]; [reflexivity|].
  destruct e; destruct (proj1 H eq_refl); discriminate.
Qed.

(** Everything after the enrichment: the sort compares the tasks with a
    deadline when there are two of them or more. *)
Lemma groupTasks_cases (enriched : list EnrichedTask.t) :
  groupTasks enriched
  = if Nat.ltb (List.length (filter hasDeadline enriched)) 2
       || forallb comparable (filter hasDeadline enriched)
    then Ok (sortThenPartition enriched)
    else Throw TypeError.
Proof.
  unfold groupTasks.
  rewrite (sortWithM_cases deadlineBefore dueBefore comparable deadlineBefore_cases).
  destruct (Nat.ltb _ 2 || forallb comparable _); reflexivity.
Qed.

Lemma comparable_enriched (memberMap names : NameMap) (tasks : list JsVal) :
  Forall (fun t => rawTask t = true) tasks ->
  Forall (fun t => comparable t = true) (map (enrichedTask memberMap names) tasks).
Proof.
  intros H; apply Forall_map; eapply Forall_impl; [|exact H].
  intros t Ht; unfold rawTask in Ht; apply andb_prop in Ht as [_ Ht]; exact Ht.
Qed.

Lemma groupTasks_comparable (enriched : list EnrichedTask.t) :
  Forall (fun t => comparable t = true) enriched ->
  groupTasks enriched = Ok (sortThenPartition enriched).
Proof.
  intros H; rewrite groupTasks_cases.
  replace (forallb comparable (filter hasDeadline enriched)) with true;
    [now rewrite orb_true_r|].
  symmetry; apply forallb_Forall, Forall_filter, H.
Qed.

Lemma enrichTasks_raw (tasks : list JsVal) (memberMap names : NameMap) :
  Forall (fun t => rawTask t = true) tasks ->
  enrichTasks tasks memberMap names
  = Ok (sortThenPartition (map (enrichedTask memberMap names) tasks)).
Proof.
  intros H; unfold enrichTasks.
  rewrite (enrichAll_total memberMap names tasks H), bind_ok.
  apply groupTasks_comparable, comparable_enriched, H.
Qed.

Lemma deadlineOrder_perm (l : list EnrichedTask.t) :
  Permutation (deadlineOrder l) l.
Proof.
  unfold deadlineOrder; rewrite sortWith_perm; apply filter_split_perm.
Qed.

Lemma dated_filter (l : list EnrichedTask.t) :
  Forall textDeadline l -> Forall datedTask (filter hasDeadline l).
Proof.
  induction 1 as [|t l Ht _ IH]; cbn; [constructor|].
  destruct (hasDeadline t) eqn:E; [|exact IH].
  constructor; [|exact IH].
  unfold textDeadline, hasDeadline, datedTask in *.
  destruct (EnrichedTask.deadline t); try contradiction; try discriminate.
  eexists; reflexivity.
Qed.

Lemma dueBefore_text (x y : EnrichedTask.t) (s t : string) :
  EnrichedTask.deadline x = JStr s -> EnrichedTask.deadline y = JStr t ->
  dueBefore x y = String.ltb s t.
Proof. unfold dueBefore, deadlineBefore; intros -> ->; reflexivity. Qed.

Lemma dueBefore_asym (x y : EnrichedTask.t) :
  datedTask x -> datedTask y -> dueBefore x y = true -> dueBefore y x = false.
Proof.
  intros [s Hs] [t Ht].
  rewrite (dueBefore_text x y s t Hs Ht), (dueBefore_text y x t s Ht Hs).
  apply string_ltb_asym.
Qed.

Lemma dueBefore_le_trans (x y z : EnrichedTask.t) :
  datedTask x -> datedTask y -> datedTask z ->
  dueBefore x y = true -> dueBefore z y = false -> dueBefore x z = true.
Proof.
  intros [s Hs] [t Ht] [u Hu].
  rewrite (dueBefore_text x y s t Hs Ht), (dueBefore_text z y u t Hu Ht),
    (dueBefore_text x z s u Hs Hu).
  apply string_ltb_le_trans.
Qed.

Lemma filter_deadlineOrder (p : EnrichedTask.t -> bool) (l : list EnrichedTask.t) :
  Forall textDeadline l ->
  filter p (deadlineOrder l) = deadlineOrder (filter p l).
Proof.
  intros H; unfold deadlineOrder.
  rewrite filter_app.
  rewrite (filter_sortWith dueBefore datedTask dueBefore_asym
             dueBefore_le_trans p _ (dated_filter l H)).
  now rewrite (filter_comm p hasDeadline), (filter_comm p noDeadline).
Qed.

Lemma deadlineOrder_ascending (l : list EnrichedTask.t) :
  Forall textDeadline l ->
  StronglySorted deadlineNotAfter (sortWith dueBefore (filter hasDeadline l)).
Proof.
  intros H.
  exact (sortWith_sorted dueBefore datedTask dueBefore_asym
           dueBefore_le_trans _ (dated_filter l H)).
Qed.

Lemma textDeadline_comparable (l : list EnrichedTask.t) :
  Forall textDeadline l -> Forall (fun t => comparable t = true) l.
Proof.
  intros H; eapply Forall_impl; [|exact H].
  intros t Ht; unfold textDeadline, comparable in *.
  destruct (EnrichedTask.deadline t); try contradiction; reflexivity.
Qed.

End TaskFacts.

(* ================================================================== *)
(** ** Task enrichment, case by case *)

Module TaskCases.
Import Js Helpers Spec Aux ShapeNotions PipelineNotions TaskNotions.
Import JsFacts ShapeFacts SortFacts TaskFacts PipelineCases.
Local Open Scope js_scope.

Lemma forallb_present (l : list JsVal) :
  forallb present l = true <-> Forall (fun v => nullish v = false) l.
Proof.
  rewrite forallb_forall, Forall_forall; unfold present.
  split; intros H v Hv; specialize (H v Hv); destruct (nullish v); cbn in *;
    congruence.
Qed.

Lemma enrichTasks_cases (tasks : list JsVal) (memberMap names : NameMap) :
  enrichTasks tasks memberMap names
  = if forallb enrichable tasks
    then groupTasks (map (enrichedTask memberMap names) tasks)
    else Throw TypeError.
Proof.
  unfold enrichTasks; rewrite enrichAll_cases.
  destruct (forallb enrichable tasks); reflexivity.
Qed.

(** Whatever enrichment returns is the partition of the sorted enriched
    tasks. *)
Lemma enrichTasks_inv (tasks : list JsVal) (memberMap names : NameMap)
  (groups : TaskGroups.t) :
  enrichTasks tasks memberMap names = Ok groups ->
  forallb enrichable tasks = true /\
  groups = sortThenPartition (map (enrichedTask memberMap names) tasks).
Proof.
  rewrite enrichTasks_cases, groupTasks_cases.
  destruct (forallb enrichable tasks); [|discriminate].
  destruct (Nat.ltb _ 2 || forallb comparable _); [|discriminate].
  intros H; split; [reflexivity|congruence].
Qed.

Lemma contentOf_nullOrTruthy (t : JsVal) : nullOrTruthy (contentOf t).
Proof. unfold contentOf; repeat apply nullOrTruthy_or; apply nullOrTruthy_null. Qed.

Lemma deadlineOf_nullOrTruthy (t : JsVal) : nullOrTruthy (deadlineOf t).
Proof. unfold deadlineOf; repeat apply nullOrTruthy_or; apply nullOrTruthy_null. Qed.

Lemma sortThenPartition_perm (enriched : list EnrichedTask.t) :
  Permutation (TaskGroups.open (sortThenPartition enriched)
               ++ TaskGroups.completed (sortThenPartition enriched)) enriched.
Proof.
  cbn [sortThenPartition TaskGroups.open TaskGroups.completed].
  unfold isOpen.
  rewrite (Permutation_app_comm _ _), (filter_split_perm EnrichedTask.isCompleted).
  apply deadlineOrder_perm.
Qed.

(** Elements none of which goes before another stay as they are. *)
Lemma insertSorted_last {A : Type} (lt : A -> A -> bool) (x : A) (l : list A) :
  Forall (fun y => lt x y = false) l -> insertSorted lt x l = l ++ [x].
Proof.
  induction 1 as [|y l Hy _ IH]; cbn; [reflexivity|now rewrite Hy, IH].
Qed.

Lemma sortWith_flat {A : Type} (lt : A -> A -> bool) (l : list A) :
  (forall x y, In x l -> In y l -> lt x y = false) -> sortWith lt l = l.
Proof.
  intros H; unfold sortWith.
  assert (G : forall l' acc,
             (forall x y, In x (acc ++ l') -> In y (acc ++ l') -> lt x y = false) ->
             fold_left (fun acc x => insertSorted lt x acc) l' acc = acc ++ l').
  { induction l' as [|x l' IH]; intros acc Hall; cbn; [now rewrite app_nil_r|].
    rewrite insertSorted_last.
    - rewrite IH, <- app_assoc; [reflexivity|].
      intros a b Ha Hb; rewrite <- app_assoc in Ha, Hb; apply Hall; assumption.
    - apply Forall_forall; intros y Hy; apply Hall; apply in_or_app;
        [right; left; reflexivity|left; exact Hy]. }
  apply (G l []); exact H.
Qed.

Lemma ltb_irrefl (s : string) : JsString.ltb s s = false.
Proof.
  unfold JsString.ltb; destruct (String.ltb s s) eqn:E; [|reflexivity].
  pose proof (string_ltb_asym s s E); congruence.
Qed.

Lemma filter_true {A : Type} (p : A -> bool) (l : list A) :
  Forall (fun a => p a = true) l -> filter p l = l.
Proof. induction 1 as [|a l Ha _ IH]; cbn; [reflexivity|now rewrite Ha, IH]. Qed.

Lemma filter_false {A : Type} (p : A -> bool) (l : list A) :
  Forall (fun a => p a = false) l -> filter p l = [].
Proof. induction 1 as [|a l Ha _ IH]; cbn; [reflexivity|now rewrite Ha, IH]. Qed.

(** Tasks that are all due on the same day are left in the order they
    have. *)
Lemma deadlineOrder_flat (d : JsVal) (l : list EnrichedTask.t) :
  Forall textDeadline l -> Forall (fun t => dueOn d t = true) l ->
  deadlineOrder l = l.
Proof.
  intros Ht Hd; unfold deadlineOrder.
  assert (Hall : Forall (fun t => EnrichedTask.deadline t = d) l).
  { rewrite Forall_forall in *; intros t Hin.
    specialize (Ht t Hin); specialize (Hd t Hin).
    unfold textDeadline, dueOn in *.
    destruct (EnrichedTask.deadline t); try contradiction;
      destruct d; cbn in Hd; try discriminate; [reflexivity|].
    apply String.eqb_eq in Hd; now subst. }
  destruct (truthy d) eqn:T.
  - rewrite (filter_true hasDeadline), (filter_false noDeadline).
    + rewrite app_nil_r; apply sortWith_flat; intros x y Hx Hy.
      rewrite Forall_forall in Hall, Ht.
      specialize (Ht x Hx); unfold textDeadline in Ht.
      pose proof (Hall x Hx) as Ex; pose proof (Hall y Hy) as Ey.
      rewrite Ex in Ht.
      destruct d as [| | | |s| |]; try contradiction; try discriminate.
      rewrite (dueBefore_text x y s s Ex Ey); apply ltb_irrefl.
    + eapply Forall_impl; [|exact Hall].
      intros t E; unfold noDeadline, hasDeadline; now rewrite E, T.
    + eapply Forall_impl; [|exact Hall].
      intros t E; unfold hasDeadline; now rewrite E, T.
  - rewrite (filter_false hasDeadline), (filter_true noDeadline).
    + reflexivity.
    + eapply Forall_impl; [|exact Hall].
      intros t E; unfold noDeadline, hasDeadline; now rewrite E, T.
    + eapply Forall_impl; [|exact Hall].
      intros t E; unfold hasDeadline; now rewrite E, T.
Qed.

Lemma Forall_filter_true {A : Type} (p : A -> bool) (l : list A) :
  Forall (fun a => p a = true) (filter p l).
Proof. apply Forall_forall; intros a Ha; apply filter_In in Ha; tauto. Qed.

Lemma same_day_order (d : JsVal) (p : EnrichedTask.t -> bool)
  (l : list EnrichedTask.t) :
  Forall textDeadline l ->
  filter (dueOn d) (filter p (deadlineOrder l)) = filter (dueOn d) (filter p l).
Proof.
  intros Ht.
  rewrite (filter_deadlineOrder p l Ht).
  rewrite (filter_deadlineOrder (dueOn d) (filter p l))
    by (apply Forall_filter, Ht).
  apply (deadlineOrder_flat d);
    [apply Forall_filter, Forall_filter, Ht|apply Forall_filter_true].
Qed.

End TaskCases.

(* ================================================================== *)
(** ** The timeline *)

Module TimelineFacts.

Import Js Helpers Spec Aux JsFacts ShapeFacts SortFacts TaskFacts.
Local Open Scope js_scope.

Section Collation.

Variable localeCompare : string -> string -> Z.

Lemma eventBefore_pure (a b : TimelineEvent.t) :
  textDate a -> textDate b ->
  eventBefore localeCompare a b = Ok (beforeUnder localeCompare a b).
Proof.
  unfold textDate, eventBefore, compareEvents, beforeUnder, hasDate, dateText.
  destruct (TimelineEvent.date a) as [| | | |s| |]; try contradiction; intros _;
    destruct (TimelineEvent.date b) as [| | | |t| |]; try contradiction; intros _;
    cbn; try reflexivity.
  - destruct t; reflexivity.
  - destruct s; reflexivity.
  - destruct s as [|c s]; cbn; [destruct t; reflexivity|].
    destruct t as [|d t]; reflexivity.
Qed.

Lemma insert_datedFirst (x : TimelineEvent.t) (l : list TimelineEvent.t) :
  StronglySorted datedFirst l ->
  StronglySorted datedFirst (insertSorted (beforeUnder localeCompare) x l).
Proof.
  induction 1 as [|y l Hs IH Hy]; cbn; [repeat constructor|].
  destruct (beforeUnder localeCompare x y) eqn:E.
  - constructor; [constructor; assumption|].
    apply andb_prop in E as [Dx _].
    apply Forall_forall; intros z _ _; exact Dx.
  - constructor; [exact IH|].
    eapply Permutation_Forall; [symmetry; apply insertSorted_perm|].
    constructor; [|exact Hy].
    intros Dx; unfold beforeUnder in E; rewrite Dx in E; cbn in E.
    apply orb_false_elim in E as [E _]; now apply negb_false_iff in E.
Qed.

(** Whatever the collation, the undated events end up after the hasDate. *)
Lemma sort_datedFirst (l : list TimelineEvent.t) :
  StronglySorted datedFirst (sortWith (beforeUnder localeCompare) l).
Proof.
  unfold sortWith; generalize (@nil TimelineEvent.t) (SSorted_nil datedFirst).
  induction l as [|x l IH]; intros acc Ha; cbn; [exact Ha|].
  apply IH, insert_datedFirst, Ha.
Qed.

(** A collation that ranks makes the comparator's question a strict weak
    order. *)
Lemma beforeUnder_asym (x y : TimelineEvent.t) :
  ranks localeCompare ->
  True -> True ->
  beforeUnder localeCompare x y = true -> beforeUnder localeCompare y x = false.
Proof.
  intros [Hasym _] _ _; unfold beforeUnder; intros H.
  apply andb_prop in H as [Dx H]; rewrite Dx; cbn.
  destruct (hasDate y); cbn in *; [|reflexivity].
  apply Hasym, H.
Qed.

Lemma beforeUnder_le_trans (x y z : TimelineEvent.t) :
  ranks localeCompare ->
  True -> True -> True ->
  beforeUnder localeCompare x y = true -> beforeUnder localeCompare z y = false ->
  beforeUnder localeCompare x z = true.
Proof.
  intros [_ Htrans] _ _ _; unfold beforeUnder; intros Hxy Hzy.
  apply andb_prop in Hxy as [Dx Hxy]; rewrite Dx; cbn.
  destruct (hasDate z) eqn:Dz; cbn in *; [|reflexivity].
  destruct (hasDate y); cbn in *; [|discriminate].
  exact (Htrans _ _ _ Hxy Hzy).
Qed.

(** Under a collation that ranks, the sort leaves no event before one that
    the collation ranks after it. *)
Lemma sort_rankedLaterFirst (l : list TimelineEvent.t) :
  ranks localeCompare ->
  StronglySorted (rankedLaterFirst localeCompare)
                 (sortWith (beforeUnder localeCompare) l).
Proof.
  intros R.
  pose proof (sortWith_sorted (beforeUnder localeCompare) (fun _ => True)
                (fun x y => beforeUnder_asym x y R)
                (fun x y z => beforeUnder_le_trans x y z R) l
                (proj2 (Forall_forall _ _) (fun _ _ => I))) as H.
  induction H as [|a out Hs IH Ha]; constructor; [exact IH|].
  eapply Forall_impl; [|exact Ha].
  intros b Hb Da Db; unfold notAfter, beforeUnder in Hb.
  rewrite Db, Da in Hb; exact Hb.
Qed.

End Collation.

Lemma beforeLexical_spec (a b : TimelineEvent.t) :
  beforeLexical a b
  = hasDate a && (negb (hasDate b) || String.ltb (dateText b) (dateText a)).
Proof.
  unfold beforeLexical, beforeUnder.
  destruct (String.ltb (dateText b) (dateText a)); reflexivity.
Qed.

Lemma string_le_lt_trans (s t u : string) :
  String.ltb t s = true -> String.ltb t u = false -> String.ltb u s = true.
Proof.
  intros Hts Htu.
  destruct (String.ltb u s) eqn:E; [reflexivity|].
  rewrite (string_ltb_le_trans t s u Hts E) in Htu; discriminate.
Qed.

Lemma beforeLexical_asym (x y : TimelineEvent.t) :
  True -> True -> beforeLexical x y = true -> beforeLexical y x = false.
Proof.
  intros _ _; rewrite !beforeLexical_spec; intros H.
  apply andb_prop in H as [Dx H]; rewrite Dx; cbn.
  destruct (hasDate y); cbn in *; [|reflexivity].
  now apply string_ltb_asym.
Qed.

Lemma beforeLexical_le_trans (x y z : TimelineEvent.t) :
  True -> True -> True ->
  beforeLexical x y = true -> beforeLexical z y = false ->
  beforeLexical x z = true.
Proof.
  intros _ _ _; rewrite !beforeLexical_spec; intros Hxy Hzy.
  apply andb_prop in Hxy as [Dx Hxy]; rewrite Dx; cbn.
  destruct (hasDate z) eqn:Dz; cbn in *; [|reflexivity].
  destruct (hasDate y); cbn in *; [|discriminate].
  exact (string_le_lt_trans _ _ _ Hxy Hzy).
Qed.

Lemma sort_laterFirst (l : list TimelineEvent.t) :
  StronglySorted laterFirst (sortWith beforeLexical l).
Proof.
  pose proof (sortWith_sorted beforeLexical (fun _ => True) beforeLexical_asym
                beforeLexical_le_trans l
                (proj2 (Forall_forall _ _) (fun _ _ => I))) as H.
  induction H as [|a out Hs IH Ha]; constructor; [exact IH|].
  eapply Forall_impl; [|exact Ha].
  intros b Hb Da Db; unfold notAfter in Hb.
  rewrite beforeLexical_spec, Db, Da in Hb; exact Hb.
Qed.


Lemma event_total (f : JsVal -> result TimelineEvent.t) (l : list JsVal) :
  (forall v, present v = true -> exists e, f v = Ok e) ->
  Forall (fun v => present v = true) l -> exists es, mapM f l = Ok es.
Proof.
  intros Hf Hl; apply mapM_total; eapply Forall_impl; [|exact Hl]; exact Hf.
Qed.

Lemma noteEvent_total (v : JsVal) :
  present v = true -> exists e, noteEvent v = Ok e.
Proof.
  intros H; apply present_ok in H; eexists; unfold noteEvent.
  repeat (progress rewrite ?(dot_ok v), ?optDot_ok, ?orElse_value, ?bind_ok
            by exact H).
  reflexivity.
Qed.

Lemma meetingEvent_total (v : JsVal) :
  present v = true -> exists e, meetingEvent v = Ok e.
Proof.
  intros H; apply present_ok in H; eexists; unfold meetingEvent.
  repeat (progress rewrite ?(dot_ok v), ?optDot_ok, ?orElse_value, ?bind_ok
            by exact H).
  reflexivity.
Qed.

Lemma threadEvent_total (v : JsVal) :
  present v = true -> exists e, threadEvent v = Ok e.
Proof.
  intros H; apply present_ok in H; eexists; unfold threadEvent.
  repeat (progress rewrite ?(dot_ok v), ?optDot_ok, ?orElse_value, ?bind_ok
            by exact H).
  reflexivity.
Qed.

Lemma normalised_total (notes meetings threads : list JsVal) :
  Forall (fun v => present v = true) (notes ++ meetings ++ threads) ->
  exists events, normalised notes meetings threads = Ok events.
Proof.
  intros H; apply Forall_app in H as [Hn H]; apply Forall_app in H as [Hm Ht].
  destruct (event_total _ _ noteEvent_total Hn) as [ns Hns].
  destruct (event_total _ _ meetingEvent_total Hm) as [ms Hms].
  destruct (event_total _ _ threadEvent_total Ht) as [ts Hts].
  unfold normalised; rewrite Hns, Hms, Hts; cbn; eexists; reflexivity.
Qed.

Lemma buildActivityTimeline_normalised (localeCompare : string -> string -> Z)
  (notes meetings threads : list JsVal) :
  buildActivityTimeline localeCompare notes meetings threads
  = bind (normalised notes meetings threads)
         (sortWithM (eventBefore localeCompare)).
Proof.
  unfold buildActivityTimeline, normalised.
  destruct (mapM noteEvent notes); cbn; [|reflexivity].
  destruct (mapM meetingEvent meetings); cbn; [|reflexivity].
  destruct (mapM threadEvent threads); reflexivity.
Qed.

(** On events with text dates the timeline is the pure sort. *)
Lemma timeline_sorted (localeCompare : string -> string -> Z)
  (notes meetings threads : list JsVal) (events : list TimelineEvent.t) :
  normalised notes meetings threads = Ok events ->
  Forall textDate events ->
  buildActivityTimeline localeCompare notes meetings threads
  = Ok (sortWith (beforeUnder localeCompare) events).
Proof.
  intros Hn Ht; rewrite buildActivityTimeline_normalised, Hn, bind_ok.
  apply (sortWithM_pure _ _ textDate); [|exact Ht].
  intros a b; apply eventBefore_pure.
Qed.

Lemma lexical_sort (localeCompare : string -> string -> Z)
  (events : list TimelineEvent.t) :
  lexicalOn localeCompare events ->
  sortWith (beforeUnder localeCompare) events = sortWith beforeLexical events.
Proof.
  intros H; apply sortWith_ext; intros a b Ha Hb.
  rewrite beforeLexical_spec; unfold beforeUnder.
  destruct (hasDate a) eqn:Da; [|reflexivity].
  destruct (hasDate b) eqn:Db; [|reflexivity].
  now rewrite (H b a Hb Ha Db Da).
Qed.

End TimelineFacts.

(* ================================================================== *)
(** ** The timeline, case by case *)

Module TimelineCases.
Import Js Helpers Spec Aux ShapeNotions TimelineNotions.
Import JsFacts ShapeFacts SortFacts TaskFacts TimelineFacts TaskCases.
Local Open Scope js_scope.

Lemma noteEvent_cases (n : JsVal) :
  noteEvent n = if nullish n then Throw TypeError else Ok (noteOf n).
Proof.
  destruct (nullish n) eqn:N.
  - unfold noteEvent, dot, getProp; cbn; now rewrite N.
  - unfold noteEvent.
    repeat (progress rewrite ?(dot_ok n), ?optDot_ok, ?orElse_value, ?bind_ok
              by exact N).
    reflexivity.
Qed.

Lemma meetingEvent_cases (m : JsVal) :
  meetingEvent m = if nullish m then Throw TypeError else Ok (meetingOf m).
Proof.
  destruct (nullish m) eqn:N.
  - unfold meetingEvent, dot, getProp; cbn; now rewrite N.
  - unfold meetingEvent.
    repeat (progress rewrite ?(dot_ok m), ?optDot_ok, ?orElse_value, ?bind_ok
              by exact N).
    reflexivity.
Qed.

Lemma threadEvent_cases (t : JsVal) :
  threadEvent t = if nullish t then Throw TypeError else Ok (threadOf t).
Proof.
  destruct (nullish t) eqn:N.
  - unfold threadEvent, dot, getProp; cbn; now rewrite N.
  - unfold threadEvent.
    repeat (progress rewrite ?(dot_ok t), ?optDot_ok, ?orElse_value, ?bind_ok
              by exact N).
    reflexivity.
Qed.

Lemma events_mapped (f : JsVal -> result TimelineEvent.t)
  (g : JsVal -> TimelineEvent.t) (l : list JsVal) :
  (forall v, f v = if nullish v then Throw TypeError else Ok (g v)) ->
  mapM f l = if forallb present l then Ok (map g l) else Throw TypeError.
Proof.
  intros Hf; destruct (forallb present l) eqn:P.
  - apply mapM_pure; apply forallb_present in P.
    eapply Forall_impl; [|exact P]; intros v N; now rewrite Hf, N.
  - apply mapM_throws.
    destruct (Exists_nullish_dec l) as [Hn|Hp].
    + eapply Exists_impl; [|exact Hn]; intros v N; now rewrite Hf, N.
    + apply forallb_present in Hp; congruence.
Qed.

Lemma normalised_cases (notes meetings threads : list JsVal) :
  normalised notes meetings threads
  = if forallb present (notes ++ meetings ++ threads)
    then Ok (eventsOf notes meetings threads)
    else Throw TypeError.
Proof.
  unfold normalised, eventsOf.
  rewrite (events_mapped _ _ notes noteEvent_cases),
          (events_mapped _ _ meetings meetingEvent_cases),
          (events_mapped _ _ threads threadEvent_cases), !forallb_app.
  destruct (forallb present notes), (forallb present meetings),
           (forallb present threads); reflexivity.
Qed.

(** A sort whose comparator may throw rearranges when it returns. *)
Lemma insertSortedM_perm {A : Type} (ltM : A -> A -> result bool) (x : A)
  (l out : list A) :
  insertSortedM ltM x l = Ok out -> Permutation out (x :: l).
Proof.
  revert out; induction l as [|y l IH]; cbn; intros out H.
  - injection H as <-; reflexivity.
  - destruct (ltM x y) as [[|]|]; cbn in H; try discriminate.
    + injection H as <-; reflexivity.
    + destruct (insertSortedM ltM x l) as [placed|]; cbn in H; [|discriminate].
      injection H as <-; rewrite (IH placed eq_refl); apply perm_swap.
Qed.

Lemma sortLoopM_perm {A : Type} (ltM : A -> A -> result bool)
  (l acc out : list A) :
  sortLoopM ltM l acc = Ok out -> Permutation out (acc ++ l).
Proof.
  revert acc; induction l as [|x l IH]; cbn; intros acc H.
  - injection H as <-; now rewrite app_nil_r.
  - destruct (insertSortedM ltM x acc) as [acc'|] eqn:E; cbn in H; [|discriminate].
    rewrite (IH acc' H), (insertSortedM_perm _ _ _ _ E); cbn.
    apply Permutation_middle.
Qed.

Lemma sortWithM_perm {A : Type} (ltM : A -> A -> result bool) (l out : list A) :
  sortWithM ltM l = Ok out -> Permutation out l.
Proof. apply (sortLoopM_perm ltM l []). Qed.

Lemma either_nullOrTruthy (v : JsVal) (a b : string) : nullOrTruthy (either v a b).
Proof. unfold either; repeat apply nullOrTruthy_or; apply nullOrTruthy_null. Qed.

Lemma orNull_nullOrTruthy (v : JsVal) (a : string) : nullOrTruthy (orNull v a).
Proof. unfold orNull; repeat apply nullOrTruthy_or; apply nullOrTruthy_null. Qed.

Lemma eventsOf_tidy (notes meetings threads : list JsVal) :
  Forall tidy (eventsOf notes meetings threads).
Proof.
  unfold eventsOf, tidy; repeat rewrite Forall_app; repeat split;
    apply Forall_forall; intros e He; apply in_map_iff in He as [v [<- _]]; cbn;
    repeat split;
    first [apply either_nullOrTruthy | apply orNull_nullOrTruthy].
Qed.

Lemma filter_isType_map (ty : EventType) (f : JsVal -> TimelineEvent.t)
  (l : list JsVal) (b : bool) :
  (forall v, isType ty (f v) = b) ->
  List.length (filter (isType ty) (map f l)) = if b then List.length l else 0.
Proof.
  intros H; induction l as [|v l IH]; cbn; [destruct b; reflexivity|].
  rewrite H; destruct b; cbn; now rewrite IH.
Qed.

Lemma eventsOf_count (ty : EventType) (notes meetings threads : list JsVal) :
  List.length (filter (isType ty) (eventsOf notes meetings threads))
  = match ty with
    | note => List.length notes
    | meeting => List.length meetings
    | thread => List.length threads
    end.
Proof.
  unfold eventsOf; rewrite !filter_app, !length_app.
  destruct ty.
  - rewrite (filter_isType_map note noteOf notes true),
            (filter_isType_map note meetingOf meetings false),
            (filter_isType_map note threadOf threads false) by reflexivity; lia.
  - rewrite (filter_isType_map meeting noteOf notes false),
            (filter_isType_map meeting meetingOf meetings true),
            (filter_isType_map meeting threadOf threads false) by reflexivity; lia.
  - rewrite (filter_isType_map thread noteOf notes false),
            (filter_isType_map thread meetingOf meetings false),
            (filter_isType_map thread threadOf threads true) by reflexivity; lia.
Qed.

Lemma filter_length_perm {A : Type} (p : A -> bool) (l1 l2 : list A) :
  Permutation l1 l2 -> List.length (filter p l1) = List.length (filter p l2).
Proof.
  induction 1 as [|a l1 l2 _ IH|a b l|l1 l2 l3 _ IH1 _ IH2]; cbn.
  - reflexivity.
  - destruct (p a); cbn; now rewrite IH.
  - destruct (p a), (p b); reflexivity.
  - congruence.
Qed.

Section Collation.

Variable localeCompare : string -> string -> Z.

(** An insertion leaves the undated events as they are, or adds one at
    their end. *)
Lemma undated_insert (x : TimelineEvent.t) (l : list TimelineEvent.t) :
  filter undated (insertSorted (beforeUnder localeCompare) x l)
  = filter undated l ++ (if undated x then [x] else []).
Proof.
  induction l as [|y l IH]; cbn [insertSorted filter].
  - destruct (undated x); reflexivity.
  - destruct (beforeUnder localeCompare x y) eqn:E; cbn [filter].
    + apply andb_prop in E as [Dx _].
      assert (Ux : undated x = false) by (unfold undated; now rewrite Dx).
      now rewrite Ux, app_nil_r.
    + rewrite IH; destruct (undated y); reflexivity.
Qed.

Lemma undated_sortLoop (l acc : list TimelineEvent.t) :
  filter undated
    (fold_left (fun acc x => insertSorted (beforeUnder localeCompare) x acc) l acc)
  = filter undated acc ++ filter undated l.
Proof.
  revert acc; induction l as [|x l IH]; intros acc; cbn [fold_left filter].
  - now rewrite app_nil_r.
  - rewrite IH, undated_insert, <- app_assoc.
    destruct (undated x); reflexivity.
Qed.

Lemma undated_sort (l : list TimelineEvent.t) :
  filter undated (sortWith (beforeUnder localeCompare) l) = filter undated l.
Proof. unfold sortWith; now rewrite undated_sortLoop. Qed.

End Collation.

(** Events of one date: none goes before another. *)
Lemma beforeLexical_same (d : string) (x y : TimelineEvent.t) :
  datedOn d x = true -> datedOn d y = true -> beforeLexical x y = false.
Proof.
  unfold datedOn; rewrite beforeLexical_spec; unfold hasDate, dateText.
  destruct (TimelineEvent.date x) as [| | | |s| |]; cbn; try discriminate.
  destruct (TimelineEvent.date y) as [| | | |t| |]; cbn; try discriminate.
  intros Hs Ht; apply String.eqb_eq in Hs, Ht; subst.
  destruct d; cbn; [reflexivity|apply ltb_irrefl].
Qed.

Lemma same_date_sort (d : string) (l : list TimelineEvent.t) :
  filter (datedOn d) (sortWith beforeLexical l) = filter (datedOn d) l.
Proof.
  rewrite (filter_sortWith beforeLexical (fun _ => True) beforeLexical_asym
             beforeLexical_le_trans (datedOn d) l)
    by (apply Forall_forall; intros; exact I).
  apply sortWith_flat; intros x y Hx Hy.
  apply filter_In in Hx as [_ Hx]; apply filter_In in Hy as [_ Hy].
  exact (beforeLexical_same d x y Hx Hy).
Qed.

Lemma timeline_cases (localeCompare : string -> string -> Z)
  (notes meetings threads : list JsVal) :
  buildActivityTimeline localeCompare notes meetings threads
  = if forallb present (notes ++ meetings ++ threads)
    then sortWithM (eventBefore localeCompare) (eventsOf notes meetings threads)
    else Throw TypeError.
Proof.
  rewrite buildActivityTimeline_normalised, normalised_cases.
  destruct (forallb present (notes ++ meetings ++ threads)); reflexivity.
Qed.

Lemma timeline_text (localeCompare : string -> string -> Z)
  (notes meetings threads : list JsVal) :
  Forall textDate (eventsOf notes meetings threads) ->
  buildActivityTimeline localeCompare notes meetings threads
  = if forallb present (notes ++ meetings ++ threads)
    then Ok (sortWith (beforeUnder localeCompare) (eventsOf notes meetings threads))
    else Throw TypeError.
Proof.
  intros Ht; rewrite timeline_cases.
  destruct (forallb present (notes ++ meetings ++ threads)); [|reflexivity].
  apply (sortWithM_pure _ _ textDate); [|exact Ht].
  intros a b; apply eventBefore_pure.
Qed.

End TimelineCases.

(* ================================================================== *)
(** ** The handlers *)

Module ServerFacts.
Import Js Helpers Spec Aux Server.
Import ShapeNotions PipelineNotions TaskNotions TimelineNotions ServerNotions.
Import JsFacts ShapeFacts SortFacts TaskFacts TimelineFacts.
Import PipelineCases TaskCases TimelineCases.
Local Open Scope js_scope.

Lemma filterM_kept {A : Type} (f : A -> result bool) (l kept : list A) :
  filterM f l = Ok kept -> Forall (fun a => f a = Ok true) kept.
Proof.
  revert kept; induction l as [|a l IH]; cbn; intros kept H.
  - injection H as <-; constructor.
  - destruct (f a) as [b|] eqn:E; cbn in H; [|discriminate].
    destruct (filterM f l) as [bs|]; cbn in H; [|discriminate].
    injection H as <-; destruct b; [constructor; [exact E|]|]; apply IH;
      reflexivity.
Qed.

Lemma firstn_Forall {A : Type} (P : A -> Prop) (n : nat) (l : list A) :
  Forall P l -> Forall P (firstn n l).
Proof.
  intros H; apply Forall_forall; intros a Ha.
  rewrite Forall_forall in H; apply H.
  rewrite <- (firstn_skipn n l); apply in_or_app; left; exact Ha.
Qed.

(** What a selection keeps: at most ten elements, each accepted by the
    callback. *)
Lemma firstTen_kept (keep : JsVal -> result bool) (all : JsVal) (xs : list JsVal) :
  firstTen keep all = Ok xs ->
  List.length xs <= 10 /\ Forall (fun a => keep a = Ok true) xs.
Proof.
  destruct all; cbn [firstTen];
    try (intros H; injection H as <-; split; [cbn; lia|constructor]).
  destruct (filterM keep items) as [kept|] eqn:K; cbn [bind]; [|discriminate].
  intros H; assert (E : xs = firstn 10 kept) by congruence; subst xs; split.
  - rewrite length_firstn; lia.
  - apply firstn_Forall, (filterM_kept _ _ _ K).
Qed.

Lemma selected_kept (keep : JsVal -> result bool) (call : Awaited) :
  let xs := orNone call (fun resp => all <- dataOf resp ;; firstTen keep all) in
  List.length xs <= 10 /\ Forall (fun a => keep a = Ok true) xs.
Proof.
  cbn zeta; unfold orNone.
  destruct call as [resp|]; [|split; [cbn; lia|constructor]].
  destruct (dataOf resp) as [all|]; cbn [bind]; [|split; [cbn; lia|constructor]].
  destruct (firstTen keep all) as [xs|] eqn:E; [|split; [cbn; lia|constructor]].
  exact (firstTen_kept _ _ _ E).
Qed.

Lemma accepted_present (keep : JsVal -> result bool) (a : JsVal) (b : bool) :
  (nullish a = true -> keep a = Throw TypeError) ->
  keep a = Ok b -> nullish a = false.
Proof.
  intros Hk H; destruct (nullish a); [|reflexivity].
  rewrite Hk in H by reflexivity; discriminate.
Qed.

Lemma aboutRecord_cases (objectType recordId : string) (n : JsVal) :
  aboutRecord objectType recordId n
  = if nullish n then Throw TypeError else Ok (isAbout objectType recordId n).
Proof.
  unfold aboutRecord, isAbout, getProp; destruct (nullish n); [reflexivity|].
  rewrite !bind_ok, !strictEq_tag.
  destruct (tagIs (readProp n "parent_object") objectType); reflexivity.
Qed.

Lemma someOf_throws (field : string) (test : JsVal -> result bool) (x : JsVal) :
  nullish x = true -> someOf field test x = Throw TypeError.
Proof. intros N; unfold someOf, getProp; now rewrite N. Qed.

Lemma filterM_cases (f : JsVal -> result bool) (p : JsVal -> bool)
  (l : list JsVal) :
  (forall a, f a = if nullish a then Throw TypeError else Ok (p a)) ->
  filterM f l = if forallb present l then Ok (filter p l) else Throw TypeError.
Proof.
  intros Hf; destruct (forallb present l) eqn:P.
  - apply filterM_pure; apply forallb_present in P.
    eapply Forall_impl; [|exact P]; intros a N; now rewrite Hf, N.
  - apply filterM_throws.
    destruct (Exists_nullish_dec l) as [Hn|Hp].
    + eapply Exists_impl; [|exact Hn]; intros a N; now rewrite Hf, N.
    + apply forallb_present in Hp; congruence.
Qed.

(** The selected items are never [null] or [undefined]. *)
Lemma notes_present (objectType recordId : string) (call : Awaited) :
  Forall (fun v => nullish v = false)
         (orNone call (selectNotes objectType recordId)).
Proof.
  destruct (selected_kept (aboutRecord objectType recordId) call) as [_ H].
  eapply Forall_impl; [|exact H].
  intros a Ha; apply (accepted_present _ a true) in Ha; [exact Ha|].
  intros N; now rewrite aboutRecord_cases, N.
Qed.

Lemma meetings_present (recordId : string) (call : Awaited) :
  Forall (fun v => nullish v = false) (orNone call (selectMeetings recordId)).
Proof.
  destruct (selected_kept (someOf "associated_records" (refersTo recordId)) call)
    as [_ H].
  eapply Forall_impl; [|exact H].
  intros a Ha; apply (accepted_present _ a true) in Ha; [exact Ha|].
  apply someOf_throws.
Qed.

Lemma threads_present (recordId : string) (call : Awaited) :
  Forall (fun v => nullish v = false) (orNone call (selectThreads recordId)).
Proof.
  destruct (selected_kept (someOf "linked_records" (linksTo recordId)) call)
    as [_ H].
  eapply Forall_impl; [|exact H].
  intros a Ha; apply (accepted_present _ a true) in Ha; [exact Ha|].
  apply someOf_throws.
Qed.

(** Slicing. *)
Lemma sliceTo_length {A : Type} (l : list A) (x : number) :
  List.length (sliceTo l x) <= List.length l.
Proof. unfold sliceTo; rewrite length_firstn; lia. Qed.

Lemma sliceTo_default {A : Type} (l : list A) :
  sliceTo l (JsNumber.ofZ 25) = firstn 25 l.
Proof.
  unfold sliceTo.
  replace (toIntegerOrInfinity (JsNumber.ofZ 25)) with (Finite 25)
    by (vm_compute; reflexivity).
  cbn [Z.ltb Z.compare].
  destruct (Nat.le_gt_cases 25 (List.length l)) as [H|H].
  - replace (Z.to_nat (Z.min 25 (Z.of_nat (List.length l)))) with 25 by lia.
    reflexivity.
  - replace (Z.to_nat (Z.min 25 (Z.of_nat (List.length l))))
      with (List.length l) by lia.
    now rewrite firstn_all, firstn_all2 by lia.
Qed.

Lemma sortThenPartition_length (enriched : list EnrichedTask.t) :
  List.length (TaskGroups.open (sortThenPartition enriched))
  + List.length (TaskGroups.completed (sortThenPartition enriched))
  = List.length enriched.
Proof.
  rewrite <- length_app; apply Permutation_length, sortThenPartition_perm.
Qed.

Lemma shownAs_unnamed (prefix : string) (id : JsVal) :
  shownAs prefix [] id = JStr (prefix ++ textOf id).
Proof. unfold shownAs, mapGet; destruct id; reflexivity. Qed.

(** The record and the values of a details response. *)
Lemma detailRecord_ok (recordResp : JsVal) :
  nullish recordResp = false ->
  (Ok recordResp ·. "data" ?. "data" <||> Ok recordResp ·. "data")
  = Ok (detailRecord recordResp).
Proof.
  intros N; rewrite !dot_ok, optDot_ok, orElse_value by exact N; reflexivity.
Qed.

Lemma detailValues_ok (recordResp : JsVal) :
  valuesOrEmpty (detailRecord recordResp) = Ok (detailValues recordResp).
Proof. unfold valuesOrEmpty; rewrite orMapping_value; reflexivity. Qed.

(** Lookups under a string. *)
Lemma svz_text (v : JsVal) (s : string) : sameValueZero v (JStr s) = tagIs v s.
Proof. destruct v; reflexivity. Qed.

Lemma tagIs_eq (v : JsVal) (s : string) : tagIs v s = true <-> v = JStr s.
Proof.
  destruct v; cbn; try (split; congruence).
  rewrite String.eqb_eq; split; congruence.
Qed.

Lemma svz_from_text (s : string) (v : JsVal) :
  sameValueZero (JStr s) v = true -> v = JStr s.
Proof.
  destruct v; cbn; try discriminate.
  rewrite String.eqb_eq; congruence.
Qed.

Lemma mapLookup_set (m : JsMap) (id v : JsVal) (s : string) :
  mapLookup (mapSet m id v) (JStr s)
  = if tagIs id s then v else mapLookup m (JStr s).
Proof.
  induction m as [|[k w] m IH]; cbn [mapSet mapLookup fst].
  - rewrite svz_text; reflexivity.
  - destruct (sameValueZero k id) eqn:E; cbn [mapLookup]; rewrite !svz_text.
    + destruct (tagIs k s) eqn:K.
      * apply tagIs_eq in K; subst k.
        apply svz_from_text in E; subst id; cbn; now rewrite String.eqb_refl.
      * destruct (tagIs id s) eqn:I; [|reflexivity].
        apply tagIs_eq in I; subst id; rewrite svz_text in E; congruence.
    + rewrite IH; destruct (tagIs k s) eqn:K; [|reflexivity].
      destruct (tagIs id s) eqn:I; [|reflexivity].
      apply tagIs_eq in K, I; subst; cbn in E; rewrite String.eqb_refl in E.
      discriminate.
Qed.

Lemma mapSet_truthy (m : JsMap) (id v : JsVal) :
  truthy v = true -> Forall (fun kv => truthy (snd kv) = true) m ->
  Forall (fun kv => truthy (snd kv) = true) (mapSet m id v).
Proof.
  intros T; induction 1 as [|[k w] m Hw Hm IH]; cbn [mapSet].
  - repeat constructor; exact T.
  - destruct (sameValueZero k id); constructor; cbn in *; assumption.
Qed.

Lemma memberEntry_cases (m : JsVal) :
  memberEntry m
  = if enterable m then Ok (memberIdOf m, memberNameOf m) else Throw TypeError.
Proof.
  unfold enterable; destruct (nullish m) eqn:N; cbn [negb andb].
  - unfold memberEntry, dot, getProp; cbn; now rewrite N.
  - unfold memberEntry.
    rewrite !(dot_ok m), optDot_ok, orElse_value, bind_ok by exact N.
    fold (memberIdOf m); unfold memberNameOf.
    rewrite !orElse_ok, labelled_cases; unfold printable.
    destruct (truthy (readProp m "name")); [reflexivity|].
    destruct (truthy (readProp m "email")); [reflexivity|].
    destruct (unprintable (memberIdOf m)); reflexivity.
Qed.

Lemma memberNameOf_truthy (m : JsVal) : truthy (memberNameOf m) = true.
Proof.
  unfold memberNameOf.
  destruct (truthy (readProp m "name")) eqn:A; [exact A|].
  destruct (truthy (readProp m "email")) eqn:B; [exact B|reflexivity].
Qed.

Lemma collectMembers_truthy (members : list JsVal) (m0 : JsMap) :
  Forall (fun kv => truthy (snd kv) = true) m0 ->
  Forall (fun kv => truthy (snd kv) = true) (collectMembers members m0).
Proof.
  revert m0; induction members as [|m members IH]; intros m0 H; cbn; [exact H|].
  rewrite memberEntry_cases; destruct (enterable m); [|exact H].
  apply IH, mapSet_truthy; [apply memberNameOf_truthy|exact H].
Qed.

(** A member that cannot be entered ends the loop, whatever came before
    it. *)
Lemma collectMembers_stops (before rest : list JsVal) (m : JsVal) (m0 : JsMap) :
  enterable m = false ->
  collectMembers (before ++ m :: rest) m0 = collectMembers before m0.
Proof.
  intros E; revert m0; induction before as [|b before IH]; intros m0; cbn.
  - now rewrite memberEntry_cases, E.
  - destruct (memberEntry b) as [[id name]|]; [apply IH|reflexivity].
Qed.

Lemma find_app {A : Type} (p : A -> bool) (l1 l2 : list A) :
  find p (l1 ++ l2) = match find p l1 with Some a => Some a | None => find p l2 end.
Proof.
  induction l1 as [|a l1 IH]; cbn; [reflexivity|].
  destruct (p a); [reflexivity|exact IH].
Qed.

Lemma collectMembers_lookup (members : list JsVal) (m0 : JsMap) (s : string) :
  Forall (fun v => enterable v = true) members ->
  mapLookup (collectMembers members m0) (JStr s)
  = match lastUnder s members with
    | Some m => memberNameOf m
    | None => mapLookup m0 (JStr s)
    end.
Proof.
  intros H; revert m0; induction H as [|m members N _ IH]; intros m0; cbn;
    [reflexivity|].
  rewrite memberEntry_cases, N, IH; unfold lastUnder; cbn [rev].
  rewrite find_app; cbn [find].
  destruct (find _ (rev members)); [reflexivity|].
  rewrite mapLookup_set; destruct (tagIs (memberIdOf m) s); reflexivity.
Qed.

End ServerFacts.

(* ================================================================== *)
(** ** The names of a pipeline *)

Module NamingFacts.
Import Js Helpers Spec Aux Server.
Import ShapeNotions PipelineNotions ServerNotions NamingNotions.
Import JsFacts ShapeFacts PipelineCases ServerFacts.
Local Open Scope js_scope.

Lemma entryValuesOrNone_ok (entry : JsVal) :
  nullish entry = false -> entryValuesOrNone entry = Ok (namingValues entry).
Proof.
  intros N; unfold entryValuesOrNone, namingValues.
  rewrite getProp_ok, bind_ok by exact N.
  destruct (truthy (readProp entry "entry_values")); [reflexivity|].
  apply getValues_ok, N.
Qed.

(** One turn of the loop, when it returns. *)
Lemma nameEntry_inv (m m' : JsMap) (entry : JsVal) :
  nameEntry m entry = Ok m' ->
  m' = if truthy (recordIdOf entry) && negb (mapHas m (recordIdOf entry))
          && yieldsName entry
       then mapSet m (recordIdOf entry) (nameOfEntry entry)
       else m.
Proof.
  destruct (nullish entry) eqn:N.
  { unfold nameEntry, dot, getProp; cbn; rewrite N; discriminate. }
  unfold nameEntry.
  rewrite !(dot_ok entry), !orElse_value, bind_ok by exact N.
  fold (recordIdOf entry).
  destruct (truthy (recordIdOf entry) && negb (mapHas m (recordIdOf entry)));
    [|cbn [andb]; congruence].
  rewrite entryValuesOrNone_ok, bind_ok by exact N.
  unfold yieldsName, nameOfEntry.
  destruct (extractNameOfValues (namingValues entry)) as [name|];
    cbn [bind andb]; [|discriminate].
  destruct (negb (strictEq name (JStr "Unknown"))); congruence.
Qed.

Lemma mapHas_set (m : JsMap) (id v : JsVal) (s : string) :
  mapHas (mapSet m id v) (JStr s) = tagIs id s || mapHas m (JStr s).
Proof.
  unfold mapHas; induction m as [|[k w] m IH]; cbn [mapSet existsb fst].
  - rewrite svz_text; reflexivity.
  - destruct (sameValueZero k id) eqn:E; cbn [existsb fst]; rewrite !svz_text.
    + destruct (tagIs k s) eqn:K; [now rewrite orb_true_r|].
      destruct (tagIs id s) eqn:I; [|reflexivity].
      apply tagIs_eq in I; subst id; rewrite svz_text in E; congruence.
    + rewrite IH; destruct (tagIs k s), (tagIs id s); reflexivity.
Qed.

Lemma absent_lookup (m : JsMap) (s : string) :
  mapHas m (JStr s) = false -> mapLookup m (JStr s) = JUndefined.
Proof.
  unfold mapHas; induction m as [|[k w] m IH]; cbn; [reflexivity|].
  destruct (sameValueZero k (JStr s)); cbn; [discriminate|exact IH].
Qed.

(** What the map holds for a record after the loop: what it held before,
    or else the name of the first entry of the record to yield one. *)
Lemma nameEntries_lookup (entryList : list JsVal) (s : string) :
  s <> "" ->
  forall m0 m : JsMap,
    nameEntries entryList m0 = Ok m ->
    mapLookup m (JStr s)
    = if mapHas m0 (JStr s) then mapLookup m0 (JStr s)
      else match find (namesRecord (JStr s)) entryList with
           | Some first => nameOfEntry first
           | None => JUndefined
           end.
Proof.
  intros Hs; induction entryList as [|entry rest IH]; intros m0 m H;
    cbn [nameEntries find] in *.
  - injection H as <-.
    destruct (mapHas m0 (JStr s)) eqn:E; [reflexivity|apply absent_lookup, E].
  - destruct (nameEntry m0 entry) as [m1|] eqn:E1; cbn [bind] in H; [|discriminate].
    apply nameEntry_inv in E1; subst m1.
    specialize (IH _ _ H); rewrite IH; clear IH H.
    unfold namesRecord at 2; rewrite svz_text.
    destruct (tagIs (recordIdOf entry) s) eqn:T.
    + apply tagIs_eq in T; rewrite T.
      replace (truthy (JStr s)) with true by (destruct s; [congruence|reflexivity]).
      cbn [andb].
      destruct (mapHas m0 (JStr s)) eqn:M; cbn [negb andb]; [now rewrite M|].
      destruct (yieldsName entry); [|now rewrite M].
      rewrite mapHas_set, mapLookup_set; cbn [tagIs].
      now rewrite String.eqb_refl.
    + cbn [andb].
      destruct (truthy (recordIdOf entry) && negb (mapHas m0 (recordIdOf entry))
                && yieldsName entry); [|reflexivity].
      now rewrite mapHas_set, mapLookup_set, T.
Qed.

Lemma typed_lookup (names : NameMap) (s : string) :
  mapLookup (typedMap names) (JStr s) = mapGet names (JStr s).
Proof.
  unfold mapGet; induction names as [|[k v] names IH]; cbn; [reflexivity|].
  rewrite (String.eqb_sym s k); destruct (String.eqb k s); [reflexivity|exact IH].
Qed.

(** The label the summary gives, from what the map holds. *)
Lemma label_from_map (entryList : list JsVal) (names : NameMap) (entry : JsVal) :
  textualId entry ->
  nameEntries entryList [] = Ok (typedMap names) ->
  recordNameOf names entry = labelIn entryList entry.
Proof.
  intros Ht Hm; unfold recordNameOf, labelIn; cbn zeta.
  destruct (truthy (recordIdOf entry)) eqn:T; [|reflexivity].
  specialize (Ht T).
  destruct (recordIdOf entry) as [| | | |s| |]; try discriminate.
  assert (Hs : s <> "") by (intros ->; discriminate).
  unfold shownAs; rewrite <- typed_lookup.
  rewrite (nameEntries_lookup entryList s Hs [] _ Hm); cbn [mapHas existsb].
  destruct (find (namesRecord (JStr s)) entryList); reflexivity.
Qed.

End NamingFacts.

(* ================================================================== *)
(** ** Finding a list *)

Module ListFacts.
Import Js Helpers Spec Server ListNotions.
Import JsFacts ShapeFacts ServerFacts.
Local Open Scope js_scope.

Lemma startsWith_spec (p s : string) :
  startsWith p s = true <-> exists after, s = (p ++ after)%string.
Proof.
  revert s; induction p as [|a p IH]; intros s; cbn.
  - split; [intros _; exists s; reflexivity|reflexivity].
  - destruct s as [|b s]; [split; [discriminate|intros [after H]; discriminate]|].
    rewrite andb_true_iff, Ascii.eqb_eq, IH; split.
    + intros [-> [after ->]]; exists after; reflexivity.
    + intros [after H]; injection H as -> ->; split; [reflexivity|].
      exists after; reflexivity.
Qed.

Lemma includes_spec (needle hay : string) :
  includes needle hay = true
  <-> exists before after, hay = (before ++ needle ++ after)%string.
Proof.
  split.
  - induction hay as [|c hay IH]; cbn [includes]; rewrite orb_true_iff.
    + intros [H|H]; [|discriminate].
      apply startsWith_spec in H as [after ->]; exists "", after; reflexivity.
    + intros [H|H].
      * apply startsWith_spec in H as [after ->]; exists "", after; reflexivity.
      * destruct (IH H) as [before [after ->]].
        exists (String c before), after; reflexivity.
  - intros [before [after ->]].
    induction before as [|c before IH].
    + cbn [append].
      assert (H : startsWith needle (needle ++ after) = true)
        by (apply startsWith_spec; exists after; reflexivity).
      destruct (needle ++ after)%string; cbn [includes]; now rewrite H.
    + cbn [append includes]; rewrite IH; apply orb_true_r.
Qed.

(** The [find] callback on a list entry with a name that is a string or
    missing. *)
Lemma matchesList_cases (listName : string) (l : JsVal) :
  wellNamed l = true ->
  matchesList listName l
  = Ok (nameHit listName l || tagIs (listIdOf l) listName).
Proof.
  unfold wellNamed; intros H; apply andb_prop in H as [N H].
  apply negb_true_iff in N; unfold matchesList, nameHit.
  rewrite !(dot_ok l), optDot_ok, orElse_value, bind_ok, getProp_ok, bind_ok
    by exact N.
  fold (listIdOf l); rewrite strictEq_tag.
  destruct (readProp l "name"); cbn in H; try discriminate; cbn;
    try reflexivity.
  destruct (includes (toLowerCase listName) (toLowerCase s)); reflexivity.
Qed.

Lemma nameHit_spec (listName : string) (l : JsVal) :
  nameHit listName l = true <-> nameHas listName l.
Proof.
  unfold nameHit, nameHas; split.
  - destruct (readProp l "name") as [| | | |s| |]; try discriminate.
    intros H; apply includes_spec in H as [before [after E]].
    exists s, before, after; split; [reflexivity|exact E].
  - intros [name [before [after [-> E]]]].
    apply includes_spec; exists before, after; exact E.
Qed.

Lemma hit_spec (listName : string) (l : JsVal) :
  nameHit listName l || tagIs (listIdOf l) listName = true
  <-> answersTo listName l.
Proof.
  unfold answersTo; rewrite orb_true_iff, nameHit_spec, tagIs_eq; reflexivity.
Qed.

Lemma findM_first {A : Type} (f : A -> result bool) (p : A -> bool) (l : list A) :
  Forall (fun a => f a = Ok (p a)) l ->
  findM f l = Ok (find p l).
Proof.
  induction 1 as [|a l Ha _ IH]; cbn; [reflexivity|].
  rewrite Ha, bind_ok; destruct (p a); [reflexivity|exact IH].
Qed.

Lemma find_first {A : Type} (p : A -> bool) (l : list A) :
  match find p l with
  | Some a => exists before after,
      l = before ++ a :: after /\ p a = true /\
      Forall (fun b => p b = false) before
  | None => Forall (fun b => p b = false) l
  end.
Proof.
  induction l as [|a l IH]; cbn; [constructor|].
  destruct (p a) eqn:E.
  - exists [], l; repeat split; [exact E|constructor].
  - destruct (find p l) as [b|].
    + destruct IH as [before [after [-> [Hb Hbefore]]]].
      exists (a :: before), after; repeat split; [exact Hb|].
      constructor; assumption.
    + constructor; assumption.
Qed.

End ListFacts.


(* ================================================================== *)
(** ** The flattener, case by case *)

Module FlattenCases.
Import Js Helpers Spec Aux FlattenNotions JsFacts FlattenFacts.
Local Open Scope js_scope.

Lemma composeName_defined (x v : JsVal) : composeName x = Ok v -> defined v = true.
Proof.
  unfold composeName; intros H.
  destruct (Ok x ·. "first_name" <||> Ok (JStr "")) as [a|]; cbn [bind] in H;
    [|discriminate].
  destruct (toStr a) as [s|]; cbn [bind] in H; [|discriminate].
  destruct (Ok x ·. "last_name" <||> Ok (JStr "")) as [b|]; cbn [bind] in H;
    [|discriminate].
  destruct (toStr b) as [t|]; cbn [bind] in H; [|discriminate].
  injection H as <-; reflexivity.
Qed.

(** Whatever the flattener makes of a first element, it is not [undefined]. *)
Lemma flattenFirst_defined (first v : JsVal) :
  flattenFirst first = Ok v -> defined v = true.
Proof.
  destruct (nullish first) eqn:N.
  { unfold flattenFirst, getProp; rewrite N; discriminate. }
  assert (Df : defined first = true) by (destruct first; cbn in *; congruence).
  unfold flattenFirst.
  rewrite !getProp_ok, !bind_ok by exact N.
  destruct (defined (readProp first "full_name")) eqn:D1.
  { rewrite orElse_ok.
    destruct (truthy (readProp first "full_name")) eqn:T.
    - intros H; injection H as <-; exact D1.
    - apply composeName_defined. }
  destruct (defined (readProp first "email_address")) eqn:D2;
    [intros H; injection H as <-; exact D2|].
  destruct (defined (readProp first "phone_number")) eqn:D3;
    [intros H; injection H as <-; exact D3|].
  destruct (defined (readProp first "currency_value")) eqn:D4.
  { rewrite dot_ok, orElse_value, bind_ok by exact N.
    intros H; injection H as <-; reflexivity. }
  destruct (defined (readProp first "status")) eqn:D5.
  { rewrite dot_ok, optDot_ok, orElse_value by exact N.
    intros H; injection H as <-.
    destruct (truthy (readProp (readProp first "status") "title")) eqn:T;
      [apply truthy_defined, T|exact D5]. }
  destruct (defined (readProp first "target_record_id")) eqn:D6.
  { rewrite dot_ok, orElse_value, bind_ok by exact N.
    intros H; injection H as <-; reflexivity. }
  destruct (defined (readProp first "option")) eqn:D7.
  { rewrite dot_ok, optDot_ok, orElse_value by exact N.
    intros H; injection H as <-.
    destruct (truthy (readProp (readProp first "option") "title")) eqn:T;
      [apply truthy_defined, T|exact D7]. }
  destruct (defined (readProp first "value")) eqn:D8; cbn [andb].
  { destruct (isString (readProp first "value") && isDateString (readProp first "value"));
      intros H; injection H as <-; exact D8. }
  destruct (isScalar first); intros H; injection H as <-; exact Df.
Qed.

Lemma flattenEntry_defined (arr v : JsVal) :
  flattenEntry arr = Ok v -> defined v = true.
Proof.
  destruct arr as [| | | | |[|first rest]|]; cbn [flattenEntry];
    try (intros H; injection H as <-; reflexivity).
  apply flattenFirst_defined.
Qed.

Lemma flatValue_defined (entry : string * JsVal) :
  wellHeaded entry = true -> defined (flatValue (snd entry)) = true.
Proof.
  intros W; unfold flatValue.
  destruct (flattenEntry_total entry W) as [v Hv]; rewrite Hv.
  exact (flattenEntry_defined _ _ Hv).
Qed.

Lemma flattenValues_throws (values : JsVal) :
  flattenValues values = Throw TypeError
  <-> Exists (fun entry => wellHeaded entry = false) (entriesOf values).
Proof.
  rewrite <- forallb_false_Exists.
  pose proof (flattenLocal_cases (Mapping values)) as H.
  cbn [flattenLocal looped] in H; rewrite H.
  destruct (forallb wellHeaded (entriesOf values)); split; congruence.
Qed.

(** The flattener goes by the first element alone. *)
Lemma flattenEntry_head (arr : JsVal) :
  flattenEntry arr = match headOf arr with
                     | Some first => flattenFirst first
                     | None => Ok JNull
                     end.
Proof. destruct arr as [| | | | |[|first rest]|]; reflexivity. Qed.

Lemma flattenEntries_heads (entries1 entries2 : list (string * JsVal)) :
  map fst entries1 = map fst entries2 ->
  map (fun entry => headOf (snd entry)) entries1
  = map (fun entry => headOf (snd entry)) entries2 ->
  forall flat, flattenEntries entries1 flat = flattenEntries entries2 flat.
Proof.
  revert entries2; induction entries1 as [|[k1 a1] entries1 IH];
    intros [|[k2 a2] entries2]; cbn; try discriminate; [reflexivity|].
  intros Hk Hh flat; injection Hk as -> Hk; injection Hh as Ha Hh.
  rewrite (flattenEntry_head a1), (flattenEntry_head a2), Ha.
  destruct (match headOf a2 with
            | Some first => flattenFirst first
            | None => Ok JNull
            end); cbn [bind]; [|reflexivity].
  apply IH; assumption.
Qed.

Lemma isScalar_unrecognised (first : JsVal) :
  isScalar first = true -> unrecognised first = true.
Proof.
  destruct first as [| |b|x|s| |]; try discriminate; intros _; reflexivity.
Qed.

Lemma flattenFirst_unrecognised (first : JsVal) :
  unrecognised first = true -> flattenFirst first = Ok first.
Proof.
  unfold unrecognised, markerFields; cbn [forallb]; intros H.
  repeat (apply andb_prop in H as [? H]).
  match goal with N : negb (nullish first) = true |- _ =>
    apply negb_true_iff in N; rename N into Np end.
  unfold flattenFirst; rewrite !getProp_ok, !bind_ok by exact Np.
  rewrite !defined_undefined.
  repeat match goal with E : isUndefined _ = true |- _ => rewrite E; clear E end.
  cbn; destruct (isScalar first); reflexivity.
Qed.

(** The flattening of an object, when it returns. *)
Lemma flattenValues_inv (props : list (string * JsVal)) (flat : Flat.t) :
  flattenValues (JObj props) = Ok flat ->
  forallb wellHeaded props = true /\ flat = assignAll props emptyFlat.
Proof.
  rewrite flattenValues_cases.
  destruct (forallb wellHeaded props); [|discriminate].
  intros H; split; [reflexivity|congruence].
Qed.

Lemma own_flattened (props : list (string * JsVal)) :
  Flat.own (assignAll props emptyFlat)
  = map (fun e => (fst e, flatValue (snd e)))
        (filter (fun e => ownKey (fst e)) props).
Proof. now rewrite assignAll_own. Qed.

Lemma assoc_In {A : Type} (key : string) (l : list (string * A)) (a : A) :
  assoc key l = Some a -> In (key, a) l.
Proof.
  induction l as [|[k b] l IH]; cbn; [discriminate|].
  destruct (key =? k)%string eqn:E.
  - apply String.eqb_eq in E; intros H; injection H as ->; subst; auto.
  - intros H; right; apply IH, H.
Qed.

(** What a key other than [__proto__] is bound to, whenever the flattening
    returns. *)
Lemma flattened_key (props : list (string * JsVal)) (flat : Flat.t)
  (key : string) (arr : JsVal) :
  flattenValues (JObj props) = Ok flat ->
  key <> "__proto__" ->
  assoc key props = Some arr ->
  exists v, flattenEntry arr = Ok v /\ assoc key (Flat.own flat) = Some v.
Proof.
  intros Hf Hk Ha; destruct (flattenValues_inv _ _ Hf) as [W ->].
  assert (K : ownKey key = true)
    by (unfold ownKey; apply negb_true_iff, String.eqb_neq, Hk).
  exists (flatValue arr); split.
  - rewrite forallb_forall in W; specialize (W _ (assoc_In _ _ _ Ha)).
    change arr with (snd (key, arr)); now rewrite flattenEntry_cases, W.
  - now rewrite own_flattened, assoc_flattened, Ha.
Qed.

Lemma flattened_absent (props : list (string * JsVal)) (flat : Flat.t)
  (key : string) :
  flattenValues (JObj props) = Ok flat ->
  assoc key props = None -> assoc key (Flat.own flat) = None.
Proof.
  intros Hf Ha; destruct (flattenValues_inv _ _ Hf) as [_ ->].
  rewrite own_flattened; clear Hf.
  induction props as [|[k a] props IH]; [reflexivity|].
  cbn [assoc] in Ha; destruct (key =? k)%string eqn:E; [discriminate|].
  cbn [filter fst]; destruct (ownKey k); cbn [map assoc fst snd];
    rewrite ?E; apply IH, Ha.
Qed.

End FlattenCases.

(* ================================================================== *)
(** ** Record names, case by case *)

Module NameCases.
Import Js Helpers Spec Aux NameNotions JsFacts FlattenFacts NameFacts ShapeFacts.
Local Open Scope js_scope.

Lemma nameless_fields (x : JsVal) :
  nameless x = true -> truthy x = true ->
  isString x = false /\
  truthy (readProp x "full_name") = false /\
  truthy (readProp x "first_name") = false /\
  truthy (readProp x "last_name") = false /\
  truthy (readProp x "value") = false.
Proof.
  unfold nameless, nameFields; intros H T; rewrite T in H; cbn in H.
  repeat (apply andb_prop in H as [? H]).
  repeat match goal with E : negb _ = true |- _ => apply negb_true_iff in E end.
  repeat split; assumption.
Qed.

Lemma fromNameVal_nameless (x : JsVal) :
  nameless x = true -> fromNameVal x = fallThrough.
Proof.
  intros H; unfold fromNameVal.
  destruct (truthy x) eqn:T; [|reflexivity].
  destruct (nameless_fields x H T) as [S [F [A [B V]]]].
  pose proof (truthy_not_nullish _ T) as N.
  rewrite getProp_ok, bind_ok, F, !dot_ok, orElse_ok, A, bind_ok, B, S by exact N.
  now rewrite getProp_ok, bind_ok, V by exact N.
Qed.

Lemma fromTitleVal_nameless (x : JsVal) :
  nameless x = true -> fromTitleVal x = fallThrough.
Proof.
  intros H; unfold fromTitleVal.
  destruct (truthy x) eqn:T; [|reflexivity].
  destruct (nameless_fields x H T) as [S [_ [_ [_ V]]]].
  now rewrite S, getProp_truthy, bind_ok, V by exact T.
Qed.

Lemma fromFallbackKey_nameless (values : Values) (key : string) :
  truthyValues values = true ->
  nameless (primaryValue values key) = true ->
  fromFallbackKey values key = fallThrough.
Proof.
  intros T H; unfold fromFallbackKey.
  rewrite getField_ok, bind_ok by exact T.
  destruct (isArray (readField values key)) eqn:A; [|reflexivity].
  assert (N : nullish (readField values key) = false)
    by (destruct (readField values key); cbn in *; congruence).
  rewrite getProp_ok, bind_ok by exact N.
  replace (readProp (readField values key) "0") with (primaryValue values key)
    by (unfold primaryValue; apply optProp_readProp).
  destruct (truthy (primaryValue values key)) eqn:T1; [|reflexivity].
  destruct (nameless_fields _ H T1) as [S [F [_ [_ V]]]].
  now rewrite getProp_truthy, bind_ok, F, S, getProp_truthy, bind_ok, V by exact T1.
Qed.

Lemma fromFallbackKeys_nameless (values : Values) (keys : list string) :
  truthyValues values = true ->
  (forall key, In key keys -> nameless (primaryValue values key) = true) ->
  fromFallbackKeys values keys = fallThrough.
Proof.
  intros T; induction keys as [|key keys IH]; cbn [fromFallbackKeys]; intros H.
  - reflexivity.
  - rewrite fromFallbackKey_nameless by (try exact T; apply H; left; reflexivity).
    cbn; apply IH; intros k Hk; apply H; right; exact Hk.
Qed.

Lemma idOrUnknown_ok (record : JsVal) :
  (Ok record ?. "id" ?. "record_id" <||> Ok record ?. "id" <||> Ok (JStr "Unknown"))
  = Ok (idOrUnknown record).
Proof.
  rewrite !optDot_ok, !orElse_value; unfold idOrUnknown.
  rewrite !optProp_readProp; reflexivity.
Qed.

(** The resolver reads the record's attribute mapping and its id. *)
Lemma extractRecordName_nameFrom (record : JsVal) :
  extractRecordName record
  = nameFrom (attributeValues record) (Ok (idOrUnknown record)).
Proof.
  unfold extractRecordName.
  now rewrite valuesOf_ok, bind_ok, idOrUnknown_ok.
Qed.

Lemma idOrUnknown_reads (r1 r2 : JsVal) :
  optProp r1 "id" = optProp r2 "id" -> idOrUnknown r1 = idOrUnknown r2.
Proof. unfold idOrUnknown; intros ->; reflexivity. Qed.

(** The two chains of [||] that pick the name value and the title value. *)
Lemma nameValue_ok (record : JsVal) :
  (getField (attributeValues record) "name" ?. "0"
   <||> getField (attributeValues record) "primary_name" ?. "0")
  = Ok (nameValue record).
Proof.
  pose proof (attributeValues_truthy record) as T.
  rewrite !primary_ok, orElse_value by exact T; reflexivity.
Qed.

Lemma titleValue_ok (record : JsVal) :
  (getField (attributeValues record) "title" ?. "0"
   <||> getField (attributeValues record) "company_name" ?. "0"
   <||> getField (attributeValues record) "deal_name" ?. "0")
  = Ok (titleValue record).
Proof.
  pose proof (attributeValues_truthy record) as T.
  rewrite !primary_ok, !orElse_value by exact T; reflexivity.
Qed.

Lemma extractRecordName_title (record : JsVal) :
  nameless (nameValue record) = true ->
  extractRecordName record
  = otherwise (fromTitleVal (titleValue record)) (
    otherwise (fromFallbackKeys (attributeValues record) fallbackKeys)
              (Ok (idOrUnknown record))).
Proof.
  intros H; rewrite extractRecordName_nameFrom; unfold nameFrom.
  rewrite nameValue_ok, bind_ok, (fromNameVal_nameless _ H).
  cbn [otherwise fallThrough bind]; now rewrite titleValue_ok, bind_ok.
Qed.

End NameCases.

(* ================================================================== *)
(** ** The collation of the runtime is an order *)

Module IcuFacts.
Import Js Helpers Spec Icu.

Lemma compareKeys_eq (a b : list N) : compareKeys a b = Eq <-> a = b.
Proof.
  revert b; induction a as [|x a IH]; intros [|y b]; cbn;
    try (split; [discriminate|discriminate]); [tauto|].
  destruct (x ?= y)%N eqn:E.
  - apply N.compare_eq in E; subst y; rewrite IH; split; congruence.
  - split; [discriminate|].
    intros H; injection H as -> _; rewrite N.compare_refl in E; discriminate.
  - split; [discriminate|].
    intros H; injection H as -> _; rewrite N.compare_refl in E; discriminate.
Qed.

Lemma compareKeys_antisym (a b : list N) :
  compareKeys b a = CompOpp (compareKeys a b).
Proof.
  revert b; induction a as [|x a IH]; intros [|y b]; cbn; try reflexivity.
  rewrite (N.compare_antisym x y).
  destruct (x ?= y)%N; cbn; [apply IH|reflexivity|reflexivity].
Qed.

Lemma compareKeys_trans (a b c : list N) :
  compareKeys a b = Lt -> compareKeys b c = Lt -> compareKeys a c = Lt.
Proof.
  revert b c; induction a as [|x a IH]; intros [|y b] [|z c]; cbn;
    try discriminate; try reflexivity.
  destruct (x ?= y)%N eqn:Exy; try discriminate.
  - apply N.compare_eq in Exy; subst y.
    destruct (x ?= z)%N; try discriminate; [apply IH|reflexivity].
  - intros _; destruct (y ?= z)%N eqn:Eyz; try discriminate.
    + apply N.compare_eq in Eyz; subst z; now rewrite Exy.
    + intros _; rewrite N.compare_lt_iff in *.
      replace (x ?= z)%N with Lt; [reflexivity|].
      symmetry; apply N.compare_lt_iff; lia.
Qed.

Lemma compareKeys_le_lt (a b c : list N) :
  compareKeys a b <> Gt -> compareKeys b c = Lt -> compareKeys a c = Lt.
Proof.
  intros H; destruct (compareKeys a b) eqn:E; [|apply compareKeys_trans, E|congruence].
  apply compareKeys_eq in E; now subst.
Qed.

(** The comparison behind [localeCompare]. *)
Lemma localeCompare_negative (s t : string) :
  (localeCompare s t <? 0)%Z = true
  <-> match compareKeys (primaryKey s) (primaryKey t) with
      | Eq => compareKeys (caseKey s) (caseKey t)
      | c => c
      end = Lt.
Proof.
  unfold localeCompare.
  destruct (match compareKeys (primaryKey s) (primaryKey t) with
            | Eq => compareKeys (caseKey s) (caseKey t)
            | c => c
            end); cbn; split; congruence.
Qed.

Lemma localeCompare_asym (s t : string) :
  (localeCompare s t <? 0)%Z = true -> (localeCompare t s <? 0)%Z = false.
Proof.
  intros H; apply localeCompare_negative in H.
  destruct (localeCompare t s <? 0)%Z eqn:E; [|reflexivity].
  apply localeCompare_negative in E.
  rewrite (compareKeys_antisym (primaryKey s) (primaryKey t)),
          (compareKeys_antisym (caseKey s) (caseKey t)) in E.
  destruct (compareKeys (primaryKey s) (primaryKey t)); cbn in E;
    try discriminate.
  rewrite H in E; discriminate.
Qed.

Lemma localeCompare_le_lt (s t u : string) :
  (localeCompare s t <? 0)%Z = true -> (localeCompare s u <? 0)%Z = false ->
  (localeCompare u t <? 0)%Z = true.
Proof.
  intros Hst Hsu; apply localeCompare_negative in Hst.
  apply localeCompare_negative.
  assert (Hus : match compareKeys (primaryKey u) (primaryKey s) with
                | Eq => compareKeys (caseKey u) (caseKey s)
                | c => c
                end <> Gt).
  { intros E; apply not_true_iff_false in Hsu; apply Hsu.
    apply localeCompare_negative.
    rewrite (compareKeys_antisym (primaryKey u) (primaryKey s)),
            (compareKeys_antisym (caseKey u) (caseKey s)).
    destruct (compareKeys (primaryKey u) (primaryKey s)); cbn; try discriminate;
      [now rewrite E|reflexivity]. }
  destruct (compareKeys (primaryKey u) (primaryKey s)) eqn:E1;
    destruct (compareKeys (primaryKey s) (primaryKey t)) eqn:E2;
    try discriminate; try congruence.
  - apply compareKeys_eq in E1, E2.
    replace (compareKeys (primaryKey u) (primaryKey t)) with Eq
      by (symmetry; apply compareKeys_eq; congruence).
    exact (compareKeys_le_lt _ _ _ Hus Hst).
  - apply compareKeys_eq in E1; rewrite E1, E2; reflexivity.
  - apply compareKeys_eq in E2; rewrite <- E2, E1; reflexivity.
  - now rewrite (compareKeys_trans _ _ _ E1 E2).
Qed.

(** The collation of the runtime ranks the strings. *)
Lemma localeCompare_ranks : ranks localeCompare.
Proof. split; [exact localeCompare_asym|exact localeCompare_le_lt]. Qed.

End IcuFacts.

(* ================================================================== *)
(** ** The repository's unit tests, run on the embedding *)

Module UnitTests.

Import Js Helpers Samples Fixtures.
Local Open Scope js_scope.

(** *** extractRecordName *)

Example test_name_full_name :
  extractRecordName (valued "name" aliceName) = Ok (JStr "Alice Smith").
Proof. reflexivity. Qed.

Example test_name_first_last :
  extractRecordName (valued "name" bobNoFull) = Ok (JStr "Bob Jones").
Proof. reflexivity. Qed.

Example test_name_title_value :
  extractRecordName (valued "title" (JObj [("value", JStr "Acme Corp")]))
  = Ok (JStr "Acme Corp").
Proof. reflexivity. Qed.

Example test_name_title_string :
  extractRecordName (valued "title" (JStr "My Deal")) = Ok (JStr "My Deal").
Proof. reflexivity. Qed.

Example test_name_company_name :
  extractRecordName (valued "company_name" (JObj [("value", JStr "Widget Inc")]))
  = Ok (JStr "Widget Inc").
Proof. reflexivity. Qed.

Example test_name_primary_name :
  extractRecordName (valued "primary_name" (JObj [("full_name", JStr "Jane Doe")]))
  = Ok (JStr "Jane Doe").
Proof. reflexivity. Qed.

Example test_name_record_id :
  extractRecordName (JObj [("id", JObj [("record_id", JStr "abc123")]);
                           ("values", JObj [])])
  = Ok (JStr "abc123").
Proof. reflexivity. Qed.

Example test_name_string_name :
  extractRecordName (valued "name" (JStr "Simple Name")) = Ok (JStr "Simple Name").
Proof. reflexivity. Qed.

Example test_name_null : extractRecordName JNull = Ok (JStr "Unknown").
Proof. reflexivity. Qed.

Example test_name_no_values :
  extractRecordName (JObj [("id", JStr "xyz")]) = Ok (JStr "xyz").
Proof. reflexivity. Qed.

Example test_name_value_on_name :
  extractRecordName (valued "name" (JObj [("value", JStr "Value Name")]))
  = Ok (JStr "Value Name").
Proof. reflexivity. Qed.

Example test_name_deal_name :
  extractRecordName (valued "deal_name" (JObj [("value", JStr "Big Deal")]))
  = Ok (JStr "Big Deal").
Proof. reflexivity. Qed.

Example test_name_deal_name_string :
  extractRecordName (valued "deal_name" (JStr "Direct String Deal"))
  = Ok (JStr "Direct String Deal").
Proof. reflexivity. Qed.

Example test_name_company_full_name :
  extractRecordName (valued "company" (JObj [("full_name", JStr "Acme via fallback")]))
  = Ok (JStr "Acme via fallback").
Proof. reflexivity. Qed.

Example test_name_company_value :
  extractRecordName (valued "company" (JObj [("value", JStr "Widget via fallback")]))
  = Ok (JStr "Widget via fallback").
Proof. reflexivity. Qed.

Example test_name_first_only :
  extractRecordName (valued "name" (JObj [("first_name", JStr "Solo")]))
  = Ok (JStr "Solo").
Proof. reflexivity. Qed.

(** *** flattenValues *)

Example test_flat_personal_name :
  flattened "name" aliceName = Ok (JStr "Alice Smith").
Proof. reflexivity. Qed.

Example test_flat_first_last :
  flattened "name" bobBlankFull = Ok (JStr "Bob J").
Proof. reflexivity. Qed.

Example test_flat_email :
  flattened "email_addresses" (JObj [("email_address", JStr "alice@co.com")])
  = Ok (JStr "alice@co.com").
Proof. reflexivity. Qed.

Example test_flat_phone :
  flattened "phone" (JObj [("phone_number", JStr "+1234567890")])
  = Ok (JStr "+1234567890").
Proof. reflexivity. Qed.

Example test_flat_currency :
  flattened "value" (JObj [("currency_value", num 50000); ("currency_code", JStr "USD")])
  = Ok (JObj [("amount", num 50000); ("currency", JStr "USD")]).
Proof. reflexivity. Qed.

Example test_flat_status :
  flattened "stage" (JObj [("status", JObj [("title", JStr "Qualified")])])
  = Ok (JStr "Qualified").
Proof. reflexivity. Qed.

Example test_flat_reference :
  flattened "company" (JObj [("target_record_id", JStr "rec123");
                             ("target_object", JStr "companies")])
  = Ok (JObj [("recordId", JStr "rec123"); ("objectType", JStr "companies")]).
Proof. reflexivity. Qed.

Example test_flat_option :
  flattened "priority" (JObj [("option", JObj [("title", JStr "High")])])
  = Ok (JStr "High").
Proof. reflexivity. Qed.

Example test_flat_date :
  flattened "created" (JObj [("value", JStr "2026-01-15")]) = Ok (JStr "2026-01-15").
Proof. reflexivity. Qed.

Example test_flat_simple_value :
  flattened "count" (JObj [("value", num 42)]) = Ok (num 42).
Proof. reflexivity. Qed.

Example test_flat_primitive :
  flattened "tags" (JStr "important") = Ok (JStr "important").
Proof. reflexivity. Qed.

Example test_flat_empty_array :
  bind (flattenValues (JObj [("empty", JArr [])]))
       (fun flat => Ok (assoc "empty" (Flat.own flat)))
  = Ok (Some JNull).
Proof. reflexivity. Qed.

Example test_flat_null : flattenValues JNull = Ok emptyFlat.
Proof. reflexivity. Qed.

Example test_flat_unrecognized :
  flattened "weird" (JObj [("foo", JStr "bar"); ("baz", num 1)])
  = Ok (JObj [("foo", JStr "bar"); ("baz", num 1)]).
Proof. reflexivity. Qed.

Example test_flat_number : flattened "score" (num 99) = Ok (num 99).
Proof. reflexivity. Qed.

Example test_flat_boolean : flattened "active" (JBool true) = Ok (JBool true).
Proof. reflexivity. Qed.

(** *** shapeSearchResults *)

Example test_shape_all :
  bind (shapeSearchResults [alice; widget] None)
       (fun out => Ok (map (fun s => (ShapedRecord.name s, ShapedRecord.email s,
                                      ShapedRecord.company s)) out))
  = Ok [(JStr "Alice Smith", JStr "alice@co.com", JStr "Acme");
        (JStr "Widget Inc", JNull, JNull)].
Proof. reflexivity. Qed.

Example test_shape_filter :
  bind (shapeSearchResults [alice; widget] (Some "people"))
       (fun out => Ok (map ShapedRecord.name out))
  = Ok [JStr "Alice Smith"].
Proof. reflexivity. Qed.

(** *** computePipelineSummary *)

Example test_pipeline_stages :
  stagesOf (computePipelineSummary "list1" "Sales Pipeline" threeEntries dealNames)
  = Ok [(JStr "Qualified", 2, Some (JsNumber.ofZ 80000));
        (JStr "Proposal", 1, Some (JsNumber.ofZ 100000))].
Proof. vm_compute; reflexivity. Qed.

Example test_pipeline_names :
  entriesOfSummary
    (computePipelineSummary "list1" "Sales Pipeline" threeEntries dealNames)
  = Ok [(JStr "Acme Deal", JStr "Qualified", Some (JsNumber.ofZ 50000));
        (JStr "Widget Deal", JStr "Qualified", Some (JsNumber.ofZ 30000));
        (JStr "Big Corp Deal", JStr "Proposal", Some (JsNumber.ofZ 100000))].
Proof. vm_compute; reflexivity. Qed.

Example test_pipeline_no_stage :
  stagesOf (computePipelineSummary "list1" "Test" (JArr [entryOf "e4" "r1" []]) dealNames)
  = Ok [(JStr "No Stage", 1, None)].
Proof. reflexivity. Qed.

Example test_pipeline_no_value :
  entriesOfSummary
    (computePipelineSummary "list1" "Test"
       (JArr [entryOf "e5" "r1" [statusStage "New"]]) dealNames)
  = Ok [(JStr "Acme Deal", JStr "New", None)].
Proof. reflexivity. Qed.

Example test_pipeline_option_stage :
  entriesOfSummary
    (computePipelineSummary "l1" "Test"
       (JArr [entryOf "e10" "r10"
                [("stage", JArr [JObj [("option", JObj [("title", JStr "Won")])]])]]) [])
  = Ok [(JStr "Record r10", JStr "Won", None)].
Proof. reflexivity. Qed.

Example test_pipeline_value_stage :
  entriesOfSummary
    (computePipelineSummary "l1" "Test"
       (JArr [entryOf "e11" "r11"
                [("stage", JArr [JObj [("value", JStr "Custom Stage")]])]]) [])
  = Ok [(JStr "Record r11", JStr "Custom Stage", None)].
Proof. reflexivity. Qed.

Example test_pipeline_deal_value :
  entriesOfSummary
    (computePipelineSummary "l1" "Test"
       (JArr [entryOf "e12" "r12"
                [("deal_value", JArr [JObj [("value", num 75000)]]);
                 statusStage "X"]]) [])
  = Ok [(JStr "Record r12", JStr "X", Some (JsNumber.ofZ 75000))].
Proof. vm_compute; reflexivity. Qed.

Example test_pipeline_data_wrapper :
  bind (computePipelineSummary "list1" "Test" (JObj [("data", threeEntries)]) dealNames)
       (fun p => Ok (PipelineSummary.totalEntries p))
  = Ok 3.
Proof. vm_compute; reflexivity. Qed.

Example test_pipeline_missing_name :
  entriesOfSummary
    (computePipelineSummary "list1" "Test" (JArr [entryOf "e6" "unknown" []]) [])
  = Ok [(JStr "Record unknown", JNull, None)].
Proof. reflexivity. Qed.

(** *** enrichTasks *)

Example test_tasks_separated :
  bind (enrichTasks testTasks members recordNames)
       (fun g => Ok (List.length (TaskGroups.open g),
                     List.length (TaskGroups.completed g)))
  = Ok (2, 1).
Proof. reflexivity. Qed.

Example test_tasks_assignee :
  firstOpen EnrichedTask.assignees (enrichTasks testTasks members recordNames)
  = Ok (Some [JStr "Alice Smith"]).
Proof. reflexivity. Qed.

Example test_tasks_linked :
  firstOpen EnrichedTask.linkedRecords (enrichTasks testTasks members recordNames)
  = Ok (Some [JStr "Acme Corp"]).
Proof. reflexivity. Qed.

Example test_tasks_sorted :
  bind (enrichTasks testTasks members recordNames)
       (fun g => Ok (map EnrichedTask.deadline (TaskGroups.open g)))
  = Ok [JStr "2026-02-15"; JNull].
Proof. reflexivity. Qed.

Example test_tasks_unknown_assignee :
  firstOpen EnrichedTask.assignees
    (enrichTasks [simpleTask [("id", JStr "t99"); ("content", JStr "Test");
                              ("assignees", JArr [JObj [("id", JStr "unknown")]]);
                              ("linked_records", JArr [])]] [] [])
  = Ok (Some [JStr "User unknown"]).
Proof. reflexivity. Qed.

Example test_tasks_title :
  firstOpen EnrichedTask.content
    (enrichTasks [simpleTask [("id", JStr "t101"); ("title", JStr "Title Fallback");
                              ("assignees", JArr []); ("linked_records", JArr [])]]
       [] [])
  = Ok (Some (JStr "Title Fallback")).
Proof. reflexivity. Qed.

Example test_tasks_target_record :
  firstOpen EnrichedTask.linkedRecords
    (enrichTasks [simpleTask [("id", JStr "t103"); ("content", JStr "Test");
                              ("assignees", JArr []);
                              ("linked_records",
                               JArr [JObj [("target_record_id", JStr "rec99")]])]]
       [] [("rec99", "Resolved Name")])
  = Ok (Some [JStr "Resolved Name"]).
Proof. reflexivity. Qed.

Example test_tasks_due_date :
  firstOpen EnrichedTask.deadline
    (enrichTasks [simpleTask [("id", JStr "t104"); ("content", JStr "Test");
                              ("due_date", JStr "2026-03-01");
                              ("assignees", JArr []); ("linked_records", JArr [])]]
       [] [])
  = Ok (Some (JStr "2026-03-01")).
Proof. reflexivity. Qed.

Example test_tasks_string_assignee :
  firstOpen EnrichedTask.assignees
    (enrichTasks [simpleTask [("id", JStr "t100"); ("content", JStr "Test");
                              ("assignees", JArr [JStr "direct-id"]);
                              ("linked_records", JArr [])]] [] [])
  = Ok (Some [JStr "User direct-id"]).
Proof. reflexivity. Qed.

(** *** buildActivityTimeline *)

Example test_timeline_sorted :
  eventsRead TimelineEvent.type (timeline testNotes testMeetings testThreads)
  = Ok [meeting; note; thread; note].
Proof. reflexivity. Qed.

Example test_timeline_content :
  eventsRead (fun e => (TimelineEvent.id e, TimelineEvent.content e))
    (timeline testNotes testMeetings testThreads)
  = Ok [(JStr "m1", JStr "Q1 planning"); (JStr "n1", JStr "Discussed roadmap");
        (JStr "th1", JStr "Thanks for the update"); (JStr "n2", JStr "Quick note")].
Proof. reflexivity. Qed.

Example test_timeline_empty : timeline [] [] [] = Ok [].
Proof. reflexivity. Qed.

Example test_timeline_null_date_last :
  eventsRead TimelineEvent.date (timeline [anUndatedNote] testMeetings [])
  = Ok [JStr "2026-02-06T14:00:00Z"; JNull].
Proof. reflexivity. Qed.

Example test_timeline_meeting_fallbacks :
  eventsRead (fun e => (TimelineEvent.id e, TimelineEvent.date e,
                        TimelineEvent.title e, TimelineEvent.content e))
    (timeline [] [JObj [("id", JStr "m3"); ("created_at", JStr "2026-01-02T10:00:00Z");
                        ("subject", JStr "Subj")]] [])
  = Ok [(JStr "m3", JStr "2026-01-02T10:00:00Z", JStr "Subj", JNull)].
Proof. reflexivity. Qed.

Example test_timeline_thread_body :
  eventsRead TimelineEvent.content
    (timeline [] [] [JObj [("id", JStr "th2"); ("created_at", JStr "2026-01-01");
                           ("subject", JStr "Test"); ("body", JStr "Body text")]])
  = Ok [JStr "Body text"].
Proof. reflexivity. Qed.

End UnitTests.


(* ================================================================== *)
(** ** Legible names *)

Module LegibleFacts.
Import Js Helpers Spec Aux JsFacts FlattenFacts ResolveFacts.
Local Open Scope js_scope.

Lemma blank_empty : blank "".
Proof. reflexivity. Qed.

Lemma text_truthy (s : string) : s <> "" -> truthy (JStr s) = true.
Proof. destruct s; [congruence|reflexivity]. Qed.

(** A legible part prints, and not as a blank, when it is there. *)
Lemma legible_part (part : JsVal) :
  legible part ->
  exists s, partText part = Ok s /\ (truthy part = true -> JsString.trim s <> "").
Proof.
  intros L; unfold partText; destruct (truthy part) eqn:T.
  - destruct (L T) as [s [Hs Hb]]; exists s; split; [exact Hs|intros _; exact Hb].
  - exists ""; split; [reflexivity|discriminate].
Qed.

(** What the resolver reads off a name value with legible fields is a
    non-empty string, its full name apart. *)
Lemma legible_fields (P : JsVal -> Prop) (x : JsVal) :
  (forall v, truthy v = true -> isString v = true -> P v) ->
  (truthy (readProp x "full_name") = true -> P (readProp x "full_name")) ->
  (forall field, In field coercedFields -> legible (readProp x field)) ->
  Fields P x.
Proof.
  intros Pt HF L; split; [exact HF|split].
  - intros Hparts; unfold personalName.
    destruct (legible_part _ (L "first_name" ltac:(cbn; auto))) as [a [-> Ha]].
    destruct (legible_part _ (L "last_name" ltac:(cbn; auto))) as [b [-> Hb]].
    cbn [bind]; eexists; split; [reflexivity|].
    apply Pt; [|reflexivity]; apply text_truthy, InkFacts.ink_survives.
    destruct Hparts as [T|T]; [left; exact (Ha T)|right; exact (Hb T)].
  - intros T.
    destruct (L "value" ltac:(cbn; auto) T) as [s [Hs Hb]].
    exists s; split; [exact Hs|].
    apply Pt; [|reflexivity]; apply text_truthy.
    intros ->; apply Hb, blank_empty.
Qed.

End LegibleFacts.

(* ================================================================== *)
(** ** The properties of the specification *)

Import Js Helpers Spec Aux Samples.
Import FlattenNotions NameNotions ShapeNotions PipelineNotions TaskNotions.
Import JsFacts FlattenFacts NameFacts ResolveFacts ShapeFacts PipelineFacts.
Import TallyFacts SummaryFacts SortFacts TaskFacts TimelineFacts.
Import PipelineCases TaskCases TimelineCases FlattenCases NameCases.
Import LegibleFacts IcuFacts.
Local Open Scope js_scope.

(** C9, amended.  The Value Flattener degrades on missing data: a null,
    undefined or non-object input and the empty mapping flatten to the empty
    mapping; and in the flattening of a mapping whose arrays start with
    attribute values, every key other than [__proto__] whose array is empty
    or missing is bound to an explicit [null], while a key the input does
    not have stays absent.  Whatever the arrays hold, a flattening that
    returns binds every such key to [null], and binds nothing under
    [__proto__].  The flattener does fail on some mappings: an array that
    starts with [null] or [undefined] makes it raise. *)
Theorem flattenValues_degrades :
  (forall values : JsVal,
      truthy values = false \/ typeofObject values = false ->
      flattenValues values = Ok emptyFlat)
  /\ flattenValues (JObj []) = Ok emptyFlat
  /\ (forall props : list (string * JsVal),
        Forall (fun entry => wellHeaded entry = true) props ->
        exists flat,
          flattenValues (JObj props) = Ok flat /\
          forall key : string,
            key <> "__proto__" ->
            match assoc key props with
            | Some arr =>
                emptyOrMissing arr = true ->
                assoc key (Flat.own flat) = Some JNull
            | None => assoc key (Flat.own flat) = None
            end)
  /\ (forall (props : list (string * JsVal)) (flat : Flat.t) (key : string)
             (arr : JsVal),
        flattenValues (JObj props) = Ok flat ->
        key <> "__proto__" ->
        assoc key props = Some arr -> emptyOrMissing arr = true ->
        assoc key (Flat.own flat) = Some JNull)
  /\ (forall (props : list (string * JsVal)) (flat : Flat.t),
        flattenValues (JObj props) = Ok flat ->
        assoc "__proto__" (Flat.own flat) = None)
  /\ (forall (props : list (string * JsVal)) (key : string)
             (first : JsVal) (rest : list JsVal),
        assoc key props = Some (JArr (first :: rest)) ->
        nullish first = true ->
        flattenValues (JObj props) = Throw TypeError).
Proof.
  assert (K : forall (props : list (string * JsVal)) (flat : Flat.t)
                     (key : string) (arr : JsVal),
             flattenValues (JObj props) = Ok flat ->
             key <> "__proto__" ->
             assoc key props = Some arr -> emptyOrMissing arr = true ->
             assoc key (Flat.own flat) = Some JNull).
  { intros props flat key arr Hflat Hk Ha He.
    destruct (flattened_key props flat key arr Hflat Hk Ha) as [v [Hv ->]].
    rewrite (flattenEntry_empty arr He) in Hv; congruence. }
  split; [|split; [|split; [|split; [|split]]]].
  - intros values [H|H]; unfold flattenValues; rewrite H; cbn;
      [reflexivity|now rewrite orb_true_r].
  - reflexivity.
  - intros props Hheads; apply forallb_Forall in Hheads.
    exists (assignAll props emptyFlat).
    assert (Hflat : flattenValues (JObj props) = Ok (assignAll props emptyFlat))
      by now rewrite flattenValues_cases, Hheads.
    split; [exact Hflat|].
    intros key Hk; destruct (assoc key props) as [arr|] eqn:Ha.
    + intros He; exact (K props _ key arr Hflat Hk Ha He).
    + exact (flattened_absent props _ key Hflat Ha).
  - exact K.
  - intros props flat Hflat; destruct (flattenValues_inv _ _ Hflat) as [_ ->].
    rewrite own_flattened; apply assoc_proto.
  - intros props key first rest Ha Hn; apply flattenValues_throws.
    apply Exists_exists; exists (key, JArr (first :: rest)).
    split; [apply assoc_In, Ha|].
    cbn [wellHeaded snd]; unfold attributeValue; rewrite Hn; reflexivity.
Qed.

(** A mapping with an empty array, a non-array and a populated key: the first
    two flatten to [null], distinct from the unbound key. *)
Lemma flattenValues_degrades_witness :
  Forall (fun entry => wellHeaded entry = true)
    [("empty", JArr []); ("missing", JNull);
     ("tags", JArr [JStr "important"])] /\
  exists flat,
    flattenValues (JObj [("empty", JArr []); ("missing", JNull);
                         ("tags", JArr [JStr "important"])]) = Ok flat /\
    assoc "empty" (Flat.own flat) = Some JNull /\
    assoc "missing" (Flat.own flat) = Some JNull /\
    assoc "absent" (Flat.own flat) = None.
Proof.
  assert (Hheads : Forall (fun entry => wellHeaded entry = true)
    [("empty", JArr []); ("missing", JNull);
     ("tags", JArr [JStr "important"])]) by (repeat constructor).
  split; [exact Hheads|].
  destruct (proj1 (proj2 (proj2 flattenValues_degrades)) _ Hheads)
    as [flat [Hflat Hkeys]].
  exists flat; split; [exact Hflat|].
  split; [exact (Hkeys "empty" ltac:(discriminate) eq_refl)|].
  split; [exact (Hkeys "missing" ltac:(discriminate) eq_refl)
         |exact (Hkeys "absent" ltac:(discriminate))].
Defined.

(** An array that starts with [null] makes the flattener raise, empty
    arrays beside it or not; and the key [__proto__] with an empty array is
    not bound to [null]: the flat object has no property at all, and [null]
    for its prototype. *)
Lemma flattener_raises_and_drops :
  flattenValues (JObj [("a", JArr []); ("b", JArr [JNull])]) = Throw TypeError /\
  emptyOrMissing (JArr []) = true /\
  flattenValues (JObj [("__proto__", JArr [])])
  = Ok (Flat.make (Proto JNull) []).
Proof. repeat split. Qed.

(** C2, amended.  For every attribute value whose full-name field is truthy
    (a non-empty string), the flattener makes that field's value of it
    exactly, and binds the key to it when the key is not [__proto__]; and a
    record whose name value it is resolves to it exactly; the first-name and
    last-name fields play no part. *)
Theorem full_name_returned_exactly (first : JsVal) :
  truthy (readProp first "full_name") = true ->
  (forall rest : list JsVal,
      flattenEntry (JArr (first :: rest)) = Ok (readProp first "full_name"))
  /\ (forall (props : list (string * JsVal)) (key : string) (rest : list JsVal),
        Forall (fun entry => wellHeaded entry = true) props ->
        key <> "__proto__" ->
        assoc key props = Some (JArr (first :: rest)) ->
        exists flat,
          flattenValues (JObj props) = Ok flat /\
          assoc key (Flat.own flat) = Some (readProp first "full_name"))
  /\ (forall record : JsVal,
        nameValue record = first ->
        extractRecordName record = Ok (readProp first "full_name")).
Proof.
  intros F; split; [|split].
  - intros rest; exact (flattenFirst_full first F).
  - intros props key rest Hheads Hk Ha.
    destruct (flattenValues_key props key _ Hheads Hk Ha) as [flat [v [Hf [Hv Hb]]]].
    exists flat; split; [exact Hf|].
    cbn [flattenEntry] in Hv; rewrite (flattenFirst_full first F) in Hv.
    congruence.
  - intros record <-.
    destruct (extractRecordName_start record) as [rest ->].
    now rewrite (fromNameVal_full _ F).
Qed.

Lemma full_name_returned_exactly_witness :
  truthy (readProp aliceName "full_name") = true /\
  (exists flat,
      flattenValues (JObj (named aliceName)) = Ok flat /\
      assoc "name" (Flat.own flat) = Some (JStr "Alice Smith")) /\
  extractRecordName (recordOf (named aliceName)) = Ok (JStr "Alice Smith").
Proof.
  split; [reflexivity|].
  destruct (full_name_returned_exactly aliceName eq_refl) as [_ [Hflat Hname]].
  split.
  - apply (Hflat (named aliceName) "name" []);
      [repeat constructor|discriminate|reflexivity].
  - apply (Hname (recordOf (named aliceName))); reflexivity.
Defined.

(** A full-name field that is present but empty is not returned: the
    flattener composes first and last instead. *)
Lemma empty_full_name_not_returned :
  readProp bobBlankFull "full_name" = JStr "" /\
  flattenValues (JObj (named bobBlankFull))
  = Ok (Flat.make ObjectPrototype [("name", JStr "Bob J")]) /\
  extractRecordName (recordOf (named bobBlankFull)) = Ok (JStr "Bob J").
Proof. repeat split; vm_compute; reflexivity. Qed.

(** C3, amended.  For every attribute value whose full-name field is falsy
    and whose first-name or last-name field is truthy, record-name resolution
    gives the two parts joined by one space and trimmed, a missing part
    printing as nothing: it returns that name, which has no leading or
    trailing space, when the parts can be converted to strings, and raises
    otherwise.  The flattener does the same when the full-name field is
    present (and empty); an attribute value with none of the fields the
    flattener recognises is passed through unchanged. *)
Theorem first_last_composed (nameVal : JsVal) :
  truthy (readProp nameVal "full_name") = false ->
  truthy (readProp nameVal "first_name") = true \/
  truthy (readProp nameVal "last_name") = true ->
  (forall record : JsVal,
      nameValue record = nameVal ->
      extractRecordName record = (s <- personalName nameVal ;; Ok (JStr s)))
  /\ (printable (readProp nameVal "first_name") = true ->
      printable (readProp nameVal "last_name") = true ->
      exists s, personalName nameVal = Ok s /\ trimmed s)
  /\ (defined (readProp nameVal "full_name") = true ->
      forall (props : list (string * JsVal)) (key : string) (rest : list JsVal),
        Forall (fun entry => wellHeaded entry = true) props ->
        key <> "__proto__" ->
        assoc key props = Some (JArr (nameVal :: rest)) ->
        exists flat s,
          flattenValues (JObj props) = Ok flat /\
          personalName nameVal = Ok s /\
          assoc key (Flat.own flat) = Some (JStr s))
  /\ (unrecognised nameVal = true ->
      forall (props : list (string * JsVal)) (key : string) (rest : list JsVal),
        Forall (fun entry => wellHeaded entry = true) props ->
        key <> "__proto__" ->
        assoc key props = Some (JArr (nameVal :: rest)) ->
        exists flat,
          flattenValues (JObj props) = Ok flat /\
          assoc key (Flat.own flat) = Some nameVal)
  /\ (printable (readProp nameVal "first_name")
      && printable (readProp nameVal "last_name") = false ->
      forall record : JsVal,
        nameValue record = nameVal ->
        extractRecordName record = Throw TypeError).
Proof.
  intros F P; split; [|split; [|split; [|split]]].
  - intros record <-.
    destruct (extractRecordName_start record) as [rest ->].
    rewrite (fromNameVal_parts _ F P).
    destruct (personalName (nameValue record)); reflexivity.
  - intros P1 P2; destruct (personalName_ok nameVal P1 P2) as [s Hs].
    exists s; split; [exact Hs|].
    unfold personalName in Hs.
    destruct (partText (readProp nameVal "first_name")); cbn [bind] in Hs;
      [|discriminate].
    destruct (partText (readProp nameVal "last_name")); cbn [bind] in Hs;
      [|discriminate].
    injection Hs as <-; apply TrimFacts.trim_idempotent.
  - intros D props key rest Hheads Hk Ha.
    destruct (flattenValues_key props key _ Hheads Hk Ha) as [flat [v [Hf [Hv Hb]]]].
    cbn [flattenEntry] in Hv; rewrite (flattenFirst_blank_full nameVal D F) in Hv.
    destruct (personalName nameVal) as [s|]; cbn [bind] in Hv; [|discriminate].
    exists flat, s; repeat split; [exact Hf|congruence].
  - intros U props key rest Hheads Hk Ha.
    destruct (flattenValues_key props key _ Hheads Hk Ha) as [flat [v [Hf [Hv Hb]]]].
    cbn [flattenEntry] in Hv; rewrite (flattenFirst_unrecognised nameVal U) in Hv.
    exists flat; split; [exact Hf|congruence].
  - intros U record <-.
    destruct (extractRecordName_start record) as [rest ->].
    rewrite (fromNameVal_parts _ F P), (personalName_throws _ U); reflexivity.
Qed.

Lemma first_last_composed_witness :
  truthy (readProp bobBlankFull "full_name") = false /\
  truthy (readProp bobBlankFull "first_name") = true /\
  extractRecordName (recordOf (named bobBlankFull)) = Ok (JStr "Bob J") /\
  (exists flat s,
      flattenValues (JObj (named bobBlankFull)) = Ok flat /\
      personalName bobBlankFull = Ok s /\
      assoc "name" (Flat.own flat) = Some (JStr s)).
Proof.
  split; [reflexivity|]. split; [reflexivity|].
  destruct (first_last_composed bobBlankFull eq_refl (or_introl eq_refl))
    as [Hname [_ [Hflat _]]].
  split.
  - apply (Hname (recordOf (named bobBlankFull))); reflexivity.
  - apply (Hflat eq_refl (named bobBlankFull) "name" []);
      [repeat constructor|discriminate|reflexivity].
Defined.

(** Without a full-name field the flattener does not compose first and last
    name: it passes the attribute value through as it is. *)
Lemma first_last_not_composed_by_flattener :
  readProp bobNoFull "full_name" = JUndefined /\
  flattenValues (JObj (named bobNoFull))
  = Ok (Flat.make ObjectPrototype [("name", bobNoFull)]).
Proof. split; vm_compute; reflexivity. Qed.

(** C6, amended.  Record name resolution returns ["Unknown"] for [null],
    [undefined] and the empty object.  For every record whose name values
    have first-name, last-name and [value] fields that can be converted to
    strings it returns without raising, with a truthy value or the empty
    string.  The result is truthy, so never the empty string, when those
    fields are legible, that is print as more than whitespace when present;
    and it is a non-empty string when, moreover, the full names and the id
    of the record are strings. *)
Theorem extractRecordName_total :
  extractRecordName JNull = Ok (JStr "Unknown")
  /\ extractRecordName JUndefined = Ok (JStr "Unknown")
  /\ extractRecordName (JObj []) = Ok (JStr "Unknown")
  /\ (forall record : JsVal,
        nameable record = true ->
        exists v, extractRecordName record = Ok v /\
                  (truthy v = true \/ v = JStr ""))
  /\ (forall record : JsVal,
        legibleNames record ->
        exists v, extractRecordName record = Ok v /\ truthy v = true)
  /\ (forall record : JsVal,
        legibleNames record -> textualNames record ->
        exists s, extractRecordName record = Ok (JStr s) /\ s <> "").
Proof.
  split; [reflexivity|split; [reflexivity|split; [reflexivity|split; [|split]]]].
  - exact extractRecordName_nameable.
  - intros record L.
    apply (extractRecordName_yields (fun v => truthy v = true)); try tauto.
    intros key Hk; apply legible_fields; [tauto|tauto|].
    intros field Hf; exact (L key field Hk Hf).
  - intros record L [Tf [Tr Ti]].
    assert (Pt : forall v, truthy v = true -> isString v = true ->
                           exists s, v = JStr s /\ s <> "").
    { intros v T S; destruct v; try discriminate.
      eexists; split; [reflexivity|intros ->; discriminate]. }
    destruct (extractRecordName_yields (fun v => exists s, v = JStr s /\ s <> "")
                Pt record) as [v [Hv [s [-> Hs]]]].
    + intros key Hk; apply legible_fields; [exact Pt| |].
      * intros F; apply Pt; [exact F|exact (Tf key Hk F)].
      * intros field Hf; exact (L key field Hk Hf).
    + intros T; apply Pt; [exact T|exact (Tr T)].
    + intros T; apply Pt; [exact T|exact (Ti T)].
    + exists s; split; assumption.
Qed.

Lemma extractRecordName_total_witness :
  legibleNames (recordOf (named bobNoFull)) /\
  exists v, extractRecordName (recordOf (named bobNoFull)) = Ok v /\
            truthy v = true.
Proof.
  assert (L : legibleNames (recordOf (named bobNoFull))).
  { intros key field Hk Hf T.
    cbn in Hk, Hf.
    repeat (destruct Hk as [<-|Hk]; [|]);
    repeat (destruct Hf as [<-|Hf]; [|]);
      try contradiction; try discriminate T;
      (eexists; split; [reflexivity|vm_compute; discriminate]). }
  split; [exact L|].
  exact (proj1 (proj2 (proj2 (proj2 (proj2 extractRecordName_total)))) _ L).
Defined.

(** Three inputs on which resolution is not what the claim says: a first
    name that is an object with a [toString] property of its own makes it
    raise; a first name of one space makes it return the empty string; and
    an id that is a number is returned as the number it is. *)
Lemma resolution_raises_or_returns_no_text :
  extractRecordName (recordOf (named (JObj [("first_name", noText)])))
  = Throw TypeError /\
  extractRecordName (recordOf (named (JObj [("first_name", JStr " ")])))
  = Ok (JStr "") /\
  extractRecordName (JObj [("id", num 5)]) = Ok (num 5).
Proof. repeat split. Qed.

(** C8, amended.  For every list of raw records, shaping with a non-empty
    type filter returns the shaped projections of exactly the records whose
    own type tag or parent type tag equals the filter, in their original
    relative order; shaping with no filter, and shaping with the empty
    string as filter, return the shaped projection of every record, in input
    order. *)
Theorem shapeSearchResults_filters (records : list JsVal) :
  Forall (fun r => rawRecord r = true) records ->
  (forall t : string,
      t <> "" ->
      exists out,
        shapeSearchResults records (Some t) = Ok out /\
        Forall2 (fun r s => shapeRecord (JStr t) r = Ok s)
                (filter (hasTypeTag t) records) out)
  /\ (exists out,
        shapeSearchResults records None = Ok out /\
        Forall2 (fun r s => shapeRecord JUndefined r = Ok s) records out)
  /\ (exists out,
        shapeSearchResults records (Some "") = Ok out /\
        Forall2 (fun r s => shapeRecord (JStr "") r = Ok s) records out).
Proof.
  intros Hraw.
  assert (All : forall objectType : JsVal,
             truthy objectType = false ->
             exists out,
               (kept <- filterM (keepRecord objectType) records ;;
                mapM (shapeRecord objectType) kept) = Ok out /\
               Forall2 (fun r s => shapeRecord objectType r = Ok s) records out).
  { intros objectType T; rewrite (unfiltered objectType records T), bind_ok.
    destruct (mapM_total (shapeRecord objectType) records) as [out Hout].
    - eapply Forall_impl; [|exact Hraw]; intros r; apply shapeRecord_total.
    - exists out; split; [exact Hout|apply mapM_Forall2, Hout]. }
  split; [|split].
  - intros t Ht; unfold shapeSearchResults; cbn [optional].
    rewrite (filterM_pure _ (hasTypeTag t)), bind_ok.
    + destruct (mapM_total (shapeRecord (JStr t)) (filter (hasTypeTag t) records))
        as [out Hout].
      * apply Forall_filter; eapply Forall_impl; [|exact Hraw].
        intros r; apply shapeRecord_total.
      * exists out; split; [exact Hout|apply mapM_Forall2, Hout].
    + eapply Forall_impl; [|exact Hraw].
      intros r Hr; apply keepRecord_filter; [exact Ht|apply rawRecord_present, Hr].
  - exact (All JUndefined eq_refl).
  - exact (All (JStr "") eq_refl).
Qed.

Lemma shapeSearchResults_filters_witness :
  Forall (fun r => rawRecord r = true) [alice; widget; aliceNote] /\
  "people" <> "" /\
  exists out,
    shapeSearchResults [alice; widget; aliceNote] (Some "people") = Ok out /\
    Forall2 (fun r s => shapeRecord (JStr "people") r = Ok s) [alice; aliceNote] out.
Proof.
  assert (Hraw : Forall (fun r => rawRecord r = true) [alice; widget; aliceNote])
    by (repeat constructor).
  split; [exact Hraw|]. split; [discriminate|].
  exact (proj1 (shapeSearchResults_filters _ Hraw) "people" ltac:(discriminate)).
Defined.

(** The empty string is a type filter that filters nothing: a record tagged
    [people] passes it. *)
Lemma empty_filter_passes_everything :
  hasTypeTag "" alice = false /\
  option_map (map ShapedRecord.id)
    (match shapeSearchResults [alice; widget] (Some "") with
     | Ok out => Some out
     | Throw _ => None
     end) = Some [JStr "r1"; JStr "r2"].
Proof. split; vm_compute; reflexivity. Qed.

(** C4, amended.  For every list of raw pipeline entries, a stage's reported
    total is [null] if and only if every entry of that stage has the value
    [null], that is if no entry of the stage contributed a value, numeric or
    not; so a stage that reports [null] has no entry with a numeric value,
    and the stage's count is the number of its entries.  In particular a
    stage with values [5000, 0] reports 5000 with count 2, and a stage whose
    entries all lack a value reports [null]. *)
Theorem stage_total_null_iff :
  (forall (listId listName : string) (entryList : list JsVal) (names : NameMap),
      Forall (fun e => rawEntry e = true) entryList ->
      exists p,
        computePipelineSummary listId listName (JArr entryList) names = Ok p /\
        (Forall textStage (PipelineSummary.entries p) ->
         forall s, In s (PipelineSummary.stages p) ->
           (PipelineStageSummary.totalValue s = None <->
            forall e, In e (PipelineSummary.entries p) ->
                      inStage (PipelineStageSummary.stage s) e = true ->
                      PipelineEntry.value e = None) /\
           (PipelineStageSummary.totalValue s = None ->
            forall e, In e (PipelineSummary.entries p) ->
                      inStage (PipelineStageSummary.stage s) e = true ->
                      numeric e = false) /\
           PipelineStageSummary.count s =
           List.length (filter (inStage (PipelineStageSummary.stage s))
                          (PipelineSummary.entries p))))
  /\ bind (computePipelineSummary "list1" "Test" (JArr fiveThousandAndZero) [])
          (fun p => Ok (PipelineSummary.stages p))
     = Ok [PipelineStageSummary.make (JStr "New") 2 (Some (JsNumber.ofZ 5000))]
  /\ bind (computePipelineSummary "list1" "Test" (JArr noValues) [])
          (fun p => Ok (PipelineSummary.stages p))
     = Ok [PipelineStageSummary.make (JStr "New") 2 None].
Proof.
  split; [|split; vm_compute; reflexivity].
  intros listId listName entryList names H.
  destruct (computePipelineSummary_ok listId listName entryList names H)
    as [es [-> _]].
  eexists; split; [reflexivity|].
  cbn [PipelineSummary.entries PipelineSummary.stages].
  intros Htext s Hs.
  pose proof (stages_summarise es s Htext Hs) as Es.
  assert (Et : PipelineStageSummary.totalValue s
               = if existsb contributed
                      (filter (inStage (PipelineStageSummary.stage s)) es)
                 then Some (runningTotal
                              (filter (inStage (PipelineStageSummary.stage s)) es))
                 else None)
    by (rewrite Es at 1; reflexivity).
  assert (Iff : PipelineStageSummary.totalValue s = None <->
                forall e, In e es ->
                          inStage (PipelineStageSummary.stage s) e = true ->
                          PipelineEntry.value e = None).
  { rewrite Et; clear Et Es.
    destruct (existsb contributed _) eqn:E.
    - split; [discriminate|].
      intros Hnone; exfalso.
      assert (E' : existsb contributed
                     (filter (inStage (PipelineStageSummary.stage s)) es) = false).
      { apply existsb_contributed_false; intros e He.
        apply filter_In in He as [He1 He2]; auto. }
      congruence.
    - split; [|reflexivity]; intros _ e He Hin.
      apply (proj1 (existsb_contributed_false _) E), filter_In; auto. }
  split; [exact Iff|split; [|rewrite Es at 1; reflexivity]].
  intros Hnone e He Hin; unfold numeric.
  now rewrite (proj1 Iff Hnone e He Hin).
Qed.

Lemma stage_total_null_iff_witness :
  Forall (fun e => rawEntry e = true) fiveThousandAndZero /\
  exists p,
    computePipelineSummary "list1" "Test" (JArr fiveThousandAndZero) [] = Ok p /\
    (Forall textStage (PipelineSummary.entries p) ->
     forall s, In s (PipelineSummary.stages p) ->
       (PipelineStageSummary.totalValue s = None <->
        forall e, In e (PipelineSummary.entries p) ->
                  inStage (PipelineStageSummary.stage s) e = true ->
                  PipelineEntry.value e = None) /\
       (PipelineStageSummary.totalValue s = None ->
        forall e, In e (PipelineSummary.entries p) ->
                  inStage (PipelineStageSummary.stage s) e = true ->
                  numeric e = false) /\
       PipelineStageSummary.count s =
       List.length (filter (inStage (PipelineStageSummary.stage s))
                      (PipelineSummary.entries p))).
Proof.
  assert (H : Forall (fun e => rawEntry e = true) fiveThousandAndZero)
    by (repeat constructor).
  split; [exact H|].
  exact (proj1 stage_total_null_iff "list1" "Test" fiveThousandAndZero [] H).
Defined.

(** A stage whose one entry has the amount ['abc']: no entry of the stage
    contributed a numeric value, and the total reported is [NaN], not
    [null]. *)
Lemma text_only_stage_reports_NaN :
  bind (computePipelineSummary "list1" "Test"
          (JArr [entryWith "e1" "New" [("value", JStr "abc")]]) [])
       (fun p => Ok (map PipelineStageSummary.totalValue (PipelineSummary.stages p),
                     existsb numeric (PipelineSummary.entries p)))
  = Ok ([Some JsNumber.NaN], false).
Proof. vm_compute; reflexivity. Qed.

(** C1, amended.  For every pipeline entry the summary's value is the
    resolved one: read from the first truthy primary value among [value],
    [amount] and [deal_value], the currency amount taking precedence over the
    generic value; an absent amount yields [null], and any other is coerced
    with [Number].  A stage's total is the running sum of the values its
    entries contributed, so a [NaN] among them makes the total [NaN]. *)
Theorem entry_value_resolution (listId listName : string)
  (entryList : list JsVal) (names : NameMap) :
  Forall (fun e => rawEntry e = true) entryList ->
  exists p,
    computePipelineSummary listId listName (JArr entryList) names = Ok p /\
    map PipelineEntry.value (PipelineSummary.entries p)
    = map resolvedValue entryList /\
    (Forall textStage (PipelineSummary.entries p) ->
     forall s, In s (PipelineSummary.stages p) ->
       let members := filter (inStage (PipelineStageSummary.stage s))
                        (PipelineSummary.entries p) in
       PipelineStageSummary.totalValue s
       = (if existsb contributed members then Some (runningTotal members)
          else None) /\
       (forall e, In e members ->
                  PipelineEntry.value e = Some JsNumber.NaN ->
                  PipelineStageSummary.totalValue s = Some JsNumber.NaN)).
Proof.
  intros H.
  destruct (computePipelineSummary_ok listId listName entryList names H)
    as [es [-> [_ [_ Hv]]]].
  eexists; split; [reflexivity|].
  cbn [PipelineSummary.entries PipelineSummary.stages].
  split; [exact Hv|].
  intros Htext s Hs.
  set (members := filter (inStage (PipelineStageSummary.stage s)) es).
  assert (E : PipelineStageSummary.totalValue s
              = if existsb contributed members then Some (runningTotal members)
                else None).
  { rewrite (stages_summarise es s Htext Hs) at 1; reflexivity. }
  split; [exact E|].
  intros e He Hnan; rewrite E.
  replace (existsb contributed members) with true.
  - now rewrite (runningTotal_NaN members e He Hnan).
  - symmetry; apply existsb_exists; exists e; split; [exact He|].
    unfold contributed; now rewrite Hnan.
Qed.

Lemma entry_value_resolution_witness :
  Forall (fun e => rawEntry e = true) fiveThousandAndZero /\
  exists p,
    computePipelineSummary "list1" "Test" (JArr fiveThousandAndZero) [] = Ok p /\
    map PipelineEntry.value (PipelineSummary.entries p)
    = [Some (JsNumber.ofZ 5000); Some (JsNumber.ofZ 0)].
Proof.
  assert (H : Forall (fun e => rawEntry e = true) fiveThousandAndZero)
    by (repeat constructor).
  split; [exact H|].
  destruct (entry_value_resolution "list1" "Test" fiveThousandAndZero [] H)
    as [p [Hp [Hv _]]].
  exists p; split; [exact Hp|exact Hv].
Defined.

(** A value that is text: the entry's value is [NaN], not [null], and the
    stage's total, which holds a real 5000, is [NaN] too. *)
Lemma text_value_yields_NaN :
  bind (computePipelineSummary "list1" "Test" (JArr fiveThousandAndText) [])
       (fun p => Ok (map PipelineEntry.value (PipelineSummary.entries p),
                     map PipelineStageSummary.totalValue (PipelineSummary.stages p)))
  = Ok ([Some (JsNumber.ofZ 5000); Some JsNumber.NaN], [Some JsNumber.NaN]).
Proof. vm_compute; reflexivity. Qed.

(** C10.  Task enrichment partitions without loss or duplication: for every
    list of raw tasks, the open and the completed lists together are a
    rearrangement of the enriched tasks, one per input task, every task of
    [open] is not completed and every task of [completed] is, so the two
    lengths add up to the length of the input. *)
Theorem enrichTasks_partitions (tasks : list JsVal) (memberMap names : NameMap) :
  Forall (fun t => rawTask t = true) tasks ->
  exists enriched groups,
    mapM (enrichTask memberMap names) tasks = Ok enriched /\
    enrichTasks tasks memberMap names = Ok groups /\
    Permutation (TaskGroups.open groups ++ TaskGroups.completed groups) enriched /\
    Forall (fun t => EnrichedTask.isCompleted t = false) (TaskGroups.open groups) /\
    Forall (fun t => EnrichedTask.isCompleted t = true)
           (TaskGroups.completed groups) /\
    List.length (TaskGroups.open groups) + List.length (TaskGroups.completed groups)
    = List.length tasks.
Proof.
  intros H.
  set (enriched := map (enrichedTask memberMap names) tasks).
  exists enriched, (sortThenPartition enriched).
  split; [exact (enrichAll_total memberMap names tasks H)|].
  split; [exact (enrichTasks_raw tasks memberMap names H)|].
  pose proof (sortThenPartition_perm enriched) as P.
  split; [exact P|].
  split; [|split].
  - apply Forall_forall; intros t Ht; cbn in Ht.
    apply filter_In in Ht as [_ Ht]; now apply negb_true_iff in Ht.
  - apply Forall_forall; intros t Ht; cbn in Ht.
    now apply filter_In in Ht as [_ Ht].
  - rewrite <- length_app, (Permutation_length P).
    unfold enriched; apply length_map.
Qed.

Lemma enrichTasks_partitions_witness :
  Forall (fun t => rawTask t = true) threeTasks /\
  exists groups,
    enrichTasks threeTasks [] [] = Ok groups /\
    List.length (TaskGroups.open groups) + List.length (TaskGroups.completed groups)
    = 3.
Proof.
  assert (H : Forall (fun t => rawTask t = true) threeTasks)
    by (repeat constructor).
  split; [exact H|].
  destruct (enrichTasks_partitions threeTasks [] [] H)
    as [enriched [groups [_ [Hg [_ [_ [_ Hlen]]]]]]].
  exists groups; split; [exact Hg|exact Hlen].
Defined.

(** C5.  Enriching a task list is partition-order-independent: sorting the
    full enriched set once by the deadline rule (tasks with a deadline first,
    ascending; tasks without one after them, in their original relative
    order) and then splitting by completion flag, as the code does, gives what
    partitioning first and sorting each partition gives.  For deadlines
    [2026-02-15, 2026-02-10, null] and completion [false, true, false],
    [open] is ordered [2026-02-15, null] and [completed] is [2026-02-10]. *)
Theorem enrichTasks_partition_order :
  (forall (tasks : list JsVal) (memberMap names : NameMap),
      Forall (fun t => rawTask t = true) tasks ->
      exists enriched,
        mapM (enrichTask memberMap names) tasks = Ok enriched /\
        enrichTasks tasks memberMap names = Ok (sortThenPartition enriched) /\
        (Forall textDeadline enriched ->
         sortThenPartition enriched = partitionThenSort enriched /\
         StronglySorted deadlineNotAfter
           (sortWith dueBefore (filter hasDeadline enriched))))
  /\ bind (enrichTasks threeTasks [] [])
          (fun g => Ok (map EnrichedTask.deadline (TaskGroups.open g),
                        map EnrichedTask.deadline (TaskGroups.completed g)))
     = Ok ([JStr "2026-02-15"; JNull], [JStr "2026-02-10"]).
Proof.
  split; [|vm_compute; reflexivity].
  intros tasks memberMap names H.
  exists (map (enrichedTask memberMap names) tasks).
  split; [exact (enrichAll_total memberMap names tasks H)|].
  split; [exact (enrichTasks_raw tasks memberMap names H)|].
  intros Ht; split; [|apply deadlineOrder_ascending, Ht].
  unfold sortThenPartition, partitionThenSort.
  now rewrite !filter_deadlineOrder.
Qed.

Lemma enrichTasks_partition_order_witness :
  Forall (fun t => rawTask t = true) threeTasks /\
  exists enriched,
    mapM (enrichTask [] []) threeTasks = Ok enriched /\
    Forall textDeadline enriched /\
    enrichTasks threeTasks [] [] = Ok (partitionThenSort enriched).
Proof.
  assert (H : Forall (fun t => rawTask t = true) threeTasks)
    by (repeat constructor).
  split; [exact H|].
  destruct (proj1 enrichTasks_partition_order threeTasks [] [] H)
    as [enriched [He [Hg Hspec]]].
  exists enriched; split; [exact He|].
  assert (Ht : Forall textDeadline enriched).
  { vm_compute in He; injection He as <-; repeat constructor. }
  split; [exact Ht|].
  rewrite Hg; f_equal; exact (proj1 (Hspec Ht)).
Defined.

(** C7, amended.  The merged timeline is ordered by date, latest first, as
    the collation of the runtime ranks the dates.  For every collation an
    event without a date stands after every event with one, wherever it was
    in the input; under a collation that ranks the strings, as that of the
    runtime does, of two dated events the earlier in the output never has
    the date the collation ranks first; and where the collation orders the
    dates as the lexical order does, it never has the lexically smaller date.
    A note dated 2026-02-05, a meeting dated 2026-02-06 and a thread dated
    2026-02-04 merge to [meeting, note, thread]. *)
Theorem timeline_descending :
  (forall (localeCompare : string -> string -> Z)
          (notes meetings threads : list JsVal),
      Forall (fun v => present v = true) (notes ++ meetings ++ threads) ->
      exists events,
        normalised notes meetings threads = Ok events /\
        (Forall textDate events ->
         exists out,
           buildActivityTimeline localeCompare notes meetings threads = Ok out /\
           Permutation out events /\
           StronglySorted datedFirst out /\
           (ranks localeCompare ->
            StronglySorted (rankedLaterFirst localeCompare) out) /\
           (lexicalOn localeCompare events -> StronglySorted laterFirst out)))
  /\ ranks Icu.localeCompare
  /\ (forall localeCompare : string -> string -> Z,
        (forall s t, In s sampleDates -> In t sampleDates ->
                     (localeCompare s t <? 0)%Z = String.ltb s t) ->
        bind (buildActivityTimeline localeCompare [aNote] [aMeeting] [aThread])
             (fun out => Ok (map TimelineEvent.type out))
        = Ok [meeting; note; thread])
  /\ bind (buildActivityTimeline Icu.localeCompare [aNote] [aMeeting] [aThread])
          (fun out => Ok (map TimelineEvent.type out))
     = Ok [meeting; note; thread].
Proof.
  split; [|split; [exact localeCompare_ranks|split; [|reflexivity]]].
  - intros localeCompare notes meetings threads H.
    destruct (normalised_total notes meetings threads H) as [events He].
    exists events; split; [exact He|].
    intros Ht; exists (sortWith (beforeUnder localeCompare) events).
    split; [exact (timeline_sorted localeCompare _ _ _ events He Ht)|].
    split; [apply sortWith_perm|].
    split; [apply sort_datedFirst|].
    split; [apply sort_rankedLaterFirst|].
    intros Hlex; rewrite (lexical_sort localeCompare events Hlex).
    apply sort_laterFirst.
  - intros localeCompare Hlex.
    assert (He : exists events,
               normalised [aNote] [aMeeting] [aThread] = Ok events /\
               map dateText events = sampleDates /\
               Forall textDate events)
      by (eexists; split; [reflexivity|split; [reflexivity|repeat constructor]]).
    destruct He as [events [He [Hd Ht]]].
    rewrite (timeline_sorted localeCompare _ _ _ events He Ht).
    rewrite (lexical_sort localeCompare events).
    + vm_compute in He; injection He as <-; vm_compute; reflexivity.
    + intros a b Ha Hb _ _; apply Hlex; rewrite <- Hd; apply in_map; assumption.
Qed.

Lemma timeline_descending_witness :
  Forall (fun v => present v = true) ([anUndatedNote; aNote] ++ [aMeeting] ++ [aThread]) /\
  exists events out,
    normalised [anUndatedNote; aNote] [aMeeting] [aThread] = Ok events /\
    Forall textDate events /\
    ranks Icu.localeCompare /\
    buildActivityTimeline Icu.localeCompare [anUndatedNote; aNote] [aMeeting] [aThread]
    = Ok out /\
    StronglySorted datedFirst out /\
    StronglySorted (rankedLaterFirst Icu.localeCompare) out.
Proof.
  assert (H : Forall (fun v => present v = true)
                ([anUndatedNote; aNote] ++ [aMeeting] ++ [aThread]))
    by (repeat constructor).
  split; [exact H|].
  destruct (proj1 timeline_descending Icu.localeCompare
              [anUndatedNote; aNote] [aMeeting] [aThread] H)
    as [events [He Hout]].
  assert (Ht : Forall textDate events)
    by (vm_compute in He; injection He as <-; repeat constructor).
  destruct (Hout Ht) as [out [Hb [_ [Hd [Hr _]]]]].
  exists events, out; repeat split; try assumption;
    try exact (proj1 localeCompare_ranks); try exact (proj2 localeCompare_ranks).
  exact (Hr localeCompare_ranks).
Defined.

(** Two timestamps that differ in the sign of the offset: the note's is the
    lexically smaller, and the runtime puts the note first, because its
    collation ranks the hyphen-minus before the plus sign. *)
Lemma offsets_against_lexical_order :
  String.ltb "2026-02-05T10:00:00+01:00" "2026-02-05T10:00:00-05:00" = true /\
  bind (buildActivityTimeline Icu.localeCompare [parisNote] [newYorkMeeting] [])
       (fun out => Ok (map TimelineEvent.date out))
  = Ok [JStr "2026-02-05T10:00:00+01:00"; JStr "2026-02-05T10:00:00-05:00"].
Proof. split; vm_compute; reflexivity. Qed.

(* ================================================================== *)
(** ** When enrichment and shaping raise *)

Module RaisingFacts.
Import Js Helpers Spec Aux ShapeNotions PipelineNotions TaskNotions.
Import JsFacts FlattenFacts ShapeFacts SortFacts TaskFacts TaskCases.
Local Open Scope js_scope.

Lemma dated_enriched (memberMap names : NameMap) (tasks : list JsVal) :
  filter hasDeadline (map (enrichedTask memberMap names) tasks)
  = map (enrichedTask memberMap names) (filter dated tasks).
Proof.
  induction tasks as [|t tasks IH]; cbn; [reflexivity|].
  unfold hasDeadline at 1, dated at 1; cbn [enrichedTask EnrichedTask.deadline].
  destruct (truthy (deadlineOf t)); cbn; now rewrite IH.
Qed.

Lemma forallb_map {A B : Type} (f : A -> B) (p : B -> bool) (l : list A) :
  forallb p (map f l) = forallb (fun a => p (f a)) l.
Proof. induction l as [|a l IH]; cbn; [reflexivity|now rewrite IH]. Qed.

Lemma unprintable_truthy (v : JsVal) : printable v = false -> truthy v = true.
Proof. destruct v; cbn; congruence. Qed.

Lemma comparable_dated (tasks : list JsVal) :
  forallb comparableDeadline (filter dated tasks) = false
  <-> Exists (fun t => comparableDeadline t = false) tasks.
Proof.
  rewrite forallb_false_Exists, !Exists_exists; split.
  - intros [t [Ht Hc]]; apply filter_In in Ht as [Ht _]; exists t; auto.
  - intros [t [Ht Hc]]; exists t; split; [|exact Hc].
    apply filter_In; split; [exact Ht|].
    apply unprintable_truthy, Hc.
Qed.

(** The sort of the enriched tasks, in terms of the tasks. *)
Lemma groupTasks_enriched (memberMap names : NameMap) (tasks : list JsVal) :
  groupTasks (map (enrichedTask memberMap names) tasks)
  = if Nat.ltb (List.length (filter dated tasks)) 2
       || forallb comparableDeadline (filter dated tasks)
    then Ok (sortThenPartition (map (enrichedTask memberMap names) tasks))
    else Throw TypeError.
Proof.
  rewrite groupTasks_cases, dated_enriched, length_map, forallb_map.
  reflexivity.
Qed.

Lemma unshapable_throws (objectType r : JsVal) :
  shapeRecord objectType r = Throw TypeError <-> unshapable r.
Proof.
  rewrite shapeRecord_throws; unfold unshapable.
  rewrite flattenLocal_cases, <- forallb_false_Exists.
  destruct (forallb wellHeaded (looped (attributeValues r)));
    split; intros [H|[H|H]]; auto; discriminate.
Qed.

End RaisingFacts.

(* ================================================================== *)
(** ** Further properties of the helpers and of the handlers *)

Import Server.
Import TimelineNotions ServerNotions NamingNotions ListNotions.
Import ServerFacts NamingFacts ListFacts RaisingFacts.

(** X1.  The flat object has a property for every key of the input mapping
    other than [__proto__], in the input's order, and no other; none of them
    is [undefined]: but for [__proto__], a key is never dropped, renamed or
    reordered, and serialising the result keeps all of them. *)
Theorem flattenValues_keeps_keys (props : list (string * JsVal)) (flat : Flat.t) :
  flattenValues (JObj props) = Ok flat ->
  map fst (Flat.own flat) = filter ownKey (map fst props) /\
  Forall (fun kv => defined (snd kv) = true) (Flat.own flat).
Proof.
  intros H; destruct (flattenValues_inv _ _ H) as [W ->].
  rewrite own_flattened; split.
  - clear; induction props as [|[k a] props IH]; cbn; [reflexivity|].
    destruct (ownKey k); cbn; now rewrite IH.
  - apply Forall_forall; intros kv Hkv.
    apply in_map_iff in Hkv as [entry [<- He]].
    apply filter_In in He as [He _]; cbn [snd].
    apply flatValue_defined.
    rewrite forallb_forall in W; exact (W entry He).
Qed.

(** An email, an empty array and a bare string: three keys in, the same
    three keys out. *)
Lemma flattenValues_keeps_keys_witness :
  exists flat,
    flattenValues
      (JObj [("email", JArr [JObj [("email_address", JStr "alice@co.com")]]);
             ("phone", JArr []); ("tags", JArr [JStr "important"])]) = Ok flat /\
    map fst (Flat.own flat) = ["email"; "phone"; "tags"].
Proof.
  eexists; split; [reflexivity|].
  exact (proj1 (flattenValues_keeps_keys
           [("email", JArr [JObj [("email_address", JStr "alice@co.com")]]);
            ("phone", JArr []); ("tags", JArr [JStr "important"])]
           _ eq_refl)).
Defined.

(** X2.  [flattenValues] raises a [TypeError] exactly when some key of the
    mapping holds a non-empty array whose first element is not an attribute
    value: it is [null] or [undefined], or it has a full name that is defined
    but falsy beside a first or last name that cannot be converted to a
    string.  Every other
    input, whatever its shape, is flattened. *)
Theorem flattenValues_raises_iff (values : JsVal) :
  flattenValues values = Throw TypeError
  <-> Exists (fun entry => wellHeaded entry = false) (entriesOf values).
Proof. exact (flattenValues_throws values). Qed.

(** X3.  Only the first element of each array is read: two mappings with
    the same keys whose arrays start alike flatten to the same result, an
    exception included, whatever follows the first elements. *)
Theorem flattenValues_reads_heads (props1 props2 : list (string * JsVal)) :
  map fst props1 = map fst props2 ->
  map (fun entry => headOf (snd entry)) props1
  = map (fun entry => headOf (snd entry)) props2 ->
  flattenValues (JObj props1) = flattenValues (JObj props2).
Proof.
  intros Hk Hh; rewrite !flattenValues_object.
  apply flattenEntries_heads; assumption.
Qed.

Lemma flattenValues_reads_heads_witness :
  flattenValues (JObj [("email", JArr [JObj [("email_address", JStr "a@co.com")];
                                       JObj [("email_address", JStr "b@co.com")]])])
  = flattenValues (JObj [("email", JArr [JObj [("email_address", JStr "a@co.com")]])]).
Proof. apply flattenValues_reads_heads; reflexivity. Defined.

(** X4.  Data the flattener does not recognise is kept, not lost: when the
    first element of a key's array is a string, a number or a boolean, or an
    object with none of the fields [full_name], [email_address],
    [phone_number], [currency_value], [status], [target_record_id], [option]
    and [value], the key, when it is not [__proto__], is bound to that
    element unchanged. *)
Theorem flattenValues_keeps_unrecognised :
  (forall first : JsVal, isScalar first = true -> unrecognised first = true)
  /\ (forall (props : list (string * JsVal)) (flat : Flat.t) (key : string)
             (first : JsVal) (rest : list JsVal),
        flattenValues (JObj props) = Ok flat ->
        key <> "__proto__" ->
        assoc key props = Some (JArr (first :: rest)) ->
        unrecognised first = true ->
        assoc key (Flat.own flat) = Some first).
Proof.
  split; [exact isScalar_unrecognised|].
  intros props flat key first rest Hflat Hk Ha Hu.
  destruct (flattened_key props flat key _ Hflat Hk Ha) as [v [Hv ->]].
  cbn [flattenEntry] in Hv; rewrite (flattenFirst_unrecognised first Hu) in Hv.
  congruence.
Qed.

Lemma flattenValues_keeps_unrecognised_witness :
  exists flat,
    flattenValues
      (JObj [("weird", JArr [JObj [("foo", JStr "bar"); ("baz", num 1)]; JNull])])
    = Ok flat /\
    assoc "weird" (Flat.own flat)
    = Some (JObj [("foo", JStr "bar"); ("baz", num 1)]).
Proof.
  eexists; split; [reflexivity|].
  exact (proj2 flattenValues_keeps_unrecognised
           [("weird", JArr [JObj [("foo", JStr "bar"); ("baz", num 1)]; JNull])]
           _ "weird" _ _ eq_refl ltac:(discriminate) eq_refl eq_refl).
Defined.

(** X5.  A record none of whose name values carries a name is called by its
    id: when the primary value under each of [name], [primary_name],
    [title], [company_name], [deal_name] and [company] is missing, or is not
    a string and has no truthy [full_name], [first_name], [last_name] or
    [value], the resolver returns the record's [id.record_id], else its
    [id], else ["Unknown"]. *)
Theorem extractRecordName_falls_back_to_id (record : JsVal) :
  (forall key, In key nameKeys ->
               nameless (primaryValue (attributeValues record) key) = true) ->
  extractRecordName record = Ok (idOrUnknown record).
Proof.
  intros H.
  assert (Hn : nameless (nameValue record) = true).
  { unfold nameValue.
    destruct (truthy (primaryValue (attributeValues record) "name"));
      apply H; cbn; auto. }
  assert (Ht : nameless (titleValue record) = true).
  { unfold titleValue.
    destruct (truthy (primaryValue (attributeValues record) "title"));
      [apply H; cbn; auto 10|].
    destruct (truthy (primaryValue (attributeValues record) "company_name"));
      apply H; cbn; auto 10. }
  rewrite (extractRecordName_title _ Hn), (fromTitleVal_nameless _ Ht).
  cbn [otherwise fallThrough bind].
  rewrite fromFallbackKeys_nameless; [reflexivity|apply attributeValues_truthy|].
  intros key Hk; apply H; unfold fallbackKeys in Hk; cbn in *; tauto.
Qed.

(** A record whose only name value is an object without name fields. *)
Lemma extractRecordName_falls_back_to_id_witness :
  extractRecordName
    (JObj [("id", JObj [("record_id", JStr "abc123")]);
           ("values", JObj [("name", JArr [JObj [("note", JStr "n/a")]])])])
  = Ok (JStr "abc123").
Proof.
  apply (extractRecordName_falls_back_to_id
           (JObj [("id", JObj [("record_id", JStr "abc123")]);
                  ("values", JObj [("name", JArr [JObj [("note", JStr "n/a")]])])])).
  intros key Hk; cbn in Hk.
  repeat (destruct Hk as [<-|Hk]; [reflexivity|]); contradiction.
Defined.

(** X6.  The title comes second.  When the record's name value carries no
    name, the resolver goes by the first truthy primary value of [title],
    [company_name], [deal_name], in that order: a string is returned as it
    is, and an object with a truthy [value] resolves to [String(value)],
    which raises when the value cannot be converted to a string. *)
Theorem extractRecordName_title_second (record : JsVal) :
  nameless (nameValue record) = true ->
  (isString (titleValue record) = true -> truthy (titleValue record) = true ->
   extractRecordName record = Ok (titleValue record))
  /\ (isString (titleValue record) = false ->
      truthy (readProp (titleValue record) "value") = true ->
      extractRecordName record
      = (s <- toStr (readProp (titleValue record) "value") ;; Ok (JStr s)))
  /\ (isString (titleValue record) = false ->
      truthy (readProp (titleValue record) "value") = true ->
      printable (readProp (titleValue record) "value") = true ->
      extractRecordName record
      = Ok (JStr (textOf (readProp (titleValue record) "value")))).
Proof.
  intros H; rewrite (extractRecordName_title _ H); unfold fromTitleVal.
  assert (V : isString (titleValue record) = false ->
              truthy (readProp (titleValue record) "value") = true ->
              otherwise
                (if truthy (titleValue record)
                 then if isString (titleValue record)
                      then returns (titleValue record)
                      else value <- getProp (titleValue record) "value" ;;
                           (if truthy value then returnsString value
                            else fallThrough)
                 else fallThrough)
                (otherwise (fromFallbackKeys (attributeValues record) fallbackKeys)
                           (Ok (idOrUnknown record)))
              = (s <- toStr (readProp (titleValue record) "value") ;; Ok (JStr s))).
  { intros S V; pose proof (readProp_truthy_base _ _ V) as T.
    rewrite T, S, getProp_truthy, bind_ok, V by exact T.
    unfold returnsString.
    destruct (toStr (readProp (titleValue record) "value")); reflexivity. }
  split; [|split].
  - intros S T; rewrite T, S; reflexivity.
  - exact V.
  - intros S T P; rewrite (V S T), (toStr_printable _ P); reflexivity.
Qed.

(** A company with an empty name array and a deal name: [title] and
    [company_name] are missing, so [deal_name] names it. *)
Lemma extractRecordName_title_second_witness :
  extractRecordName
    (recordOf [("name", JArr []); ("deal_name", JArr [JObj [("value", num 42)]])])
  = Ok (JStr "42").
Proof.
  exact (proj2 (proj2 (extractRecordName_title_second
                  (recordOf [("name", JArr []);
                             ("deal_name", JArr [JObj [("value", num 42)]])])
                  eq_refl)) eq_refl eq_refl eq_refl).
Defined.

(** X7.  The resolved name depends on the record's attribute mapping (its
    [values], or its [attributes] when [values] is missing) and on its [id],
    and on nothing else: two records that agree on those resolve alike.  In
    particular [attributes] is ignored as soon as [values] is truthy. *)
Theorem extractRecordName_reads (r1 r2 : JsVal) :
  attributeValues r1 = attributeValues r2 ->
  optProp r1 "id" = optProp r2 "id" ->
  extractRecordName r1 = extractRecordName r2.
Proof.
  intros Hv Hi; rewrite !extractRecordName_nameFrom.
  now rewrite Hv, (idOrUnknown_reads _ _ Hi).
Qed.

(** The same mapping under [values], with other [attributes] beside it, and
    under [attributes] alone. *)
Lemma extractRecordName_reads_witness :
  extractRecordName
    (JObj [("values", JObj (named aliceName));
           ("attributes", JObj (named bobNoFull)); ("object", JStr "people")])
  = extractRecordName (JObj [("attributes", JObj (named aliceName))]).
Proof. apply extractRecordName_reads; reflexivity. Defined.

(** X8.  When search shaping raises.  A record cannot be shaped when it is
    [null] or [undefined], when resolving its name raises, or when a key of
    its values mapping holds an array that does not start with an attribute
    value.  Without a filter, shaping raises a [TypeError] exactly when some
    record cannot be shaped.  With a non-empty filter it raises exactly when
    some record, matching or not, is [null] or [undefined], or some matching
    record cannot be shaped: a malformed record of another type does no
    harm.  A raw record can always be shaped. *)
Theorem shapeSearchResults_raises_iff (records : list JsVal) :
  (shapeSearchResults records None = Throw TypeError
   <-> Exists unshapable records)
  /\ (forall t : string,
        t <> "" ->
        (shapeSearchResults records (Some t) = Throw TypeError
         <-> Exists (fun r => nullish r = true) records \/
             Exists unshapable (filter (hasTypeTag t) records)))
  /\ (forall r : JsVal, rawRecord r = true -> ~ unshapable r).
Proof.
  split; [|split].
  - unfold shapeSearchResults; cbn [optional].
    rewrite (unfiltered JUndefined records eq_refl), bind_ok, mapM_throws.
    split; intros H; (eapply Exists_impl; [|exact H]); intros r;
      apply unshapable_throws.
  - intros t Ht; unfold shapeSearchResults; cbn [optional].
    destruct (Exists_nullish_dec records) as [Hn|Hp].
    + assert (E : filterM (keepRecord (JStr t)) records = Throw TypeError).
      { apply filterM_throws; eapply Exists_impl; [|exact Hn].
        intros r; apply keepRecord_throws, Ht. }
      rewrite E; cbn; split; [intros _; left; exact Hn|reflexivity].
    + rewrite (filterM_pure _ (hasTypeTag t)), bind_ok, mapM_throws.
      * split.
        -- intros H; right; eapply Exists_impl; [|exact H].
           intros r; apply unshapable_throws.
        -- intros [H|H].
           ++ exfalso; apply Exists_exists in H as [r [Hr Nr]].
              rewrite Forall_forall in Hp; rewrite (Hp r Hr) in Nr; discriminate.
           ++ eapply Exists_impl; [|exact H].
              intros r; apply unshapable_throws.
      * eapply Forall_impl; [|exact Hp].
        intros r; apply keepRecord_filter, Ht.
  - intros r R U; apply (unshapable_throws JUndefined) in U.
    destruct (shapeRecord_total JUndefined r R) as [s Hs]; congruence.
Qed.

(** X9.  Every shaped record comes from a record of the input, and is put
    together from the other helpers: its name is what [extractRecordName]
    returns for the record and its flat values are what [flattenValues]
    returns for the record's attribute mapping; its type is the record's own
    tag, else its parent tag, else the filter, else [null]; its email and
    its company are [null] when there is none, never [undefined] or empty.
    There are never more shaped records than records. *)
Theorem shaped_records_compose (records : list JsVal) (objectType : option string)
  (out : list ShapedRecord.t) :
  shapeSearchResults records objectType = Ok out ->
  List.length out <= List.length records /\
  Forall (fun s =>
            exists r,
              In r records /\
              extractRecordName r = Ok (ShapedRecord.name s) /\
              flattenLocal (attributeValues r) = Ok (ShapedRecord.flatValues s) /\
              ShapedRecord.objectType s = typeTagOf (optional objectType) r /\
              nullOrTruthy (ShapedRecord.email s) /\
              nullOrTruthy (ShapedRecord.company s)) out.
Proof.
  unfold shapeSearchResults; intros H.
  destruct (filterM _ records) as [kept|] eqn:K; cbn [bind] in H; [|discriminate].
  destruct (filterM_incl _ _ _ K) as [Hincl Hlen].
  pose proof (mapM_length _ _ _ H) as Hl.
  split; [lia|].
  apply mapM_Forall2 in H; clear K Hl Hlen.
  induction H as [|r s kept out Hs _ IH]; constructor.
  - exists r; split; [apply Hincl; left; reflexivity|].
    destruct (nullish r) eqn:N.
    { rewrite (shapeRecord_absent _ _ N) in Hs; discriminate. }
    destruct (shapeRecord_present (optional objectType) r N)
      as [id [email [company [He [Hc E]]]]].
    rewrite E in Hs.
    destruct (extractRecordName r) as [name|]; cbn [bind] in Hs; [|discriminate].
    destruct (flattenLocal (attributeValues r)) as [flat|]; cbn [bind] in Hs;
      [|discriminate].
    injection Hs as <-; cbn; repeat split; assumption.
  - apply IH; intros x Hx; apply Hincl; right; exact Hx.
Qed.

(** The two records of the unit tests, unfiltered. *)
Lemma shaped_records_compose_witness :
  exists out,
    shapeSearchResults [alice; widget] None = Ok out /\
    List.length out <= 2 /\
    Forall (fun s => exists r, In r [alice; widget] /\
                               extractRecordName r = Ok (ShapedRecord.name s))
           out.
Proof.
  eexists; split; [reflexivity|].
  destruct (shaped_records_compose [alice; widget] None _ eq_refl) as [Hl Hf].
  split; [exact Hl|].
  eapply Forall_impl; [|exact Hf].
  intros s [r [Hr [Hn _]]]; exists r; split; assumption.
Defined.

(** X10.  The counts of a pipeline summary add up: [totalEntries] is the
    number of shaped entries, which for an array is the number of its
    elements; every stage listed counts at least one entry; and the counts
    of the stages sum to [totalEntries], so every entry is counted under
    exactly one stage.  The list id and name are passed through. *)
Theorem pipeline_counts_add_up (listId listName : string) (entries : JsVal)
  (names : NameMap) (p : PipelineSummary.t) :
  computePipelineSummary listId listName entries names = Ok p ->
  PipelineSummary.totalEntries p = List.length (PipelineSummary.entries p) /\
  list_sum (map PipelineStageSummary.count (PipelineSummary.stages p))
  = PipelineSummary.totalEntries p /\
  Forall (fun s => 1 <= PipelineStageSummary.count s) (PipelineSummary.stages p) /\
  (forall l, entries = JArr l -> PipelineSummary.totalEntries p = List.length l) /\
  PipelineSummary.listId p = listId /\ PipelineSummary.listName p = listName.
Proof.
  intros H; destruct (summary_inv _ _ _ _ _ H) as [l [El [Hl ->]]].
  cbn [PipelineSummary.totalEntries PipelineSummary.entries PipelineSummary.stages
       PipelineSummary.listId PipelineSummary.listName].
  split; [now rewrite length_map|].
  split; [rewrite stage_counts, counted_tally, length_map; reflexivity|].
  split.
  { pose proof (positive_tally (map (shapedEntry names) l) [] (Forall_nil _)) as Hp.
    apply Forall_forall; intros s Hs; apply in_map_iff in Hs as [ks [<- Hks]].
    rewrite Forall_forall in Hp; exact (Hp ks Hks). }
  split; [|split; reflexivity].
  intros l' ->; cbn in El; congruence.
Qed.

Lemma pipeline_counts_add_up_witness :
  exists p,
    computePipelineSummary "list1" "Test" (JArr fiveThousandAndText) [] = Ok p /\
    list_sum (map PipelineStageSummary.count (PipelineSummary.stages p)) = 2.
Proof.
  eexists; split; [reflexivity|].
  destruct (pipeline_counts_add_up "list1" "Test" (JArr fiveThousandAndText) [] _
              eq_refl) as [_ [Hsum _]].
  exact Hsum.
Defined.

(** X11.  The stages of a summary are listed in the order in which their
    labels first appear among the entries, each label once: the label of an
    entry is its stage, or ["No Stage"] when it has none.  When the labels
    are strings, no two stages of the summary carry the same one. *)
Theorem stages_in_order_of_appearance (listId listName : string)
  (entries : JsVal) (names : NameMap) (p : PipelineSummary.t) :
  computePipelineSummary listId listName entries names = Ok p ->
  map PipelineStageSummary.stage (PipelineSummary.stages p)
  = firstSeen (map stageLabel (PipelineSummary.entries p)) /\
  (Forall textStage (PipelineSummary.entries p) ->
   NoDup (map PipelineStageSummary.stage (PipelineSummary.stages p))).
Proof.
  intros H; destruct (summary_inv _ _ _ _ _ H) as [l [El [Hl ->]]].
  cbn [PipelineSummary.entries PipelineSummary.stages].
  rewrite stage_keys; split; [apply keys_tally|].
  intros Ht; apply tally_NoDup; [exact Ht|constructor|constructor].
Qed.

(** Three deals, the second and third in stages already and not yet seen. *)
Lemma stages_in_order_of_appearance_witness :
  exists p,
    computePipelineSummary "l1" "Deals"
      (JArr [entryWithout "e1" "Proposal"; entryWithout "e2" "New";
             entryWithout "e3" "Proposal"]) [] = Ok p /\
    map PipelineStageSummary.stage (PipelineSummary.stages p)
    = [JStr "Proposal"; JStr "New"].
Proof.
  eexists; split; [reflexivity|].
  exact (proj1 (stages_in_order_of_appearance "l1" "Deals"
                  (JArr [entryWithout "e1" "Proposal"; entryWithout "e2" "New";
                         entryWithout "e3" "Proposal"]) [] _ eq_refl)).
Defined.

(** X12.  What the summarizer takes for the entry list when it is not handed
    an array: the array under [data] when there is one, so that a response
    body can be passed as it came; nothing at all when [data] is missing or
    falsy, which gives the empty summary also for [null] and [undefined];
    and a [TypeError] when [data] is truthy but not an array. *)
Theorem pipeline_entry_list (listId listName : string) (names : NameMap)
  (entries : JsVal) :
  isArray entries = false ->
  (forall l, optProp entries "data" = JArr l ->
             computePipelineSummary listId listName entries names
             = computePipelineSummary listId listName (JArr l) names)
  /\ (truthy (optProp entries "data") = false ->
      computePipelineSummary listId listName entries names
      = Ok (PipelineSummary.make listId listName 0 [] []))
  /\ (truthy (optProp entries "data") = true ->
      isArray (optProp entries "data") = false ->
      computePipelineSummary listId listName entries names = Throw TypeError).
Proof.
  intros A.
  assert (E : entryListOf entries
              = if truthy (optProp entries "data")
                then asArray (optProp entries "data") else Ok []).
  { rewrite entryListOf_cases; destruct entries; try reflexivity; discriminate. }
  split; [|split].
  - intros l D; apply summary_by_list; rewrite E, D; reflexivity.
  - intros D; rewrite (summary_by_list _ _ _ _ []); [reflexivity|].
    rewrite E, D; reflexivity.
  - intros D N; unfold computePipelineSummary; rewrite E, D.
    destruct (optProp entries "data"); try discriminate; reflexivity.
Qed.

Lemma pipeline_entry_list_witness :
  computePipelineSummary "list1" "Test" JNull []
  = Ok (PipelineSummary.make "list1" "Test" 0 [] []).
Proof.
  exact (proj1 (proj2 (pipeline_entry_list "list1" "Test" [] JNull eq_refl))
           eq_refl).
Defined.

(** X13.  Summarizing an array of entries raises a [TypeError] exactly when
    one of the entries is not a raw entry: it is [null] or [undefined], or
    its amount or its record id is an object that cannot be converted to a
    number or to a string.  Entries of any other shape, with or without
    values, stage or ids, are summarized. *)
Theorem pipeline_raises_iff (listId listName : string) (entryList : list JsVal)
  (names : NameMap) :
  computePipelineSummary listId listName (JArr entryList) names = Throw TypeError
  <-> Exists (fun e => rawEntry e = false) entryList.
Proof.
  rewrite computePipelineSummary_cases, <- forallb_false_Exists.
  destruct (forallb rawEntry entryList); split; congruence.
Qed.

(** X14.  How an entry is shaped.  Its id is the [entry_id], else the [id];
    its stage is the status title, else the option title, else the raw value
    of the first stage value, else [null], and never an empty string or
    [undefined]; its record name is the name the map has for the record id
    ([record_id], else [parent_record_id]), ["Record <id>"] when the map has
    none or an empty one, and ["Unknown"] when the entry has no record id, so
    that it is always a non-empty string.  The entries come out in input
    order, one for one. *)
Theorem pipeline_entries_shaped (listId listName : string)
  (entryList : list JsVal) (names : NameMap) (p : PipelineSummary.t) :
  computePipelineSummary listId listName (JArr entryList) names = Ok p ->
  PipelineSummary.entries p = map (shapedEntry names) entryList /\
  Forall (fun e => isText (PipelineEntry.recordName e)) (PipelineSummary.entries p) /\
  Forall (fun e => nullOrTruthy (PipelineEntry.stage e)) (PipelineSummary.entries p).
Proof.
  intros H; destruct (summary_inv _ _ _ _ _ H) as [l [El [Hl ->]]].
  cbn in El; injection El as <-; cbn [PipelineSummary.entries].
  split; [reflexivity|].
  split; apply Forall_forall; intros e He; apply in_map_iff in He as [entry [<- _]];
    [apply recordNameOf_text|apply stageOf_nullOrTruthy].
Qed.

(** An entry of record [r1], known to the map, and one of an unknown
    record. *)
Lemma pipeline_entries_shaped_witness :
  exists p,
    computePipelineSummary "l1" "Deals"
      (JArr [entryWithout "e1" "New";
             JObj [("id", JStr "e2"); ("parent_record_id", JStr "r9")]])
      [("r1", "Acme Deal")] = Ok p /\
    map PipelineEntry.recordName (PipelineSummary.entries p)
    = [JStr "Acme Deal"; JStr "Record r9"].
Proof.
  eexists; split; [reflexivity|].
  rewrite (proj1 (pipeline_entries_shaped "l1" "Deals"
                    [entryWithout "e1" "New";
                     JObj [("id", JStr "e2"); ("parent_record_id", JStr "r9")]]
                    [("r1", "Acme Deal")] _ eq_refl)).
  reflexivity.
Defined.

(** X15.  The name map, the list id and the list name only label the
    result: the number of entries, the stages with their counts and totals,
    and the id, stage and value of every entry are the same whatever names
    are supplied, and so is whether the summarizer raises. *)
Theorem pipeline_ignores_names (listId1 listName1 listId2 listName2 : string)
  (entries : JsVal) (names1 names2 : NameMap) :
  bind (computePipelineSummary listId1 listName1 entries names1)
       (fun p => Ok (unlabelledView p))
  = bind (computePipelineSummary listId2 listName2 entries names2)
         (fun p => Ok (unlabelledView p)).
Proof.
  destruct (entryListOf entries) as [l|e] eqn:E.
  - rewrite !(summary_by_list _ _ entries _ l E).
    rewrite !computePipelineSummary_cases.
    destruct (forallb rawEntry l); [|reflexivity].
    cbv zeta; rewrite !bind_ok; unfold unlabelledView.
    cbn [PipelineSummary.totalEntries PipelineSummary.stages
         PipelineSummary.entries].
    rewrite !tally_shaped, !map_map, !length_map; reflexivity.
  - unfold computePipelineSummary; rewrite E; reflexivity.
Qed.

(** X16.  Task enrichment raises a [TypeError] exactly when some task
    cannot be enriched, or two or more tasks have a deadline and one of the
    deadlines cannot be compared.  A task cannot be enriched when it is
    [null] or [undefined], or has under [assignees] or [linked_records]
    something truthy that is not an array, or an array with an element that
    is [null] or [undefined] or whose id cannot be converted to a string; a
    deadline cannot be compared when it is an object that has no primitive
    value.  Tasks without those fields, or with any other field missing, are
    enriched. *)
Theorem enrichTasks_raises_iff (tasks : list JsVal) (memberMap names : NameMap) :
  enrichTasks tasks memberMap names = Throw TypeError
  <-> Exists (fun t => enrichable t = false) tasks
      \/ (2 <= List.length (filter dated tasks)
          /\ Exists (fun t => comparableDeadline t = false) tasks).
Proof.
  rewrite enrichTasks_cases, groupTasks_enriched.
  rewrite <- forallb_false_Exists, <- comparable_dated.
  destruct (forallb enrichable tasks).
  - destruct (Nat.ltb_spec (List.length (filter dated tasks)) 2) as [L|L];
      cbn [orb].
    + split; [discriminate|intros [H|[H _]]; [discriminate|lia]].
    + destruct (forallb comparableDeadline (filter dated tasks)).
      * split; [discriminate|intros [H|[_ H]]; discriminate].
      * split; [intros _; right; split; [exact L|reflexivity]|reflexivity].
  - split; [intros _; left; reflexivity|reflexivity].
Qed.

(** X17.  What the enriched tasks hold.  The two lists together are a
    rearrangement of the enriched forms of the input tasks, one per task.
    In an enriched task every assignee is shown under the name the member
    map has for its id ([referenced_actor_id], else [id], else the reference
    itself) and as ["User <id>"] when the map has none; every linked record
    under the name the record map has for its id ([record_id], else
    [target_record_id]) and as ["Record <id>"] otherwise; so every name is a
    non-empty string.  The content and the deadline are [null] when missing,
    never [undefined] or empty. *)
Theorem tasks_enriched (tasks : list JsVal) (memberMap names : NameMap)
  (groups : TaskGroups.t) :
  enrichTasks tasks memberMap names = Ok groups ->
  Permutation (TaskGroups.open groups ++ TaskGroups.completed groups)
              (map (enrichedTask memberMap names) tasks) /\
  Forall (fun e => Forall isText (EnrichedTask.assignees e) /\
                   Forall isText (EnrichedTask.linkedRecords e) /\
                   nullOrTruthy (EnrichedTask.content e) /\
                   nullOrTruthy (EnrichedTask.deadline e))
         (TaskGroups.open groups ++ TaskGroups.completed groups).
Proof.
  intros H; destruct (enrichTasks_inv _ _ _ _ H) as [_ ->].
  pose proof (sortThenPartition_perm (map (enrichedTask memberMap names) tasks))
    as P.
  split; [exact P|].
  eapply Permutation_Forall; [symmetry; exact P|].
  apply Forall_forall; intros e He; apply in_map_iff in He as [t [<- _]].
  cbn; repeat split.
  - apply Forall_forall; intros v Hv; apply in_map_iff in Hv as [a [<- _]].
    apply shownAs_text; discriminate.
  - apply Forall_forall; intros v Hv; apply in_map_iff in Hv as [a [<- _]].
    apply shownAs_text; discriminate.
  - apply contentOf_nullOrTruthy.
  - apply deadlineOf_nullOrTruthy.
Qed.

(** The three tasks of the unit tests: the first has a known assignee and a
    known linked record, the second an assignee only. *)
Lemma tasks_enriched_witness :
  exists groups,
    enrichTasks Fixtures.testTasks Fixtures.members Fixtures.recordNames
    = Ok groups /\
    Permutation (TaskGroups.open groups ++ TaskGroups.completed groups)
      (map (enrichedTask Fixtures.members Fixtures.recordNames)
           Fixtures.testTasks).
Proof.
  eexists; split; [reflexivity|].
  exact (proj1 (tasks_enriched Fixtures.testTasks Fixtures.members
                  Fixtures.recordNames _ eq_refl)).
Defined.

(** X18.  The deadline sort is stable.  When the deadlines are strings or
    missing, the tasks of [open] that are due on one and the same day stand
    in the order they had in the input, and so do those of [completed]; the
    same holds of the tasks without a deadline. *)
Theorem equal_deadlines_keep_order (tasks : list JsVal) (memberMap names : NameMap)
  (groups : TaskGroups.t) (d : JsVal) :
  enrichTasks tasks memberMap names = Ok groups ->
  Forall textDeadline (map (enrichedTask memberMap names) tasks) ->
  filter (dueOn d) (TaskGroups.open groups)
  = filter (dueOn d) (filter isOpen (map (enrichedTask memberMap names) tasks)) /\
  filter (dueOn d) (TaskGroups.completed groups)
  = filter (dueOn d)
      (filter EnrichedTask.isCompleted (map (enrichedTask memberMap names) tasks)).
Proof.
  intros H Ht; destruct (enrichTasks_inv _ _ _ _ H) as [_ ->].
  cbn [sortThenPartition TaskGroups.open TaskGroups.completed].
  split; apply same_day_order, Ht.
Qed.

(** Two open tasks due on the same day around a completed one. *)
Lemma equal_deadlines_keep_order_witness :
  exists groups,
    enrichTasks [task "t1" "b" false (JStr "2026-03-01");
                 task "t2" "x" true (JStr "2026-02-01");
                 task "t3" "a" false (JStr "2026-03-01")] [] [] = Ok groups /\
    map EnrichedTask.id
        (filter (dueOn (JStr "2026-03-01")) (TaskGroups.open groups))
    = [JStr "t1"; JStr "t3"].
Proof.
  eexists; split; [reflexivity|].
  rewrite (proj1 (equal_deadlines_keep_order
                    [task "t1" "b" false (JStr "2026-03-01");
                     task "t2" "x" true (JStr "2026-02-01");
                     task "t3" "a" false (JStr "2026-03-01")] [] [] _
                    (JStr "2026-03-01") eq_refl
                    ltac:(repeat constructor))).
  reflexivity.
Defined.

(** X19.  The timeline loses nothing and invents nothing: when it is
    returned it is a rearrangement of the events read off the inputs, one
    note event per note, one meeting event per meeting and one thread event
    per thread, whatever the dates are.  In every event the date, the title
    and the content are [null] when the input has no truthy value for them,
    never [undefined] or an empty string. *)
Theorem timeline_keeps_every_event (localeCompare : string -> string -> Z)
  (notes meetings threads : list JsVal) (out : list TimelineEvent.t) :
  buildActivityTimeline localeCompare notes meetings threads = Ok out ->
  Permutation out (eventsOf notes meetings threads) /\
  List.length (filter (isType note) out) = List.length notes /\
  List.length (filter (isType meeting) out) = List.length meetings /\
  List.length (filter (isType thread) out) = List.length threads /\
  Forall tidy out.
Proof.
  rewrite timeline_cases; intros H.
  destruct (forallb present (notes ++ meetings ++ threads)); [|discriminate].
  apply sortWithM_perm in H.
  split; [exact H|].
  rewrite !(filter_length_perm _ _ _ H).
  rewrite (eventsOf_count note), (eventsOf_count meeting), (eventsOf_count thread).
  repeat split.
  eapply Permutation_Forall; [symmetry; exact H|apply eventsOf_tidy].
Qed.

(** The notes, the meeting and the thread of the unit tests. *)
Lemma timeline_keeps_every_event_witness :
  exists out,
    buildActivityTimeline Icu.localeCompare Fixtures.testNotes
      Fixtures.testMeetings Fixtures.testThreads = Ok out /\
    List.length (filter (isType note) out) = 2 /\
    List.length (filter (isType meeting) out) = 1 /\
    List.length (filter (isType thread) out) = 1.
Proof.
  eexists; split; [reflexivity|].
  destruct (timeline_keeps_every_event Icu.localeCompare Fixtures.testNotes
              Fixtures.testMeetings Fixtures.testThreads _ eq_refl)
    as [_ [Hn [Hm [Ht _]]]].
  repeat split; assumption.
Defined.

(** X20.  The timeline sort is stable where the comparator does not decide.
    When the dates are strings or missing, the events without a date stand at
    the end in the order in which they were pushed (notes, then meetings,
    then threads, each in input order), whatever the collation; and under a
    collation that orders the dates as the lexical order does, the events
    that carry one and the same date keep that order too. *)
Theorem timeline_is_stable (localeCompare : string -> string -> Z)
  (notes meetings threads : list JsVal) (out : list TimelineEvent.t) :
  buildActivityTimeline localeCompare notes meetings threads = Ok out ->
  Forall textDate (eventsOf notes meetings threads) ->
  filter undated out = filter undated (eventsOf notes meetings threads) /\
  (lexicalOn localeCompare (eventsOf notes meetings threads) ->
   forall d : string,
     filter (datedOn d) out
     = filter (datedOn d) (eventsOf notes meetings threads)).
Proof.
  intros H Ht; rewrite (timeline_text _ _ _ _ Ht) in H.
  destruct (forallb present (notes ++ meetings ++ threads)); [|discriminate].
  injection H as <-; split; [apply undated_sort|].
  intros Hlex d; rewrite (lexical_sort _ _ Hlex); apply same_date_sort.
Qed.

(** Two undated notes around a dated meeting: the meeting comes first, the
    notes follow in input order. *)
Lemma timeline_is_stable_witness :
  exists out,
    buildActivityTimeline Icu.localeCompare
      [anUndatedNote] [aMeeting]
      [JObj [("id", JStr "th9"); ("subject", JStr "No date either")]] = Ok out /\
    map TimelineEvent.id (filter undated out) = [JStr "n99"; JStr "th9"].
Proof.
  eexists; split; [reflexivity|].
  rewrite (proj1 (timeline_is_stable Icu.localeCompare
                    [anUndatedNote] [aMeeting]
                    [JObj [("id", JStr "th9"); ("subject", JStr "No date either")]]
                    _ eq_refl ltac:(repeat constructor))).
  reflexivity.
Defined.

(** X21.  When the dates of the inputs are strings or missing, building the
    timeline raises a [TypeError] exactly when one of the notes, meetings or
    threads is [null] or [undefined]. *)
Theorem timeline_raises_iff (localeCompare : string -> string -> Z)
  (notes meetings threads : list JsVal) :
  Forall textDate (eventsOf notes meetings threads) ->
  (buildActivityTimeline localeCompare notes meetings threads = Throw TypeError
   <-> Exists (fun v => nullish v = true) (notes ++ meetings ++ threads)).
Proof.
  intros Ht; rewrite (timeline_text _ _ _ _ Ht).
  destruct (forallb present (notes ++ meetings ++ threads)) eqn:P.
  - apply forallb_present in P; split; [discriminate|].
    intros H; apply Exists_exists in H as [v [Hv Nv]].
    rewrite Forall_forall in P; rewrite (P v Hv) in Nv; discriminate.
  - split; [intros _|reflexivity].
    destruct (Exists_nullish_dec (notes ++ meetings ++ threads)) as [Hn|Hp];
      [exact Hn|].
    apply forallb_present in Hp; congruence.
Qed.

Lemma timeline_raises_iff_witness :
  buildActivityTimeline Icu.localeCompare [aNote] [JNull] [aThread]
  = Throw TypeError.
Proof.
  apply (timeline_raises_iff Icu.localeCompare [aNote] [JNull] [aThread]).
  - repeat constructor.
  - right; left; reflexivity.
Defined.

(** X22.  The notes a handler attaches to a record.  They are at most ten;
    each has the record's type as [parent_object] and the record's id as
    [parent_record_id]; when the response holds an array of notes none of
    which is [null] or [undefined] they are the first ten such notes, in the
    order of the response; and when the array holds a [null] or [undefined]
    anywhere, or the call is rejected, there are none at all. *)
Theorem notes_selected (objectType recordId : string) (call : Awaited) :
  List.length (orNone call (selectNotes objectType recordId)) <= 10 /\
  Forall (fun n => isAbout objectType recordId n = true)
         (orNone call (selectNotes objectType recordId)) /\
  (forall resp items,
      call = Resolved resp -> dataOf resp = Ok (JArr items) ->
      orNone call (selectNotes objectType recordId)
      = if forallb present items
        then firstn 10 (filter (isAbout objectType recordId) items)
        else []) /\
  orNone Rejected (selectNotes objectType recordId) = [].
Proof.
  destruct (selected_kept (aboutRecord objectType recordId) call) as [Hl Hk].
  split; [exact Hl|]. split; [|split; [|reflexivity]].
  - eapply Forall_impl; [|exact Hk].
    intros n Hn; cbn beta in Hn; rewrite aboutRecord_cases in Hn.
    destruct (nullish n); [discriminate|congruence].
  - intros resp items -> D; unfold orNone, selectNotes; rewrite D, bind_ok.
    cbn [firstTen].
    rewrite (filterM_cases _ _ items (aboutRecord_cases objectType recordId)).
    destruct (forallb present items); reflexivity.
Qed.

(** X23.  The recent-activity tool.  The notes, meetings and threads it
    selects are never [null] or [undefined], so when their dates are strings
    or missing it always answers with a timeline, whatever the three calls
    returned or whether they were rejected; the timeline holds every selected
    item once, [totalEvents] is its length, and there are at most thirty
    events. *)
Theorem recent_activity_answers (localeCompare : string -> string -> Z)
  (objectType recordId : string) (notesCall meetingsCall threadsCall : Awaited) :
  Forall textDate
    (eventsOf (orNone notesCall (selectNotes objectType recordId))
              (orNone meetingsCall (selectMeetings recordId))
              (orNone threadsCall (selectThreads recordId))) ->
  exists a,
    get_recent_activity localeCompare objectType recordId
      notesCall meetingsCall threadsCall = Ok a /\
    Permutation (Activity.timeline a)
      (eventsOf (orNone notesCall (selectNotes objectType recordId))
                (orNone meetingsCall (selectMeetings recordId))
                (orNone threadsCall (selectThreads recordId))) /\
    Activity.totalEvents a = List.length (Activity.timeline a) /\
    Activity.totalEvents a <= 30.
Proof.
  intros Ht; unfold get_recent_activity; cbn zeta.
  set (notes := orNone notesCall (selectNotes objectType recordId)) in *.
  set (meetings := orNone meetingsCall (selectMeetings recordId)) in *.
  set (threads := orNone threadsCall (selectThreads recordId)) in *.
  rewrite (timeline_text localeCompare notes meetings threads Ht).
  assert (P : forallb present (notes ++ meetings ++ threads) = true).
  { apply forallb_present; repeat rewrite Forall_app; repeat split;
      [apply notes_present|apply meetings_present|apply threads_present]. }
  rewrite P, bind_ok; eexists; split; [reflexivity|].
  cbn [Activity.timeline Activity.totalEvents].
  pose proof (sortWith_perm (beforeUnder localeCompare)
                (eventsOf notes meetings threads)) as Hp.
  split; [exact Hp|]. split; [reflexivity|].
  rewrite (Permutation_length Hp); unfold eventsOf.
  rewrite !length_app, !length_map.
  pose proof (proj1 (selected_kept (aboutRecord objectType recordId) notesCall)).
  pose proof (proj1 (selected_kept (someOf "associated_records" (refersTo recordId))
                       meetingsCall)).
  pose proof (proj1 (selected_kept (someOf "linked_records" (linksTo recordId))
                       threadsCall)).
  cbn zeta in *; subst notes meetings threads; unfold selectNotes, selectMeetings,
    selectThreads; lia.
Qed.

(** A response with a note of the record, a rejected meetings call and a
    thread linked to the record. *)
Lemma recent_activity_answers_witness :
  exists a,
    get_recent_activity Icu.localeCompare "people" "r1"
      (Resolved (JObj [("data", JArr [JObj [("id", JStr "n1");
                                            ("parent_object", JStr "people");
                                            ("parent_record_id", JStr "r1");
                                            ("created_at", JStr "2026-02-05")];
                                      JObj [("id", JStr "n2");
                                            ("parent_object", JStr "people");
                                            ("parent_record_id", JStr "r2")]])]))
      Rejected
      (Resolved (JObj [("data",
                        JObj [("data",
                               JArr [JObj [("id", JStr "th1");
                                           ("linked_records",
                                            JArr [JObj [("record_id", JStr "r1")]]);
                                           ("created_at", JStr "2026-02-06")]])])]))
    = Ok a /\ Activity.totalEvents a = 2.
Proof.
  destruct (recent_activity_answers Icu.localeCompare "people" "r1"
      (Resolved (JObj [("data", JArr [JObj [("id", JStr "n1");
                                            ("parent_object", JStr "people");
                                            ("parent_record_id", JStr "r1");
                                            ("created_at", JStr "2026-02-05")];
                                      JObj [("id", JStr "n2");
                                            ("parent_object", JStr "people");
                                            ("parent_record_id", JStr "r2")]])]))
      Rejected
      (Resolved (JObj [("data",
                        JObj [("data",
                               JArr [JObj [("id", JStr "th1");
                                           ("linked_records",
                                            JArr [JObj [("record_id", JStr "r1")]]);
                                           ("created_at", JStr "2026-02-06")]])])]))
      ltac:(repeat constructor)) as [a [Ha [Hp [Hl _]]]].
  exists a; split; [exact Ha|].
  rewrite Hl, (Permutation_length Hp); reflexivity.
Defined.

(** X24.  The task list tool.  [totalOpen] and [totalCompleted] are the
    lengths of the two lists; together they never exceed the number of tasks
    in the response, and without a [limit] they never exceed 25.  The tool
    hands an empty record-name map to the enrichment, so every linked record
    is shown as ["Record <id>"]. *)
Theorem list_tasks_totals (limit : option number) (tasksResp : JsVal)
  (memberMap : NameMap) (r : TaskList.t) :
  list_tasks limit tasksResp memberMap = Ok r ->
  TaskList.totalOpen r = List.length (TaskList.open r) /\
  TaskList.totalCompleted r = List.length (TaskList.completed r) /\
  (forall items, dataOf tasksResp = Ok (JArr items) ->
                 TaskList.totalOpen r + TaskList.totalCompleted r
                 <= List.length items) /\
  (limit = None -> TaskList.totalOpen r + TaskList.totalCompleted r <= 25) /\
  Forall (fun e => Forall (fun v => exists id, v = JStr ("Record " ++ id))
                          (EnrichedTask.linkedRecords e))
         (TaskList.open r ++ TaskList.completed r).
Proof.
  unfold list_tasks; intros H.
  destruct (dataOf tasksResp) as [tasks|] eqn:D; cbn [bind] in H; [|discriminate].
  set (taskList := match tasks with JArr items => _ | _ => [] end) in H.
  destruct (enrichTasks taskList memberMap []) as [groups|] eqn:G;
    cbn [bind] in H; [|discriminate].
  destruct (enrichTasks_inv _ _ _ _ G) as [_ ->].
  set (enriched := map (enrichedTask memberMap []) taskList) in H.
  assert (E : r = TaskList.make
                    (List.length (TaskGroups.open (sortThenPartition enriched)))
                    (List.length (TaskGroups.completed (sortThenPartition enriched)))
                    (TaskGroups.open (sortThenPartition enriched))
                    (TaskGroups.completed (sortThenPartition enriched)))
    by congruence.
  subst r; clear H.
  cbn [TaskList.totalOpen TaskList.totalCompleted TaskList.open TaskList.completed].
  split; [reflexivity|]. split; [reflexivity|].
  rewrite sortThenPartition_length; unfold enriched; rewrite length_map.
  split; [|split].
  - intros items E; injection E as ->; subst taskList; apply sliceTo_length.
  - intros ->; subst taskList; destruct tasks; cbn; try lia.
    rewrite sliceTo_default, length_firstn; lia.
  - eapply Permutation_Forall; [symmetry; apply sortThenPartition_perm|].
    apply Forall_forall; intros e He; apply in_map_iff in He as [t [<- _]].
    cbn [enrichedTask EnrichedTask.linkedRecords].
    apply Forall_forall; intros v Hv; apply in_map_iff in Hv as [lr [<- _]].
    rewrite shownAs_unnamed; eexists; reflexivity.
Qed.

(** The three tasks of the unit tests, with a limit of two. *)
Lemma list_tasks_totals_witness :
  exists r,
    list_tasks (Some (JsNumber.ofZ 2)) (JObj [("data", JArr Fixtures.testTasks)])
      Fixtures.members = Ok r /\
    TaskList.totalOpen r + TaskList.totalCompleted r <= 3 /\
    map EnrichedTask.linkedRecords (TaskList.open r) = [[JStr "Record r1"]].
Proof.
  eexists; split; [vm_compute; reflexivity|].
  split; [|reflexivity].
  exact (proj1 (proj2 (proj2 (list_tasks_totals (Some (JsNumber.ofZ 2))
            (JObj [("data", JArr Fixtures.testTasks)]) Fixtures.members _
            eq_refl))) Fixtures.testTasks eq_refl).
Defined.

(** X25.  The workspace member map.  Every name entered is truthy: the
    member's [name], else its [email], else ["Member <id>"].  A member that
    cannot be entered, because it is [null] or [undefined] or because it has
    no name and no email and an id that cannot be converted to a string,
    ends the loop silently: the members before it are in the map, the ones
    after it are not.  Of several members with the same string id the last
    one gives the name.  Without the members API, or when its call is
    rejected, the map is empty. *)
Theorem workspace_members :
  (forall api, Forall (fun kv => truthy (snd kv) = true)
                      (fetchWorkspaceMembers api))
  /\ (forall (good rest : list JsVal) (missing : JsVal) (m0 : JsMap),
        Forall (fun v => nullish v = false) good -> nullish missing = true ->
        collectMembers (good ++ missing :: rest) m0 = collectMembers good m0)
  /\ (forall (before rest : list JsVal) (m : JsVal) (m0 : JsMap),
        enterable m = false ->
        collectMembers (before ++ m :: rest) m0 = collectMembers before m0)
  /\ (forall (members : list JsVal) (id : string),
        Forall (fun v => enterable v = true) members ->
        mapLookup (collectMembers members []) (JStr id)
        = match lastUnder id members with
          | Some m => memberNameOf m
          | None => JUndefined
          end)
  /\ fetchWorkspaceMembers None = []
  /\ fetchWorkspaceMembers (Some Rejected) = [].
Proof.
  split; [|split; [|split; [|split; [|split; reflexivity]]]].
  - intros [[resp|]|]; cbn [fetchWorkspaceMembers]; try constructor.
    destruct (dataOf resp) as [[]|]; try constructor.
    apply collectMembers_truthy; constructor.
  - intros good rest missing m0 _ N.
    apply collectMembers_stops; unfold enterable; now rewrite N.
  - exact collectMembers_stops.
  - intros members id H; exact (collectMembers_lookup members [] id H).
Qed.

(** Two members with one id, then a [null], then a third member. *)
Lemma workspace_members_witness :
  mapLookup
    (collectMembers
       ([JObj [("id", JStr "m1"); ("name", JStr "Alice")];
         JObj [("id", JObj [("workspace_member_id", JStr "m1")]);
               ("email", JStr "alice@co.com")]]
        ++ JNull :: [JObj [("id", JStr "m2"); ("name", JStr "Bob")]]) [])
    (JStr "m1")
  = JStr "alice@co.com".
Proof.
  rewrite (proj1 (proj2 workspace_members)
             [JObj [("id", JStr "m1"); ("name", JStr "Alice")];
              JObj [("id", JObj [("workspace_member_id", JStr "m1")]);
                    ("email", JStr "alice@co.com")]]
             [JObj [("id", JStr "m2"); ("name", JStr "Bob")]] JNull []
             ltac:(repeat constructor) eq_refl).
  exact (proj1 (proj2 (proj2 (proj2 workspace_members)))
           [JObj [("id", JStr "m1"); ("name", JStr "Alice")];
            JObj [("id", JObj [("workspace_member_id", JStr "m1")]);
                  ("email", JStr "alice@co.com")]] "m1"
           ltac:(repeat constructor)).
Defined.

(** X26.  The record details tool.  It raises exactly when the response is
    [null] or [undefined], or resolving the record's name raises, or the
    record's [values] has a key whose array does not start with an
    attribute value; a failure to fetch notes or entries leaves them empty.
    When it answers, [flatValues] is the flattening of [allValues], the
    attached notes are at most ten, and the name is what [extractRecordName]
    gives for the record. *)
Theorem record_details (objectType recordId : string) (recordResp : JsVal)
  (notesCall entriesCall : Awaited) :
  (get_record_details objectType recordId recordResp notesCall entriesCall
   = Throw TypeError
   <-> nullish recordResp = true \/
       extractRecordName (detailRecord recordResp) = Throw TypeError \/
       Exists (fun entry => wellHeaded entry = false)
              (looped (detailValues recordResp)))
  /\ (forall d,
        get_record_details objectType recordId recordResp notesCall entriesCall
        = Ok d ->
        extractRecordName (detailRecord recordResp) = Ok (Details.name d) /\
        Details.allValues d = detailValues recordResp /\
        flattenLocal (Details.allValues d) = Ok (Details.flatValues d) /\
        List.length (Details.notes d) <= 10).
Proof.
  unfold get_record_details.
  destruct (nullish recordResp) eqn:N.
  { split; [|unfold dot, getProp; cbn; rewrite N; discriminate].
    split; [auto|intros _]; unfold dot, getProp; cbn; now rewrite N. }
  rewrite (detailRecord_ok _ N), bind_ok.
  destruct (extractRecordName (detailRecord recordResp)) as [name|e];
    cbn [bind]; [|destruct e; split; [split; auto|discriminate]].
  rewrite detailValues_ok, !bind_ok.
  rewrite flattenLocal_cases, <- forallb_false_Exists.
  destruct (forallb wellHeaded (looped (detailValues recordResp))) eqn:F;
    cbn [bind].
  - split.
    + split; [discriminate|intros [H|[H|H]]; discriminate].
    + intros d E; injection E as <-; cbn.
      rewrite flattenLocal_cases, F.
      repeat split.
      apply (selected_kept (aboutRecord objectType recordId) notesCall).
  - split; [|discriminate].
    split; [intros _; right; right; reflexivity|reflexivity].
Qed.

(** X27.  The names of a pipeline.  [get_pipeline] fills the name map from
    the entries themselves and hands it, with the same entries, to the
    summarizer.  When the record ids are strings and the names found are
    strings, so that the map is the [Map<string, string>] it is declared to
    be, every entry of the summary is labelled with the name that the first
    entry of its record to yield one yields, wherever that entry stands; with
    ["Record <id>"] when no entry of the record yields a name; and with
    ["Unknown"] when it has no record id. *)
Theorem pipeline_names_from_entries (listId listName : string)
  (entryList : list JsVal) (names : NameMap) (p : PipelineSummary.t) :
  Forall textualId entryList ->
  recordNamesOf (JArr entryList) = Ok (typedMap names) ->
  computePipelineSummary listId listName (JArr entryList) names = Ok p ->
  map PipelineEntry.recordName (PipelineSummary.entries p)
  = map (labelIn entryList) entryList.
Proof.
  intros Ht Hm Hp; cbn [recordNamesOf] in Hm.
  destruct (summary_inv _ _ _ _ _ Hp) as [l [El [_ ->]]].
  cbn in El; injection El as <-; cbn [PipelineSummary.entries].
  rewrite map_map; apply map_ext_in; intros entry He.
  cbn [shapedEntry PipelineEntry.recordName].
  apply label_from_map; [|exact Hm].
  rewrite Forall_forall in Ht; exact (Ht entry He).
Qed.

(** Two entries of the record [r1], of which only the second carries a
    name, and one of an unnamed record: both entries of [r1] are labelled
    with that name. *)
Lemma pipeline_names_from_entries_witness :
  exists p,
    computePipelineSummary "l1" "Deals"
      (JArr [JObj [("entry_id", JStr "e1"); ("record_id", JStr "r1")];
             JObj [("entry_id", JStr "e2"); ("record_id", JStr "r1");
                   ("entry_values",
                    JObj [("name", JArr [JObj [("value", JStr "Acme Deal")]])])];
             JObj [("entry_id", JStr "e3"); ("record_id", JStr "r2")]])
      [("r1", "Acme Deal")] = Ok p /\
    map PipelineEntry.recordName (PipelineSummary.entries p)
    = [JStr "Acme Deal"; JStr "Acme Deal"; JStr "Record r2"].
Proof.
  eexists; split; [reflexivity|].
  rewrite (pipeline_names_from_entries "l1" "Deals"
             [JObj [("entry_id", JStr "e1"); ("record_id", JStr "r1")];
              JObj [("entry_id", JStr "e2"); ("record_id", JStr "r1");
                    ("entry_values",
                     JObj [("name", JArr [JObj [("value", JStr "Acme Deal")]])])];
              JObj [("entry_id", JStr "e3"); ("record_id", JStr "r2")]]
             [("r1", "Acme Deal")] _
             ltac:(repeat constructor) eq_refl eq_refl).
  reflexivity.
Defined.

(** X28.  Finding the pipeline.  Among list entries whose names are strings
    or missing, [get_pipeline] picks the first one that answers to the query:
    one whose name contains the query, letter case apart, or whose id
    ([list_id], else [id]) is exactly the query.  When it finds none, no
    entry answers to the query. *)
Theorem list_found (listName : string) (listArr : list JsVal) :
  Forall (fun l => wellNamed l = true) listArr ->
  exists found,
    findList listName (JArr listArr) = Ok found /\
    match found with
    | Some l =>
        exists before after,
          listArr = before ++ l :: after /\
          answersTo listName l /\
          Forall (fun l' => ~ answersTo listName l') before
    | None => Forall (fun l' => ~ answersTo listName l') listArr
    end.
Proof.
  intros H; cbn [findList].
  rewrite (findM_first _ (fun l => nameHit listName l
                                   || tagIs (listIdOf l) listName))
    by (eapply Forall_impl; [|exact H]; intros l; apply matchesList_cases).
  eexists; split; [reflexivity|].
  pose proof (find_first (fun l => nameHit listName l
                                   || tagIs (listIdOf l) listName) listArr) as F.
  destruct (find _ listArr) as [l|].
  - destruct F as [before [after [-> [Hl Hb]]]].
    exists before, after; split; [reflexivity|].
    split; [apply hit_spec, Hl|].
    eapply Forall_impl; [|exact Hb].
    intros l' E A; apply hit_spec in A; cbn beta in E; congruence.
  - eapply Forall_impl; [|exact F].
    intros l' E A; apply hit_spec in A; cbn beta in E; congruence.
Qed.

(** The query [sales] among three lists: the second is found by its name,
    ahead of the third, which has the query as its id. *)
Lemma list_found_witness :
  exists found,
    findList "sales"
      (JArr [JObj [("id", JObj [("list_id", JStr "l1")]); ("name", JStr "Hiring")];
             JObj [("id", JObj [("list_id", JStr "l2")]);
                   ("name", JStr "EMEA Sales Pipeline")];
             JObj [("id", JStr "sales")]]) = Ok found /\
    option_map (fun l => readProp l "name") found
    = Some (JStr "EMEA Sales Pipeline").
Proof.
  destruct (list_found "sales"
      [JObj [("id", JObj [("list_id", JStr "l1")]); ("name", JStr "Hiring")];
       JObj [("id", JObj [("list_id", JStr "l2")]);
             ("name", JStr "EMEA Sales Pipeline")];
       JObj [("id", JStr "sales")]] ltac:(repeat constructor))
    as [found [Hfound _]].
  exists found; split; [exact Hfound|].
  vm_compute in Hfound; injection Hfound as <-; reflexivity.
Defined.
